(** * spec-agent-workflow: the workflow execution engine

    A shallow embedding of [core/models.py], [core/specs.py],
    [core/router.py], [core/manifest.py] and [core/orchestrator.py], and
    the properties of the engine proved over it.

    Conventions of the embedding.
    - A Python [str] is a [string]; a character stands for the code
      point of the same number (0..255).
    - A value held in a [Dict[str, Any]] is a [pyval]: the JSON-shaped
      Python values (None, bool, int, str, list, dict).
    - [Context.data], [Context.config] and [Context.budgets] are finite
      maps ([gmap]); dictionaries whose iteration order is observable
      (the raw manifest, [Manifest.steps], the registries) are
      association lists in insertion order.
    - An exception is a value of [pyexn]; a function that may raise
      returns a sum, and a function that mutates its argument returns
      the new state.
    - Of the persistence layer ([db/repository.py]) the embedding
      keeps what a call raises on the values it is handed (a missing
      method, a parameter [sqlite3] does not bind); the database
      itself and the wall clock ([started_at], [finished_at],
      [asyncio.sleep]) are not embedded. *)

From Stdlib Require Import ZArith List String Ascii Bool Lia Permutation.
From stdpp Require Import base gmap strings list sorting pretty.

Set Warnings "-register-all".

Local Open Scope string_scope.
Local Open Scope list_scope.
Local Open Scope Z_scope.

(** ** core/router.py *)

Module Router.

(** [Edge]: a directed edge of the workflow graph.  [condition] is a
    plain string in the source, "on_pass", "on_fail" or "always". *)
Record Edge := mkEdge {
  from_step : string;
  to_step : string;
  condition : string
}.

(** [edge.condition == condition or edge.condition == "always"] under
    [edge.from_step == current_step]. *)
Definition edge_matches (current_step condition0 : string) (e : Edge) : bool :=
  String.eqb (from_step e) current_step
  && (String.eqb (condition e) condition0 || String.eqb (condition e) "always").

Fixpoint scan (edges : list Edge) (current_step condition0 : string) : option string :=
  match edges with
  | [] => None
  | e :: rest =>
      if String.eqb (from_step e) current_step then
        if String.eqb (condition e) condition0 || String.eqb (condition e) "always"
        then Some (to_step e)
        else scan rest current_step condition0
      else scan rest current_step condition0
  end.

(** [Router.next_step]. *)
Definition next_step (edges : list Edge) (current_step : string) (step_passed : bool)
  : option string :=
  let condition0 := if step_passed then "on_pass" else "on_fail" in
  scan edges current_step condition0.

(** [Router.get_all_edges_from]. *)
Definition get_all_edges_from (edges : list Edge) (step_name : string) : list Edge :=
  List.filter (fun e => String.eqb (from_step e) step_name) edges.

End Router.

Import Router.

(** The condition an outcome selects. *)
Definition outcome_condition (step_passed : bool) : string :=
  if step_passed then "on_pass" else "on_fail".

(** An edge answers an outcome: it leaves [cur] and carries the
    outcome's condition or "always". *)
Definition answers (cur : string) (passed : bool) (e : Edge) : Prop :=
  from_step e = cur
  /\ (condition e = outcome_condition passed \/ condition e = "always").

(** ** Python values and strings *)

(** The values a [Dict[str, Any]] of the engine holds. *)
Inductive pyval : Type :=
| PNone
| PBool (b : bool)
| PInt (z : Z)
| PStr (s : string)
| PList (l : list pyval)
| PDict (d : list (string * pyval)).

(** Truth value of a Python object ([if x:], [not x]). *)
Definition truthy (v : pyval) : bool :=
  match v with
  | PNone => false
  | PBool b => b
  | PInt z => negb (z =? 0)
  | PStr s => negb (String.eqb s EmptyString)
  | PList l => match l with [] => false | _ => true end
  | PDict d => match d with [] => false | _ => true end
  end.

(** [type(v).__name__]. *)
Definition type_name (v : pyval) : string :=
  match v with
  | PNone => "NoneType"
  | PBool _ => "bool"
  | PInt _ => "int"
  | PStr _ => "str"
  | PList _ => "list"
  | PDict _ => "dict"
  end.

(** [d.get(k)] on an insertion-ordered dictionary. *)
Fixpoint dict_get {A} (d : list (string * A)) (k : string) : option A :=
  match d with
  | [] => None
  | (k', v) :: rest => if String.eqb k' k then Some v else dict_get rest k
  end.

(** [d[k] = v]: overwrite in place, or append a new key. *)
Fixpoint dict_set {A} (d : list (string * A)) (k : string) (v : A) : list (string * A) :=
  match d with
  | [] => [(k, v)]
  | (k', v') :: rest =>
      if String.eqb k' k then (k', v) :: rest else (k', v') :: dict_set rest k v
  end.

Definition dict_keys {A} (d : list (string * A)) : list string := map fst d.

(** [sep.join(parts)]. *)
Fixpoint join (sep : string) (parts : list string) : string :=
  match parts with
  | [] => EmptyString
  | [p] => p
  | p :: rest => p +:+ sep +:+ join sep rest
  end.

(** [sorted(xs)] on strings: code-point lexicographic order. *)
Definition sorted (xs : list string) : list string := merge_sort String.le xs.

Definition hex_digit (n : Z) : ascii :=
  match n with
  | 0 => "0" | 1 => "1" | 2 => "2" | 3 => "3" | 4 => "4" | 5 => "5" | 6 => "6"
  | 7 => "7" | 8 => "8" | 9 => "9" | 10 => "a" | 11 => "b" | 12 => "c"
  | 13 => "d" | 14 => "e" | _ => "f"
  end%char.

(** [n] as [digits] lower-case hexadecimal digits, most significant first. *)
Fixpoint hex_fixed (digits : nat) (n : Z) : string :=
  match digits with
  | O => EmptyString
  | S d => String (hex_digit (Z.shiftr n (4 * Z.of_nat d) mod 16)) (hex_fixed d n)
  end.

Definition code (c : ascii) : Z := Z.of_N (N_of_ascii c).

(** The double-quote character, as a one-character string. *)
Definition dq : string := String (ascii_of_nat 34) EmptyString.

(** *** json.dumps (ensure_ascii, default separators) *)

(** One character of a JSON string literal: the backslash and the
    double quote are escaped, the five short escapes are used, and
    everything else outside [' '..'~'] becomes [\uXXXX].  The
    characters of the embedding are the code points 0..255; a
    character beyond U+FFFF, which [json.dumps] writes as a pair of
    surrogates, is outside it. *)
Definition json_escape_char (c : ascii) : string :=
  let n := code c in
  if n =? 92 then "\\"
  else if n =? 34 then "\" +:+ dq
  else if n =? 8 then "\b"
  else if n =? 12 then "\f"
  else if n =? 10 then "\n"
  else if n =? 13 then "\r"
  else if n =? 9 then "\t"
  else if (32 <=? n) && (n <=? 126) then String c EmptyString
  else "\u" +:+ hex_fixed 4 n.

Fixpoint json_escape (s : string) : string :=
  match s with
  | EmptyString => EmptyString
  | String c rest => json_escape_char c +:+ json_escape rest
  end.

Definition json_string (s : string) : string := dq +:+ json_escape s +:+ dq.

Definition json_string_list (xs : list string) : string :=
  "[" +:+ join ", " (map json_string xs) +:+ "]".

(** *** hashlib.sha256 (FIPS 180-4) on 32-bit words held in [Z] *)

Module Sha256.

Definition mask32 : Z := 4294967295.
Definition add32 (x y : Z) : Z := (x + y) mod 4294967296.
Definition rotr (n x : Z) : Z :=
  Z.lor (Z.shiftr x n) (Z.land (Z.shiftl x (32 - n)) mask32).
Definition shr (n x : Z) : Z := Z.shiftr x n.
Definition Ch (x y z : Z) : Z :=
  Z.lxor (Z.land x y) (Z.land (Z.lxor x mask32) z).
Definition Maj (x y z : Z) : Z :=
  Z.lxor (Z.lxor (Z.land x y) (Z.land x z)) (Z.land y z).
Definition bsig0 (x : Z) : Z := Z.lxor (Z.lxor (rotr 2 x) (rotr 13 x)) (rotr 22 x).
Definition bsig1 (x : Z) : Z := Z.lxor (Z.lxor (rotr 6 x) (rotr 11 x)) (rotr 25 x).
Definition ssig0 (x : Z) : Z := Z.lxor (Z.lxor (rotr 7 x) (rotr 18 x)) (shr 3 x).
Definition ssig1 (x : Z) : Z := Z.lxor (Z.lxor (rotr 17 x) (rotr 19 x)) (shr 10 x).

(** The largest [r] below [2 ^ bits] with [r ^ e <= n], found bit by
    bit from the top. *)
Fixpoint root (e : Z) (n : Z) (bits : nat) (r : Z) : Z :=
  match bits with
  | O => r
  | S b =>
      let r' := r + 2 ^ Z.of_nat b in
      root e n b (if r' ^ e <=? n then r' else r)
  end.

Definition primes : list Z :=
  [ 2; 3; 5; 7; 11; 13; 17; 19; 23; 29; 31; 37; 41; 43; 47; 53;
    59; 61; 67; 71; 73; 79; 83; 89; 97; 101; 103; 107; 109; 113; 127; 131;
    137; 139; 149; 151; 157; 163; 167; 173; 179; 181; 191; 193; 197; 199; 211; 223;
    227; 229; 233; 239; 241; 251; 257; 263; 269; 271; 277; 281; 283; 293; 307; 311 ].

(** Section 4.2.2: the first 32 bits of the fractional parts of the
    cube roots of the first sixty-four primes. *)
Definition K : list Z :=
  map (fun p => root 3 (p * 2 ^ 96) 36 0 mod 2 ^ 32) primes.

(** Big-endian bytes of [n], [count] of them. *)
Fixpoint be_bytes (count : nat) (n : Z) : list Z :=
  match count with
  | O => []
  | S c => (Z.shiftr n (8 * Z.of_nat c) mod 256) :: be_bytes c n
  end.

(** The message, the bit 1, zeros up to 56 mod 64, the bit length. *)
Definition pad (msg : list Z) : list Z :=
  let len := Z.of_nat (length msg) in
  let zeros := Z.to_nat ((55 - len) mod 64) in
  msg ++ 128 :: repeat 0 zeros ++ be_bytes 8 (8 * len).

Fixpoint words (fuel : nat) (bytes : list Z) : list Z :=
  match fuel, bytes with
  | S f, b0 :: b1 :: b2 :: b3 :: rest =>
      (((b0 * 256 + b1) * 256 + b2) * 256 + b3) :: words f rest
  | _, _ => []
  end.

(** The message schedule: [window] holds the last sixteen words. *)
Fixpoint schedule (n : nat) (window : list Z) : list Z :=
  match n with
  | O => []
  | S n' =>
      let wt := add32 (add32 (add32 (ssig1 (nth 14 window 0)) (nth 9 window 0))
                             (ssig0 (nth 1 window 0))) (nth 0 window 0) in
      wt :: schedule n' (tl window ++ [wt])
  end.

Definition vars : Type := (Z * Z * Z * Z * Z * Z * Z * Z)%type.

Definition round (v : vars) (kw : Z * Z) : vars :=
  let '(a, b, c, d, e, f, g, h) := v in
  let t1 := add32 (add32 (add32 (add32 h (bsig1 e)) (Ch e f g)) (fst kw)) (snd kw) in
  let t2 := add32 (bsig0 a) (Maj a b c) in
  (add32 t1 t2, a, b, c, add32 d t1, e, f, g).

Definition compress (hs : vars) (block : list Z) : vars :=
  let w := block ++ schedule 48 block in
  let '(a, b, c, d, e, f, g, h) := fold_left round (combine K w) hs in
  let '(a0, b0, c0, d0, e0, f0, g0, h0) := hs in
  (add32 a0 a, add32 b0 b, add32 c0 c, add32 d0 d,
   add32 e0 e, add32 f0 f, add32 g0 g, add32 h0 h).

Fixpoint blocks (fuel : nat) (ws : list Z) (hs : vars) : vars :=
  match fuel, ws with
  | S f, _ :: _ => blocks f (skipn 16 ws) (compress hs (firstn 16 ws))
  | _, _ => hs
  end.

(** Section 5.3.3: the first 32 bits of the fractional parts of the
    square roots of the first eight primes. *)
Definition frac_sqrt (p : Z) : Z := root 2 (p * 2 ^ 64) 36 0 mod 2 ^ 32.

Definition init : vars :=
  (frac_sqrt 2, frac_sqrt 3, frac_sqrt 5, frac_sqrt 7,
   frac_sqrt 11, frac_sqrt 13, frac_sqrt 17, frac_sqrt 19).

Definition digest (msg : list Z) : vars :=
  let bytes := pad msg in
  let ws := words (length bytes) bytes in
  blocks (length ws) ws init.

(** [hashlib.sha256(msg).hexdigest()]. *)
Definition hexdigest (msg : list Z) : string :=
  let '(a, b, c, d, e, f, g, h) := digest msg in
  hex_fixed 8 a +:+ hex_fixed 8 b +:+ hex_fixed 8 c +:+ hex_fixed 8 d +:+
  hex_fixed 8 e +:+ hex_fixed 8 f +:+ hex_fixed 8 g +:+ hex_fixed 8 h.

End Sha256.

(** [s.encode()]: UTF-8 of a string of code points 0..255; code
    points below 128 are one byte, the others two.  (The text
    [compute_fingerprint] encodes is ASCII: [json.dumps] escapes the
    rest.) *)
Fixpoint encode (s : string) : list Z :=
  match s with
  | EmptyString => []
  | String c rest =>
      let n := code c in
      if n <? 128 then n :: encode rest
      else (192 + Z.shiftr n 6) :: (128 + Z.land n 63) :: encode rest
  end.

(** [s[:n]]. *)
Fixpoint str_take (n : nat) (s : string) : string :=
  match n, s with
  | S n', String c rest => String c (str_take n' rest)
  | _, _ => EmptyString
  end.

(** ** core/models.py *)

(** The canonical text [StepAttempt.compute_fingerprint] hashes:
    [json.dumps({"step_id": .., "data_keys": sorted(..),
    "failed_rules": sorted(..)}, sort_keys=True)]. *)
Definition canonical (step_id : string) (data_keys failed_rule_ids : list string) : string :=
  "{" +:+ json_string "data_keys" +:+ ": " +:+ json_string_list (sorted data_keys)
  +:+ ", " +:+ json_string "failed_rules" +:+ ": " +:+ json_string_list (sorted failed_rule_ids)
  +:+ ", " +:+ json_string "step_id" +:+ ": " +:+ json_string step_id +:+ "}".

(** [context_data.keys()]. *)
Definition data_keys (context_data : gmap string pyval) : list string :=
  (map_to_list context_data).*1.

(** [StepAttempt.compute_fingerprint]. *)
Definition compute_fingerprint (step_id : string) (context_data : gmap string pyval)
    (failed_rule_ids : list string) : string :=
  str_take 16 (Sha256.hexdigest
                 (encode (canonical step_id (data_keys context_data) failed_rule_ids))).

(** *** repr and str *)

Definition sq : string := "'".

Fixpoint str_contains (c : ascii) (s : string) : bool :=
  match s with
  | EmptyString => false
  | String c' rest => Ascii.eqb c' c || str_contains c rest
  end.

(** [repr] keeps a character as it is when [str.isprintable] holds. *)
Definition printable (n : Z) : bool :=
  ((32 <=? n) && (n <? 127)) || ((161 <=? n) && negb (n =? 173)).

Definition repr_char (quote : ascii) (c : ascii) : string :=
  let n := code c in
  if Ascii.eqb c quote || (n =? 92) then String "\" (String c EmptyString)
  else if n =? 9 then "\t"
  else if n =? 10 then "\n"
  else if n =? 13 then "\r"
  else if printable n then String c EmptyString
  else "\x" +:+ hex_fixed 2 n.

Fixpoint repr_chars (quote : ascii) (s : string) : string :=
  match s with
  | EmptyString => EmptyString
  | String c rest => repr_char quote c +:+ repr_chars quote rest
  end.

(** [repr(s)] of a string: single quotes, unless the string holds a
    single quote and no double quote. *)
Definition repr_str (s : string) : string :=
  let quote :=
    if str_contains "'"%char s && negb (str_contains (ascii_of_nat 34) s)
    then ascii_of_nat 34 else "'"%char in
  String quote (repr_chars quote s) +:+ String quote EmptyString.

(** [repr(v)]. *)
Fixpoint repr (v : pyval) : string :=
  match v with
  | PNone => "None"
  | PBool b => if b then "True" else "False"
  | PInt z => pretty z
  | PStr s => repr_str s
  | PList l => "[" +:+ join ", " (map repr l) +:+ "]"
  | PDict d =>
      "{" +:+ join ", " (map (fun kv => repr_str (fst kv) +:+ ": " +:+ repr (snd kv)) d)
      +:+ "}"
  end.

(** [str(v)], also what an f-string field renders. *)
Definition py_str (v : pyval) : string :=
  match v with
  | PStr s => s
  | _ => repr v
  end.

(** ** core/errors.py and the built-in exceptions the engine meets *)

Inductive pyexn : Type :=
| BudgetExhaustedError (budget_name : string) (limit : Z)
| LoopDetectedError (step_id fingerprint : string)
| ManifestError (msg : string)
| KeyError (key : string)
| ValueError (msg : string)
| AttributeError (msg : string)
| TypeError (msg : string)
| OtherError (msg : string).  (* any other subclass of Exception *)

(** [str(e)]. *)
Definition exn_str (e : pyexn) : string :=
  match e with
  | BudgetExhaustedError budget_name limit =>
      "Budget '" +:+ budget_name +:+ "' exhausted (limit: " +:+ pretty limit +:+ ")"
  | LoopDetectedError step_id fingerprint =>
      "Loop detected: step '" +:+ step_id +:+ "' repeated with fingerprint " +:+ fingerprint
  | ManifestError msg => msg
  | KeyError key => repr_str key
  | ValueError msg => msg
  | AttributeError msg => msg
  | TypeError msg => msg
  | OtherError msg => msg
  end.

(** [except (LoopDetectedError, BudgetExhaustedError)]. *)
Definition is_fatal (e : pyexn) : bool :=
  match e with
  | BudgetExhaustedError _ _ | LoopDetectedError _ _ => true
  | _ => false
  end.

(** [len(v)]. *)
Definition py_len (v : pyval) : pyexn + Z :=
  match v with
  | PStr s => inr (Z.of_nat (String.length s))
  | PList l => inr (Z.of_nat (length l))
  | PDict d => inr (Z.of_nat (length d))
  | _ => inl (TypeError ("object of type '" +:+ type_name v +:+ "' has no len()"))
  end.

(** [v.get(k)] on an arbitrary object: only a dict has the method. *)
Definition py_get (v : pyval) (k : string) : pyexn + pyval :=
  match v with
  | PDict d => inr (default PNone (dict_get d k))
  | _ => inl (AttributeError ("'" +:+ type_name v +:+ "' object has no attribute 'get'"))
  end.

(** [for x in v]: the elements of a list, the characters of a
    string, the keys of a dict. *)
Definition py_iter (v : pyval) : pyexn + list pyval :=
  match v with
  | PList l => inr l
  | PStr x => inr (map (fun c => PStr (String c EmptyString)) (list_ascii_of_string x))
  | PDict d => inr (map PStr (dict_keys d))
  | _ => inl (TypeError ("'" +:+ type_name v +:+ "' object is not iterable"))
  end.

(** ** State and exceptions

    A computation over a mutable object of type [S] that may raise:
    it yields the state it leaves behind, also when it raises. *)

Definition M (S A : Type) : Type := S -> (pyexn + A) * S.

Definition ret {S A} (a : A) : M S A := fun s => (inr a, s).
Definition raise {S A} (e : pyexn) : M S A := fun s => (inl e, s).
Definition bind {S A B} (m : M S A) (k : A -> M S B) : M S B :=
  fun s => match m s with
           | (inl e, s') => (inl e, s')
           | (inr a, s') => k a s'
           end.
Definition lift {S A} (r : pyexn + A) : M S A := fun s => (r, s).

Notation "'let*' x ':=' m 'in' k" := (bind m (fun x => k))
  (at level 10, x name, m at level 100, k at level 200).

(** ** core/models.py, continued *)

Record SpecResult := mkSpecResult {
  rule_id : string;
  passed : bool;
  message : string;
  suggested_fix : string;
  tags : list string
}.

Record Context := mkContext {
  run_id : string;
  data : gmap string pyval;
  artifacts : gmap string pyval;
  trace : list pyval;
  budgets : gmap string Z;
  config : gmap string pyval
}.

(** [Context.snapshot_data]: a JSON round trip, the identity on
    JSON-shaped values. *)
Definition snapshot_data (c : Context) : gmap string pyval := data c.

(** [context.data[k] = v]. *)
Definition set_data (k : string) (v : pyval) (c : Context) : Context :=
  mkContext (run_id c) (<[k := v]> (data c)) (artifacts c) (trace c) (budgets c) (config c).

(** ** core/specs.py *)

(** A spec function receives the context object. *)
Definition Spec : Type := M Context SpecResult.

(** [context.data.get(k, dflt)] and [context.config.get(k, dflt)]. *)
Definition data_get (k : string) (dflt : pyval) : M Context pyval :=
  fun c => (inr (default dflt (data c !! k)), c).
Definition config_get (k : string) (dflt : pyval) : M Context pyval :=
  fun c => (inr (default dflt (config c !! k)), c).
Definition get_run_id : M Context string := fun c => (inr (run_id c), c).

Definition is_list (v : pyval) : bool :=
  match v with PList _ => true | _ => false end.

Definition intake_pre : Spec :=
  let* folder := data_get "input_folder" (PStr EmptyString) in
  if negb (truthy folder) then
    ret (mkSpecResult "intake_pre" false
           "input_folder is not set in context.data"
           "Set context.data['input_folder'] to a valid directory path"
           ["pre"; "intake"])
  else
    ret (mkSpecResult "intake_pre" true
           ("input_folder is set: " +:+ py_str folder) EmptyString ["pre"; "intake"]).

Definition intake_post : Spec :=
  let* files := data_get "loaded_files" (PList []) in
  match files with
  | PList ((_ :: _) as l) =>
      ret (mkSpecResult "intake_post" true
             (pretty (Z.of_nat (length l)) +:+ " file(s) loaded") EmptyString ["post"; "intake"])
  | _ =>
      ret (mkSpecResult "intake_post" false
             "No files were loaded"
             "Ensure input_folder contains .txt or .md files"
             ["post"; "intake"])
  end.

Definition extract_pre : Spec :=
  let* files := data_get "loaded_files" (PList []) in
  let* api_key := config_get "api_key" (PStr EmptyString) in
  if negb (truthy files) then
    ret (mkSpecResult "extract_pre" false
           "No loaded_files in context"
           "Run the intake step first to load files"
           ["pre"; "extract"])
  else if negb (truthy api_key) then
    ret (mkSpecResult "extract_pre" false
           "api_key is not configured"
           "Set the OpenAI API key in settings"
           ["pre"; "extract"; "config"])
  else
    let* n := lift (py_len files) in
    ret (mkSpecResult "extract_pre" true
           (pretty n +:+ " file(s) ready, API key configured") EmptyString ["pre"; "extract"]).

(** [[i for i, item in enumerate(items) if not item.get("title")]]. *)
Fixpoint missing_titles (i : Z) (items : list pyval) : pyexn + list Z :=
  match items with
  | [] => inr []
  | item :: rest =>
      match py_get item "title" with
      | inl e => inl e
      | inr title =>
          match missing_titles (i + 1) rest with
          | inl e => inl e
          | inr more => inr (if negb (truthy title) then i :: more else more)
          end
      end
  end.

Definition extract_post : Spec :=
  let* items := data_get "extracted_items" (PList []) in
  match items with
  | PList ((_ :: _) as l) =>
      let* missing := lift (missing_titles 0 l) in
      match missing with
      | _ :: _ =>
          ret (mkSpecResult "extract_post" false
                 ("Items at indices " +:+ repr (PList (map PInt missing)) +:+ " have no title")
                 "Ensure LLM prompt requires a title for each item"
                 ["post"; "extract"; "schema"])
      | [] =>
          ret (mkSpecResult "extract_post" true
                 (pretty (Z.of_nat (length l)) +:+ " item(s) extracted, all with titles")
                 EmptyString ["post"; "extract"])
      end
  | _ =>
      ret (mkSpecResult "extract_post" false
             "No items were extracted"
             "Check LLM response format or input file content"
             ["post"; "extract"])
  end.

Definition write_pre : Spec :=
  let* items := data_get "extracted_items" (PList []) in
  let* folder := data_get "output_folder" (PStr EmptyString) in
  if negb (truthy items) then
    ret (mkSpecResult "write_pre" false
           "No extracted_items to write"
           "Run the extract step first"
           ["pre"; "write"])
  else if negb (truthy folder) then
    ret (mkSpecResult "write_pre" false
           "output_folder is not set"
           "Set context.data['output_folder'] to a valid directory path"
           ["pre"; "write"])
  else
    let* n := lift (py_len items) in
    ret (mkSpecResult "write_pre" true
           (pretty n +:+ " item(s) ready, output_folder set: " +:+ py_str folder)
           EmptyString ["pre"; "write"]).

Definition write_post : Spec :=
  let* written := data_get "written_files" (PList []) in
  match written with
  | PList ((_ :: _) as l) =>
      ret (mkSpecResult "write_post" true
             (pretty (Z.of_nat (length l)) +:+ " file(s) written") EmptyString ["post"; "write"])
  | _ =>
      ret (mkSpecResult "write_post" false
             "No files were written"
             "Check output_folder permissions and disk space"
             ["post"; "write"])
  end.

Definition global_invariant : Spec :=
  let* rid := get_run_id in
  if String.eqb rid EmptyString then
    ret (mkSpecResult "global_invariant" false
           "run_id is missing from context"
           "This is an internal error - context was not initialized properly"
           ["invariant"])
  else
    ret (mkSpecResult "global_invariant" true
           ("run_id=" +:+ str_take 8 rid +:+ "...") EmptyString ["invariant"]).

(** The score is held in hundredths; [f"{score:.0%}"] prints it as a
    whole percentage. *)
Definition pipeline_progress : Spec :=
  let* loaded := data_get "loaded_files" PNone in
  let* extracted := data_get "extracted_items" PNone in
  let* written := data_get "written_files" PNone in
  let score := (if truthy loaded then 33 else 0)
               + (if truthy extracted then 33 else 0)
               + (if truthy written then 34 else 0) in
  ret (mkSpecResult "pipeline_progress" true
         ("Progress: " +:+ pretty score +:+ "%") EmptyString ["progress"]).

(** [_SPEC_REGISTRY], in registration order. *)
Definition _SPEC_REGISTRY : list (string * Spec) :=
  [ ("intake_pre", intake_pre); ("intake_post", intake_post);
    ("extract_pre", extract_pre); ("extract_post", extract_post);
    ("write_pre", write_pre); ("write_post", write_post);
    ("global_invariant", global_invariant);
    ("pipeline_progress", pipeline_progress) ].

(** [get_spec]. *)
Definition get_spec (name : string) : pyexn + Spec :=
  match dict_get _SPEC_REGISTRY name with
  | Some fn => inr fn
  | None =>
      inl (KeyError ("Unknown spec: '" +:+ name +:+ "'. Available: "
                     +:+ repr (PList (map PStr (dict_keys _SPEC_REGISTRY)))))
  end.

(** [evaluate_specs]. *)
Fixpoint evaluate_specs (names : list string) : M Context (list SpecResult) :=
  match names with
  | [] => ret []
  | name :: rest =>
      let* fn := lift (get_spec name) in
      let* r := fn in
      let* rs := evaluate_specs rest in
      ret (r :: rs)
  end.

(** [all_passed]. *)
Definition all_passed (results : list SpecResult) : bool := forallb passed results.

(** The shapes of the convention keys the spec functions rely on:
    [loaded_files] and [extracted_items], when set, have a length, and
    the entries of an [extracted_items] list are dicts. *)
Definition sized (v : pyval) : bool :=
  match v with
  | PStr _ | PList _ | PDict _ => true
  | _ => negb (truthy v)
  end.

Definition is_dict (v : pyval) : bool :=
  match v with PDict _ => true | _ => false end.

Definition dict_entries (v : pyval) : bool :=
  match v with PList l => forallb is_dict l | _ => true end.

Definition conventional (c : Context) : bool :=
  sized (default (PList []) (data c !! "loaded_files"))
  && sized (default (PList []) (data c !! "extracted_items"))
  && dict_entries (default (PList []) (data c !! "extracted_items")).

(** A name the registry knows. *)
Definition registered (n : string) : Prop := is_Some (dict_get _SPEC_REGISTRY n).

(** ** core/steps.py *)

(** [delay_seconds] only feeds [asyncio.sleep] and is left out. *)
Record RetryPolicy := mkRetryPolicy { max_attempts : Z }.

Record StepDefinition := mkStepDefinition {
  name : string;
  agent_name : string;
  pre_specs : list string;
  post_specs : list string;
  invariant_specs : list string;
  retry : RetryPolicy
}.

(** ** core/models.py: statuses and records *)

Module StepStatus.
Inductive t : Set := PENDING | RUNNING | PASSED | FAILED.
Definition eqb (a b : t) : bool :=
  match a, b with
  | PENDING, PENDING | RUNNING, RUNNING | PASSED, PASSED | FAILED, FAILED => true
  | _, _ => false
  end.
End StepStatus.

Module RunStatus.
Inductive t : Set := PENDING | RUNNING | COMPLETED | FAILED.
End RunStatus.

Module StepAttempt.
Record t := mk {
  step_id : string;
  agent_id : string;
  attempt : Z;
  status : StepStatus.t;
  pre_results : list SpecResult;
  post_results : list SpecResult;
  invariant_results : list SpecResult;
  context_before : gmap string pyval;
  context_after : gmap string pyval;
  fingerprint : string;
  error : option string
}.

Definition set_status (v : StepStatus.t) (r : t) : t :=
  mk (step_id r) (agent_id r) (attempt r) v (pre_results r) (post_results r)
     (invariant_results r) (context_before r) (context_after r) (fingerprint r) (error r).
Definition set_pre_results (v : list SpecResult) (r : t) : t :=
  mk (step_id r) (agent_id r) (attempt r) (status r) v (post_results r)
     (invariant_results r) (context_before r) (context_after r) (fingerprint r) (error r).
Definition set_post_results (v : list SpecResult) (r : t) : t :=
  mk (step_id r) (agent_id r) (attempt r) (status r) (pre_results r) v
     (invariant_results r) (context_before r) (context_after r) (fingerprint r) (error r).
Definition set_invariant_results (v : list SpecResult) (r : t) : t :=
  mk (step_id r) (agent_id r) (attempt r) (status r) (pre_results r) (post_results r)
     v (context_before r) (context_after r) (fingerprint r) (error r).
Definition set_context_before (v : gmap string pyval) (r : t) : t :=
  mk (step_id r) (agent_id r) (attempt r) (status r) (pre_results r) (post_results r)
     (invariant_results r) v (context_after r) (fingerprint r) (error r).
Definition set_context_after (v : gmap string pyval) (r : t) : t :=
  mk (step_id r) (agent_id r) (attempt r) (status r) (pre_results r) (post_results r)
     (invariant_results r) (context_before r) v (fingerprint r) (error r).
Definition set_fingerprint (v : string) (r : t) : t :=
  mk (step_id r) (agent_id r) (attempt r) (status r) (pre_results r) (post_results r)
     (invariant_results r) (context_before r) (context_after r) v (error r).
Definition set_error (v : option string) (r : t) : t :=
  mk (step_id r) (agent_id r) (attempt r) (status r) (pre_results r) (post_results r)
     (invariant_results r) (context_before r) (context_after r) (fingerprint r) v.
End StepAttempt.

Module RunRecord.
Record t := mk {
  run_id : string;
  manifest_name : pyval;
  status : RunStatus.t;
  steps : list StepAttempt.t;
  error : option string;
  input_folder : pyval;
  output_folder : pyval;
  model_name : pyval
}.

Definition set_status (v : RunStatus.t) (r : t) : t :=
  mk (run_id r) (manifest_name r) v (steps r) (error r)
     (input_folder r) (output_folder r) (model_name r).
Definition set_error (v : option string) (r : t) : t :=
  mk (run_id r) (manifest_name r) (status r) (steps r) v
     (input_folder r) (output_folder r) (model_name r).
Definition append_step (a : StepAttempt.t) (r : t) : t :=
  mk (run_id r) (manifest_name r) (status r) (steps r ++ [a]) (error r)
     (input_folder r) (output_folder r) (model_name r).
End RunRecord.

(** ** core/manifest.py: the parsed manifest *)

Module Manifest.
(** [name], [description], [version], [defaults] and [budgets] are
    stored as they come from the raw dictionary. *)
Record t := mk {
  name : pyval;
  description : pyval;
  version : pyval;
  entry_step : string;
  steps : list (string * StepDefinition);
  edges : list Edge;
  defaults : pyval;
  budgets : pyval
}.
End Manifest.

(** *** Manifest._parse

    The raw dictionary is untyped.  Where the source stores a raw value
    in an annotated field without looking at it, [_parse] below needs
    the value to fit the annotation; [IllTyped] stands for a manifest
    the source returns with a field outside its annotation, which the
    typed records cannot hold. *)

Inductive parsed : Type :=
| Loaded (m : Manifest.t)
| Raised (e : pyexn)
| IllTyped.

Definition as_str (v : pyval) : option string :=
  match v with PStr x => Some x | _ => None end.

Definition as_int (v : pyval) : option Z :=
  match v with
  | PInt z => Some z
  | PBool b => Some (if b then 1 else 0)
  | _ => None
  end.

Fixpoint as_strs_list (l : list pyval) : option (list string) :=
  match l with
  | [] => Some []
  | v :: rest =>
      match as_str v, as_strs_list rest with
      | Some x, Some xs => Some (x :: xs)
      | _, _ => None
      end
  end.

Definition as_strs (v : pyval) : option (list string) :=
  match v with PList l => as_strs_list l | _ => None end.

(** [v.get(k, dflt)] on an arbitrary object. *)
Definition py_get_default (v : pyval) (k : string) (dflt : pyval) : pyexn + pyval :=
  match v with
  | PDict d => inr (default dflt (dict_get d k))
  | _ => inl (AttributeError ("'" +:+ type_name v +:+ "' object has no attribute 'get'"))
  end.

(** [v[k]] on a dict. *)
Definition dict_item (d : list (string * pyval)) (k : string) : pyexn + pyval :=
  match dict_get d k with
  | Some v => inr v
  | None => inl (KeyError k)
  end.

(** One iteration of the loop over [raw_steps.items()]: the checks,
    then the [StepDefinition], if its fields fit. *)
Definition parse_step (step_name : string) (step_data : pyval)
  : pyexn + option StepDefinition :=
  match step_data with
  | PDict d =>
      let agent := default PNone (dict_get d "agent") in
      if negb (truthy agent) then
        inl (ManifestError ("Step '" +:+ step_name +:+ "' must have an 'agent' field"))
      else
        let specs := default (PDict []) (dict_get d "specs") in
        let retry_data := default (PDict []) (dict_get d "retry") in
        match py_get_default specs "pre" (PList []) with
        | inl e => inl e
        | inr pre =>
        match py_get_default specs "post" (PList []) with
        | inl e => inl e
        | inr post =>
        match py_get_default specs "invariant" (PList []) with
        | inl e => inl e
        | inr inv =>
        match py_get_default retry_data "max_attempts" (PInt 2) with
        | inl e => inl e
        | inr attempts =>
            inr (match as_str agent, as_strs pre, as_strs post, as_strs inv,
                       as_int attempts with
                 | Some a, Some p, Some q, Some i, Some n =>
                     Some (mkStepDefinition step_name a p q i (mkRetryPolicy n))
                 | _, _, _, _, _ => None
                 end)
        end end end end
  | _ => inl (ManifestError ("Step '" +:+ step_name +:+ "' must be a mapping"))
  end.

Fixpoint parse_steps (items : list (string * pyval))
    (steps : list (string * option StepDefinition))
  : pyexn + list (string * option StepDefinition) :=
  match items with
  | [] => inr steps
  | (step_name, step_data) :: rest =>
      match parse_step step_name step_data with
      | inl e => inl e
      | inr sd => parse_steps rest (dict_set steps step_name sd)
      end
  end.

(** One iteration of the loop over [raw_edges]. *)
Definition parse_edge (edge_data : pyval) : pyexn + option Edge :=
  match edge_data with
  | PDict d =>
      match dict_item d "from" with
      | inl e => inl e
      | inr f =>
      match dict_item d "to" with
      | inl e => inl e
      | inr t =>
          let c := default (PStr "on_pass") (dict_get d "condition") in
          inr (match as_str f, as_str t, as_str c with
               | Some f', Some t', Some c' => Some (mkEdge f' t' c')
               | _, _, _ => None
               end)
      end end
  | _ =>
      inl (ManifestError ("Each edge must be a mapping, got <class '"
                          +:+ type_name edge_data +:+ "'>"))
  end.

Fixpoint parse_edges (raw_edges : list pyval) : pyexn + list (option Edge) :=
  match raw_edges with
  | [] => inr []
  | edge_data :: rest =>
      match parse_edge edge_data with
      | inl e => inl e
      | inr ed =>
          match parse_edges rest with
          | inl e => inl e
          | inr eds => inr (ed :: eds)
          end
      end
  end.

Fixpoint all_some {A} (l : list (option A)) : option (list A) :=
  match l with
  | [] => Some []
  | Some x :: rest => option_map (cons x) (all_some rest)
  | None :: _ => None
  end.

Fixpoint all_some_steps {A} (l : list (string * option A)) : option (list (string * A)) :=
  match l with
  | [] => Some []
  | (k, Some x) :: rest => option_map (cons (k, x)) (all_some_steps rest)
  | (_, None) :: _ => None
  end.

(** [entry_step not in steps]: [Some true] when the entry step is
    missing, an exception when it cannot be hashed. *)
Definition entry_missing {A} (entry_step : pyval) (steps : list (string * A))
  : pyexn + bool :=
  match entry_step with
  | PStr x => inr (negb (existsb (String.eqb x) (dict_keys steps)))
  | PList _ | PDict _ =>
      inl (TypeError ("unhashable type: '" +:+ type_name entry_step +:+ "'"))
  | _ => inr true
  end.

(** [Manifest._parse]. *)
Definition _parse (raw : list (string * pyval)) : parsed :=
  let name0 := default PNone (dict_get raw "name") in
  if negb (truthy name0) then Raised (ManifestError "Manifest must have a 'name' field")
  else
  let entry_step := default PNone (dict_get raw "entry_step") in
  if negb (truthy entry_step) then
    Raised (ManifestError "Manifest must have an 'entry_step' field")
  else
  let raw_steps := default (PDict []) (dict_get raw "steps") in
  if negb (truthy raw_steps) then
    Raised (ManifestError "Manifest must define at least one step")
  else
  match raw_steps with
  | PDict items =>
      match parse_steps items [] with
      | inl e => Raised e
      | inr steps =>
          match entry_missing entry_step steps with
          | inl e => Raised e
          | inr true =>
              Raised (ManifestError
                        ("entry_step '" +:+ py_str entry_step +:+ "' not found in steps: "
                         +:+ repr (PList (map PStr (dict_keys steps)))))
          | inr false =>
              match py_iter (default (PList []) (dict_get raw "edges")) with
              | inl e => Raised e
              | inr raw_edges =>
                  match parse_edges raw_edges with
                  | inl e => Raised e
                  | inr edges =>
                      match as_str entry_step, all_some_steps steps, all_some edges with
                      | Some entry, Some steps', Some edges' =>
                          Loaded (Manifest.mk name0
                                    (default (PStr EmptyString) (dict_get raw "description"))
                                    (default (PStr "1.0") (dict_get raw "version"))
                                    entry steps' edges'
                                    (default (PDict []) (dict_get raw "defaults"))
                                    (default (PDict []) (dict_get raw "budgets")))
                      | _, _, _ => IllTyped
                      end
                  end
              end
          end
      end
  | _ =>
      Raised (AttributeError ("'" +:+ type_name raw_steps +:+ "' object has no attribute 'items'"))
  end.

(** [Manifest.from_dict]. *)
Definition from_dict (raw : list (string * pyval)) : parsed := _parse raw.

(** *** The grounds for a [ManifestError], read off the raw dictionary *)

Definition is_manifest_error (p : parsed) : bool :=
  match p with Raised (ManifestError _) => true | _ => false end.

Definition raw_steps (raw : list (string * pyval)) : list (string * pyval) :=
  match default (PDict []) (dict_get raw "steps") with
  | PDict items => items
  | _ => []
  end.

Definition raw_edges (raw : list (string * pyval)) : list pyval :=
  match py_iter (default (PList []) (dict_get raw "edges")) with
  | inr l => l
  | inl _ => []
  end.

Definition no_name (raw : list (string * pyval)) : bool :=
  negb (truthy (default PNone (dict_get raw "name"))).

Definition no_entry_step (raw : list (string * pyval)) : bool :=
  negb (truthy (default PNone (dict_get raw "entry_step"))).

Definition no_steps (raw : list (string * pyval)) : bool :=
  negb (truthy (default (PDict []) (dict_get raw "steps"))).

Definition not_a_mapping (step : string * pyval) : bool := negb (is_dict (snd step)).

Definition lacks_agent (step : string * pyval) : bool :=
  match snd step with
  | PDict d => negb (truthy (default PNone (dict_get d "agent")))
  | _ => false
  end.

Definition entry_absent (raw : list (string * pyval)) : bool :=
  match default PNone (dict_get raw "entry_step") with
  | PStr x => negb (existsb (String.eqb x) (dict_keys (raw_steps raw)))
  | _ => true
  end.

(** The four grounds the specification lists. *)
Definition listed_grounds (raw : list (string * pyval)) : bool :=
  no_entry_step raw || no_steps raw || entry_absent raw
  || existsb lacks_agent (raw_steps raw).

(** All the grounds of the source. *)
Definition grounds (raw : list (string * pyval)) : bool :=
  no_name raw || no_entry_step raw || no_steps raw
  || existsb not_a_mapping (raw_steps raw) || existsb lacks_agent (raw_steps raw)
  || entry_absent raw || existsb (fun e => negb (is_dict e)) (raw_edges raw).

(** The shape of a manifest document: [steps] is a mapping, the
    [specs] and [retry] of a step are mappings, [entry_step] can be
    hashed, [edges] can be iterated, and an edge that is a mapping has
    its "from" and "to". *)
Definition dict_or_absent (d : list (string * pyval)) (k : string) : bool :=
  match dict_get d k with Some v => is_dict v | None => true end.

Definition step_shaped (step : string * pyval) : bool :=
  match snd step with
  | PDict d => dict_or_absent d "specs" && dict_or_absent d "retry"
  | _ => true
  end.

Definition edge_shaped (e : pyval) : bool :=
  match e with
  | PDict d => bool_decide (is_Some (dict_get d "from")) && bool_decide (is_Some (dict_get d "to"))
  | _ => true
  end.

Definition shaped (raw : list (string * pyval)) : bool :=
  match default (PDict []) (dict_get raw "steps") with
  | PDict items => forallb step_shaped items
  | v => negb (truthy v)
  end
  && match default PNone (dict_get raw "entry_step") with
     | PList _ | PDict _ => false
     | _ => true
     end
  && match default (PList []) (dict_get raw "edges") with
     | PList _ | PStr _ | PDict _ => true
     | _ => false
     end
  && forallb edge_shaped (raw_edges raw).

(** An edge as a manifest document writes it. *)
Definition raw_edge (e : Edge) : pyval :=
  PDict [("from", PStr (from_step e)); ("to", PStr (to_step e));
         ("condition", PStr (condition e))].

Definition with_edges (edges : list Edge) (m : Manifest.t) : Manifest.t :=
  Manifest.mk (Manifest.name m) (Manifest.description m) (Manifest.version m)
    (Manifest.entry_step m) (Manifest.steps m) edges
    (Manifest.defaults m) (Manifest.budgets m).

(** ** core/agents.py *)

(** [BaseAgent.execute]: an agent mutates the context it is handed and
    returns that same object, or raises. *)
Definition Agent : Type := M Context unit.

(** [get_agent] on the registry as it stands when the run starts. *)
Definition get_agent (registry : list (string * Agent)) (agent : string) : pyexn + Agent :=
  match dict_get registry agent with
  | Some a => inr a
  | None =>
      inl (ValueError ("Unknown agent: '" +:+ agent +:+ "'. Available: "
                       +:+ repr (PList (map PStr (dict_keys registry)))))
  end.

(** ** db/repository.py

    The repositories write to the connection the orchestrator was
    given.  The connection is taken as open on the repository's schema
    and as accepting the rows; what the calls raise by themselves, on
    the values they are handed, is modelled: a method call on an
    object that lacks it, and a parameter [sqlite3] cannot bind. *)

(** Binding parameter [i] (counted from 1) of a statement: [sqlite3]
    binds [None], [int] within 64 bits and [str]; it raises
    [ProgrammingError] on a list or a dict and [OverflowError] on a
    larger [int] (messages of CPython 3.11). *)
Definition bind_param (i : Z) (v : pyval) : pyexn + unit :=
  match v with
  | PNone | PBool _ | PStr _ => inr tt
  | PInt z =>
      if (- 2 ^ 63 <=? z) && (z <? 2 ^ 63) then inr tt
      else inl (OtherError "Python int too large to convert to SQLite INTEGER")
  | PList _ | PDict _ =>
      inl (OtherError ("Error binding parameter " +:+ pretty i +:+ ": type '"
                       +:+ type_name v +:+ "' is not supported"))
  end.

(** The parameters of one statement, bound in order; the first that
    does not bind raises. *)
Fixpoint bind_all (params : list (Z * pyval)) : pyexn + unit :=
  match params with
  | [] => inr tt
  | (i, v) :: rest =>
      match bind_param i v with
      | inl e => inl e
      | inr _ => bind_all rest
      end
  end.

(** [RunRepository.create_run]: parameters 3 and 7 are the strings of
    [_now()] and [json.dumps(config or {})]. *)
Definition create_run (run_id : string)
    (manifest_name input_folder output_folder model_name : pyval) : pyexn + unit :=
  bind_all [(1, PStr run_id); (2, manifest_name); (4, input_folder);
            (5, output_folder); (6, model_name)].

(** [RunRepository.update_run(conn, run_id, total_steps=n)]. *)
Definition update_run_total_steps (run_id : string) (total_steps : Z) : pyexn + unit :=
  bind_all [(1, PInt total_steps); (2, PStr run_id)].

(** [TraceRepository.save_trace] on the fields [_execute_step_attempt]
    reads off a trace entry with [trace_entry.get]; parameters 1, 2
    and 4 are strings. *)
Definition save_trace (trace_entry : pyval) : pyexn + unit :=
  match trace_entry with
  | PDict d =>
      bind_all
        [(3, default (PStr "unknown") (dict_get d "type"));
         (5, default (default (PStr EmptyString) (dict_get d "file"))
               (dict_get d "prompt_preview"));
         (6, default (PStr EmptyString) (dict_get d "response_preview"));
         (7, default PNone (dict_get d "duration_ms"));
         (8, default PNone (dict_get d "tokens"));
         (9, default PNone (dict_get d "model"))]
  | _ => inl (AttributeError ("'" +:+ type_name trace_entry
                              +:+ "' object has no attribute 'get'"))
  end.

(** One iteration of [ItemRepository.save_items]: the fields are read
    with [item.get], then the row is bound; parameters 1, 2, 6, 9 and
    10 are strings, and the default of "confidence", 0.8, binds. *)
Definition save_item (item : pyval) : pyexn + unit :=
  match item with
  | PDict d =>
      bind_all
        [(3, default (PStr EmptyString) (dict_get d "title"));
         (4, default (PStr "note") (dict_get d "item_type"));
         (5, default (PStr EmptyString) (dict_get d "description"));
         (7, default (PStr EmptyString) (dict_get d "source_file"));
         (8, default PNone (dict_get d "confidence"))]
  | _ => inl (AttributeError ("'" +:+ type_name item +:+ "' object has no attribute 'get'"))
  end.

Fixpoint save_each (items : list pyval) : pyexn + unit :=
  match items with
  | [] => inr tt
  | item :: rest =>
      match save_item item with
      | inl e => inl e
      | inr _ => save_each rest
      end
  end.

(** [ItemRepository.save_items]: [for item in items]. *)
Definition save_items (items : pyval) : pyexn + unit :=
  match py_iter items with
  | inl e => inl e
  | inr l => save_each l
  end.

(** ** core/orchestrator.py

    [create_step], [save_snapshot], [save_many] and [update_step] bind
    strings, 0 or 1 and the attempt number, and the later calls of
    [update_run] bind strings and the counter of passed steps: these
    always bind (the numbers stay below 2^63), and the calls are left
    out. *)

(** What one run owns: the context object, the fingerprints seen per
    step, and (as an observer) the agents executed so far, in order. *)
Record Store := mkStore {
  context : Context;
  seen_fingerprints : gmap string (gset string);
  invoked : list string
}.

(** The state of one attempt: the store and the [StepAttempt] being
    filled in. *)
Record Att := mkAtt {
  store : Store;
  result : StepAttempt.t
}.

Definition update_result (f : StepAttempt.t -> StepAttempt.t) : M Att unit :=
  fun a => (inr tt, mkAtt (store a) (f (result a))).

Definition get_context : M Att Context := fun a => (inr (context (store a)), a).

(** Run a computation on the context object of the store. *)
Definition on_context {A} (m : M Context A) : M Att A :=
  fun a =>
    let '(r, c) := m (context (store a)) in
    (r, mkAtt (mkStore c (seen_fingerprints (store a)) (invoked (store a))) (result a)).

(** [await agent.execute(context)], noting the call. *)
Definition execute_agent (agent : string) (ag : Agent) : M Att unit :=
  fun a =>
    let '(r, c) := ag (context (store a)) in
    (r, mkAtt (mkStore c (seen_fingerprints (store a)) (invoked (store a) ++ [agent]))
              (result a)).

(** [[r for r in results if not r.passed]]. *)
Definition failed_of (results : list SpecResult) : list SpecResult :=
  List.filter (fun r => negb (passed r)) results.

(** ["; ".join(f"{r.rule_id}: {r.message}" for r in failed)]. *)
Definition error_msg (failed : list SpecResult) : string :=
  join "; " (map (fun r => rule_id r +:+ ": " +:+ message r) failed).

(** Saving the traces the agent appended:
    [for trace_entry in new_traces: self.trace_repo.save_trace(...)]. *)
Fixpoint save_traces (new_traces : list pyval) : pyexn + unit :=
  match new_traces with
  | [] => inr tt
  | trace_entry :: rest =>
      match save_trace trace_entry with
      | inl e => inl e
      | inr _ => save_traces rest
      end
  end.

(** The loop detector: check the fingerprint against the ones seen
    for this step, then record it. *)
Definition check_fingerprint (step : string) (fp : string) : M Att unit :=
  fun a =>
    let st := store a in
    let seen := default ∅ (seen_fingerprints st !! step) in
    if decide (fp ∈ seen) then
      (inl (LoopDetectedError step fp),
       mkAtt (mkStore (context st) (<[step := seen]> (seen_fingerprints st)) (invoked st))
             (result a))
    else
      (inr tt,
       mkAtt (mkStore (context st) (<[step := {[fp]} ∪ seen]> (seen_fingerprints st))
                      (invoked st))
             (result a)).

Definition nonempty {A} (l : list A) : bool :=
  match l with [] => false | _ => true end.

(** What [run] holds while it walks the graph: the store, the
    counter of passed steps and the record under construction. *)
Record RunState := mkRunState {
  run_store : Store;
  completed_steps : Z;
  record : RunRecord.t
}.

(** An optional string as a Python value. *)
Definition opt_str (o : option string) : pyval :=
  match o with Some x => PStr x | None => PNone end.

(** The store a retry starts from: the store the failed attempt left,
    with the three retry keys written into [context.data]. *)
Definition retry_store (error : option string) (current_step_name : string) (attempt : Z)
    (st : Store) : Store :=
  mkStore
    (set_data "_retry_attempt" (PInt (attempt + 1))
       (set_data "_last_failed_step" (PStr current_step_name)
          (set_data "_last_error"
             (opt_str error) (context st))))
    (seen_fingerprints st) (invoked st).

Section Engine.

(** [_AGENT_REGISTRY] and the optional callback of [run]: [None], or
    a function that may raise. *)
Variable registry : list (string * Agent).
Variable on_step_update : option (StepAttempt.t -> option pyexn).

(** Steps 2, 6 and 7 share a shape: evaluate the specs, store the
    results, and on a failure set the status and the error.  The
    value tells whether the attempt goes on. *)
Definition pre_stage (step_def : StepDefinition) : M Att bool :=
  if nonempty (pre_specs step_def) then
    let* pre_results := on_context (evaluate_specs (pre_specs step_def)) in
    let* _ := update_result (StepAttempt.set_pre_results pre_results) in
    if negb (all_passed pre_results) then
      let failed := failed_of pre_results in
      let* _ := update_result (StepAttempt.set_status StepStatus.FAILED) in
      let* _ := update_result
                  (StepAttempt.set_error (Some ("Pre-spec failed: " +:+ error_msg failed))) in
      ret false
    else ret true
  else ret true.

Definition agent_stage (step_def : StepDefinition) : M Att unit :=
  let* agent := lift (get_agent registry (agent_name step_def)) in
  let* before := get_context in
  let trace_before_len := length (trace before) in
  let* _ := execute_agent (agent_name step_def) agent in
  let* after := get_context in
  let* _ := lift (save_traces (drop trace_before_len (trace after))) in
  update_result (StepAttempt.set_context_after (snapshot_data after)).

Definition post_stage (step_def : StepDefinition) : M Att bool :=
  if nonempty (post_specs step_def) then
    let* post_results := on_context (evaluate_specs (post_specs step_def)) in
    let* _ := update_result (StepAttempt.set_post_results post_results) in
    if negb (all_passed post_results) then
      let failed := failed_of post_results in
      let* _ := update_result (StepAttempt.set_status StepStatus.FAILED) in
      let* _ := update_result
                  (StepAttempt.set_error (Some ("Post-spec failed: " +:+ error_msg failed))) in
      let failed_ids := map rule_id failed in
      let* c := get_context in
      let fp := compute_fingerprint (name step_def) (snapshot_data c) failed_ids in
      let* _ := update_result (StepAttempt.set_fingerprint fp) in
      let* _ := check_fingerprint (name step_def) fp in
      ret false
    else ret true
  else ret true.

Definition invariant_stage (step_def : StepDefinition) : M Att bool :=
  if nonempty (invariant_specs step_def) then
    let* inv_results := on_context (evaluate_specs (invariant_specs step_def)) in
    let* _ := update_result (StepAttempt.set_invariant_results inv_results) in
    if negb (all_passed inv_results) then
      let failed := failed_of inv_results in
      let* _ := update_result (StepAttempt.set_status StepStatus.FAILED) in
      let* _ := update_result
                  (StepAttempt.set_error (Some ("Invariant failed: " +:+ error_msg failed))) in
      ret false
    else ret true
  else ret true.

(** The body of the [try] of [_execute_step_attempt]; it ends where
    the source returns [result]. *)
Definition attempt_body (step_def : StepDefinition) : M Att unit :=
  let* c := get_context in
  let* _ := update_result (StepAttempt.set_context_before (snapshot_data c)) in
  let* go := pre_stage step_def in
  if negb go then ret tt else
  let* _ := agent_stage step_def in
  let* go := post_stage step_def in
  if negb go then ret tt else
  let* go := invariant_stage step_def in
  if negb go then ret tt else
  update_result (StepAttempt.set_status StepStatus.PASSED).

(** [Orchestrator._execute_step_attempt]: the two fatal errors are
    raised again, any other exception fails the attempt. *)
Definition _execute_step_attempt (step_def : StepDefinition) (attempt : Z)
  : M Store StepAttempt.t :=
  fun st =>
    let result0 :=
      StepAttempt.mk (name step_def) (agent_name step_def) attempt StepStatus.RUNNING
        [] [] [] ∅ ∅ EmptyString None in
    match attempt_body step_def (mkAtt st result0) with
    | (inr _, a) => (inr (result a), store a)
    | (inl e, a) =>
        if is_fatal e then (inl e, store a)
        else (inr (StepAttempt.set_error (Some (exn_str e))
                     (StepAttempt.set_status StepStatus.FAILED (result a))),
              store a)
    end.

Definition on_store {A} (m : M Store A) : M RunState A :=
  fun s =>
    let '(r, st) := m (run_store s) in
    (r, mkRunState st (completed_steps s) (record s)).

(** [record.steps.append(attempt_result)]. *)
Definition append_attempt (a : StepAttempt.t) : M RunState unit :=
  fun s => (inr tt, mkRunState (run_store s) (completed_steps s)
                               (RunRecord.append_step a (record s))).

(** [if on_step_update: on_step_update(attempt_result)]. *)
Definition notify (a : StepAttempt.t) : M RunState unit :=
  match on_step_update with
  | None => ret tt
  | Some callback =>
      match callback a with
      | Some e => raise e
      | None => ret tt
      end
  end.

(** [completed_steps += 1]. *)
Definition count_passed : M RunState unit :=
  fun s => (inr tt, mkRunState (run_store s) (completed_steps s + 1) (record s)).

(** [context.data[...] = ...], three times, before a retry. *)
Definition enrich (error : option string) (current_step_name : string) (attempt : Z)
  : M RunState unit :=
  fun s =>
    (inr tt, mkRunState (retry_store error current_step_name attempt (run_store s))
               (completed_steps s) (record s)).

(** [for attempt in range(1, max_attempts + 1)], from [attempt] on
    with [n] iterations left; the value is [step_passed]. *)
Fixpoint attempt_loop (n : nat) (attempt : Z) (step_def : StepDefinition)
    (current_step_name : string) : M RunState bool :=
  match n with
  | O => ret false
  | S n' =>
      let* attempt_result := on_store (_execute_step_attempt step_def attempt) in
      let* _ := append_attempt attempt_result in
      let* _ := notify attempt_result in
      if StepStatus.eqb (StepAttempt.status attempt_result) StepStatus.PASSED then
        let* _ := count_passed in
        ret true
      else
        let* _ := (if attempt <? max_attempts (retry step_def)
                   then enrich (StepAttempt.error attempt_result) current_step_name attempt
                   else ret tt) in
        attempt_loop n' (attempt + 1) step_def current_step_name
  end.

(** The budget check at the head of each iteration of [run]. *)
Definition check_budget (completed : Z) (budgets0 : gmap string Z) : pyexn + unit :=
  if completed >=? default 20 (budgets0 !! "max_total_steps") then
    match budgets0 !! "max_total_steps" with
    | Some limit => inl (BudgetExhaustedError "max_total_steps" limit)
    | None => inl (KeyError "max_total_steps")
    end
  else inr tt.

Variable manifest : Manifest.t.

(** [while current_step_name and current_step_name != "__end__"].
    [None] stands for a walk that outlasts [fuel] iterations. *)
Fixpoint run_loop (fuel : nat) (current_step_name : option string) (s : RunState)
  : option ((pyexn + unit) * RunState) :=
  match current_step_name with
  | None => Some (inr tt, s)
  | Some cur =>
      if String.eqb cur EmptyString || String.eqb cur "__end__" then Some (inr tt, s)
      else
        match fuel with
        | O => None
        | S fuel' =>
            match dict_get (Manifest.steps manifest) cur with
            | None =>
                Some (inl (ValueError ("Step '" +:+ cur +:+ "' not found in manifest")), s)
            | Some step_def =>
                match check_budget (completed_steps s)
                        (budgets (context (run_store s))) with
                | inl e => Some (inl e, s)
                | inr _ =>
                    match attempt_loop (Z.to_nat (max_attempts (retry step_def))) 1
                            step_def cur s with
                    | (inl e, s') => Some (inl e, s')
                    | (inr step_passed, s') =>
                        run_loop fuel' (next_step (Manifest.edges manifest) cur step_passed) s'
                    end
                end
            end
        end
  end.

(** [items = context.data.get("extracted_items", [])] and
    [if items: self.item_repo.save_items(...)]. *)
Definition save_extracted (c : Context) : pyexn + unit :=
  let items := default (PList []) (data c !! "extracted_items") in
  if truthy items then save_items items else inr tt.

(** The tail of the [try] of [run], after the loop. *)
Definition finish (s : RunState) : (pyexn + unit) * RunState :=
  let s' := mkRunState (run_store s) (completed_steps s)
              (RunRecord.set_status RunStatus.COMPLETED (record s)) in
  let items := default (PList []) (data (context (run_store s)) !! "extracted_items") in
  if truthy items then (save_items items, s') else (inr tt, s').

(** Both [except] clauses of [run]. *)
Definition fail_run (e : pyexn) (s : RunState) : RunState :=
  mkRunState (run_store s) (completed_steps s)
    (RunRecord.set_error (Some (exn_str e))
       (RunRecord.set_status RunStatus.FAILED (record s))).

Definition initial_record (c : Context) : RunRecord.t :=
  RunRecord.mk (run_id c) (Manifest.name manifest) RunStatus.RUNNING [] None
    (default (PStr EmptyString) (data c !! "input_folder"))
    (default (PStr EmptyString) (data c !! "output_folder"))
    (default (PStr "gpt-4o") (config c !! "model")).

Definition initial_state (c : Context) : RunState :=
  mkRunState (mkStore c ∅ []) 0 (initial_record c).

(** From a state of the walk to the end of [run]. *)
Definition run_from (fuel : nat) (current_step_name : option string) (s : RunState)
  : option RunState :=
  match run_loop fuel current_step_name s with
  | None => None
  | Some (inl e, s') => Some (fail_run e s')
  | Some (inr _, s') =>
      match finish s' with
      | (inl e, s'') => Some (fail_run e s'')
      | (inr _, s'') => Some s''
      end
  end.

(** The two repository calls of [run] that precede its [try]:
    [create_run] on the head of the record and [update_run] with the
    number of steps of the manifest. *)
Definition before_try (c : Context) : pyexn + unit :=
  let record0 := initial_record c in
  match create_run (run_id c) (Manifest.name manifest) (RunRecord.input_folder record0)
          (RunRecord.output_folder record0) (RunRecord.model_name record0) with
  | inl e => inl e
  | inr _ =>
      update_run_total_steps (run_id c) (Z.of_nat (length (Manifest.steps manifest)))
  end.

(** [Orchestrator.run]: an exception of the calls before the [try]
    leaves [run]; otherwise the record is returned, with the state the
    run leaves behind. *)
Definition run (fuel : nat) (c : Context) : option (pyexn + RunState) :=
  match before_try c with
  | inl e => Some (inl e)
  | inr _ =>
      option_map inr (run_from fuel (Some (Manifest.entry_step manifest)) (initial_state c))
  end.

End Engine.

(** A name that keeps the [while] loop going. *)
Definition continues (cur : string) : Prop := cur <> EmptyString /\ cur <> "__end__".

(** The callback, when there is one, does not raise on [a]. *)
Definition quiet (on_step_update : option (StepAttempt.t -> option pyexn))
    (a : StepAttempt.t) : Prop :=
  match on_step_update with
  | Some callback => callback a = None
  | None => True
  end.

(** The [while] test fails on [next]: the walk ends there. *)
Definition ends (next : option string) : bool :=
  match next with
  | None => true
  | Some t => String.eqb t EmptyString || String.eqb t "__end__"
  end.

(** The walk is over at [next], or is over within [n] further steps
    when every step from [next] on fails: the edges failed steps take
    lead out of it. *)
Fixpoint failure_path (edges : list Edge) (n : nat) (next : option string) : bool :=
  ends next
  || match n, next with
     | S n', Some t => failure_path edges n' (next_step edges t false)
     | _, _ => false
     end.

(** From every step an edge leaves, failures lead out of the walk
    within as many steps as there are edges: the edges failed steps
    take form no cycle. *)
Definition failures_settle (edges : list Edge) : bool :=
  forallb (fun e => failure_path edges (length edges) (next_step edges (from_step e) false))
          edges.

(** The iterations of the loop of [run] that are enough when failures
    settle: each step that passes may be followed by a chain of failed
    ones. *)
Definition enough_fuel (edges : list Edge) (limit : Z) : nat :=
  (S (Z.to_nat limit) * (length edges + 2))%nat.


(** No registered agent touches [context.budgets]. *)
Definition keeps_budgets (registry : list (string * Agent)) : Prop :=
  forall agent ag c, dict_get registry agent = Some ag -> budgets (snd (ag c)) = budgets c.

(** [context.budgets.get("max_total_steps", 20)]. *)
Definition total_steps_limit (c : Context) : Z :=
  default 20 (budgets c !! "max_total_steps").

(** A computation leaves the observation [f] of the state alone. *)
Definition keeps {S A B} (f : S -> B) (m : M S A) : Prop :=
  forall s, f (snd (m s)) = f s.

(** The budgets a state of the attempt, or of the run, holds. *)
Definition att_budgets (a : Att) : gmap string Z := budgets (context (store a)).
Definition run_budgets (s : RunState) : gmap string Z := budgets (context (run_store s)).

(** ** tests/test_orchestrator.py: the mock agents and manifests *)

(** [Context.add_trace]; the timestamp it stamps is left out. *)
Definition add_trace (entry : list (string * pyval)) (c : Context) : Context :=
  mkContext (run_id c) (data c) (artifacts c) (trace c ++ [PDict entry])
    (budgets c) (config c).

Module Fixtures.

Definition mock_intake : Agent := fun c =>
  let c1 := set_data "loaded_files"
              (PList [PDict [("filename", PStr "test.txt");
                             ("content", PStr "Hello world");
                             ("size", PInt 11)]]) c in
  (inr tt, add_trace [("type", PStr "file_read"); ("agent", PStr "mock_intake");
                      ("file", PStr "test.txt")] c1).

Definition mock_write : Agent := fun c =>
  let c1 := set_data "written_files" (PList [PStr "/tmp/output/results.json"]) c in
  (inr tt, add_trace [("type", PStr "file_write"); ("agent", PStr "mock_write");
                      ("file", PStr "results.json")] c1).

(** Never produces valid output: the context is returned untouched. *)
Definition mock_failing : Agent := fun c => (inr tt, c).

Definition mock_error : Agent := fun c => (inl (OtherError "Agent crashed!"), c).

Definition registry : list (string * Agent) :=
  [ ("mock_intake", mock_intake); ("mock_write", mock_write);
    ("mock_failing", mock_failing); ("mock_error", mock_error) ].

Definition step (agent : string) (specs : list (string * pyval)) (attempts : Z) : pyval :=
  PDict [("agent", PStr agent); ("specs", PDict specs);
         ("retry", PDict [("max_attempts", PInt attempts)])].

Definition edge (f t c : string) : pyval :=
  PDict [("from", PStr f); ("to", PStr t); ("condition", PStr c)].

Definition HAPPY_PATH_MANIFEST : list (string * pyval) :=
  [ ("name", PStr "test_happy");
    ("entry_step", PStr "intake");
    ("steps", PDict
       [ ("intake", step "mock_intake"
            [("pre", PList [PStr "intake_pre"]); ("post", PList [PStr "intake_post"]);
             ("invariant", PList [PStr "global_invariant"])] 1);
         ("extract", step "mock_extract"
            [("pre", PList [PStr "extract_pre"]); ("post", PList [PStr "extract_post"])] 1);
         ("write", step "mock_write"
            [("pre", PList [PStr "write_pre"]); ("post", PList [PStr "write_post"])] 1) ]);
    ("edges", PList [ edge "intake" "extract" "on_pass";
                      edge "extract" "write" "on_pass" ]) ].

Definition FAILING_EXTRACT_MANIFEST : list (string * pyval) :=
  [ ("name", PStr "test_failing");
    ("entry_step", PStr "intake");
    ("steps", PDict
       [ ("intake", step "mock_intake"
            [("pre", PList [PStr "intake_pre"]); ("post", PList [PStr "intake_post"])] 1);
         ("extract", step "mock_failing"
            [("pre", PList [PStr "extract_pre"]); ("post", PList [PStr "extract_post"])] 2) ]);
    ("edges", PList [ edge "intake" "extract" "on_pass" ]) ].

Definition default_budgets : gmap string Z :=
  <["max_retries_per_step" := 3]> (<["max_total_steps" := 20]> ∅).

(** The context of [test_post_spec_failure_retries]; [run_id] is a
    fresh uuid in the source. *)
Definition test_context (budgets0 : gmap string Z) : Context :=
  mkContext "3f2b8c1e-5d47-4a9b-8e21-7c6d5a4b3f10"
    (<["input_folder" := PStr "/tmp/input"]> (<["output_folder" := PStr "/tmp/output"]> ∅))
    ∅ [] budgets0
    (<["api_key" := PStr "test-key"]> (<["model" := PStr "gpt-4o"]> ∅)).

Definition manifest_of (raw : list (string * pyval)) : Manifest.t :=
  match from_dict raw with
  | Loaded m => m
  | _ => Manifest.mk PNone PNone PNone EmptyString [] [] PNone PNone
  end.

End Fixtures.

(** ** Further manifests, for the properties below *)

Module Scenarios.

(** One step without specs whose on_pass edge names a step that does
    not exist. *)
Definition dangling (target : string) : list (string * pyval) :=
  [ ("name", PStr "dangling");
    ("entry_step", PStr "only");
    ("steps", PDict [ ("only", PDict [("agent", PStr "mock_failing")]) ]);
    ("edges", PList [ PDict [("from", PStr "only"); ("to", PStr target)] ]) ].

(** One step whose pre-spec fails, and an on_fail edge back to it. *)
Definition failure_cycle : list (string * pyval) :=
  [ ("name", PStr "failure_cycle");
    ("entry_step", PStr "again");
    ("steps", PDict
       [ ("again", PDict [("agent", PStr "mock_failing");
                          ("specs", PDict [("pre", PList [PStr "extract_pre"])]);
                          ("retry", PDict [("max_attempts", PInt 1)])]) ]);
    ("edges", PList [ PDict [("from", PStr "again"); ("to", PStr "again");
                             ("condition", PStr "on_fail")] ]) ].

(** One step that never passes its post-spec, tried three times. *)
Definition stuck : list (string * pyval) :=
  [ ("name", PStr "stuck");
    ("entry_step", PStr "extract");
    ("steps", PDict
       [ ("extract", PDict [("agent", PStr "mock_failing");
                            ("specs", PDict [("post", PList [PStr "extract_post"])]);
                            ("retry", PDict [("max_attempts", PInt 3)])]) ]);
    ("edges", PList []) ].

End Scenarios.

(** ** Predicates of the properties below *)

(** A computation is read-only when it hands back the state it got,
    whether it returns or raises. *)
Definition read_only {S A} (m : M S A) : Prop := forall s, snd (m s) = s.

(** The result a spec function hands back for a name. *)
Definition answers_for (c : Context) (n : string) (r : SpecResult) : Prop :=
  exists fn, dict_get _SPEC_REGISTRY n = Some fn /\ fst (fn c) = inr r.

(** *** The paths of an attempt *)

(** The specs of a stage let the attempt go on: there are none, or
    they all pass. *)
Definition stage_passes (names : list string) (c : Context) : Prop :=
  exists rs, fst (evaluate_specs names c) = inr rs /\ all_passed rs = true.

(** The attempt gets past its pre-specs and its agent, which leaves
    the context [c']. *)
Definition agent_ran (registry : list (string * Agent)) (sd : StepDefinition)
    (c c' : Context) : Prop :=
  stage_passes (pre_specs sd) c
  /\ exists ag, get_agent registry (agent_name sd) = inr ag
                /\ ag c = (inr tt, c')
                /\ save_traces (drop (length (trace c)) (trace c')) = inr tt.

(** ... and its post-specs then fail, with the results [rs]. *)
Definition post_fails (registry : list (string * Agent)) (sd : StepDefinition)
    (c c' : Context) (rs : list SpecResult) : Prop :=
  agent_ran registry sd c c'
  /\ fst (evaluate_specs (post_specs sd) c') = inr rs
  /\ all_passed rs = false.


(** The fingerprint of a post-spec failure. *)
Definition post_fingerprint (sd : StepDefinition) (c' : Context) (rs : list SpecResult)
  : string :=
  compute_fingerprint (name sd) (snapshot_data c') (map rule_id (failed_of rs)).

(** [seen_fingerprints.get(step, set())]. *)
Definition seen_for (step : string) (st : Store) : gset string :=
  default ∅ (seen_fingerprints st !! step).


(** The results an attempt has stored up to the agent. *)
Definition pre_results_of (sd : StepDefinition) (c : Context) : list SpecResult :=
  match fst (evaluate_specs (pre_specs sd) c) with
  | inr rs => rs
  | inl _ => []
  end.

(** The [StepAttempt] as it stands once the agent has run. *)
Definition after_agent (sd : StepDefinition) (attempt : Z) (c c' : Context)
  : StepAttempt.t :=
  StepAttempt.mk (name sd) (agent_name sd) attempt StepStatus.RUNNING
    (pre_results_of sd c) [] [] (snapshot_data c) (snapshot_data c') EmptyString None.

(** The store once the agent has run. *)
Definition store_after_agent (sd : StepDefinition) (st : Store) (c' : Context) : Store :=
  mkStore c' (seen_fingerprints st) (invoked st ++ [agent_name sd]).




(** The spec named [n] fails on [c]. *)
Definition fails (c : Context) (n : string) : bool :=
  match dict_get _SPEC_REGISTRY n with
  | Some fn => match fst (fn c) with inr r => negb (passed r) | inl _ => false end
  | None => false
  end.

(** *** The shape of a fingerprint *)

(** All the strings of [n] characters taken from [alphabet]. *)
Fixpoint strings_over (alphabet : list ascii) (n : nat) : list string :=
  match n with
  | O => [EmptyString]
  | S n' => flat_map (fun c => map (String c) (strings_over alphabet n')) alphabet
  end.

Definition hex_chars : list ascii :=
  [ "0"; "1"; "2"; "3"; "4"; "5"; "6"; "7"; "8"; "9"; "a"; "b"; "c"; "d"; "e"; "f" ]%char.

(** ** core/router.py, continued *)

(** The body of the loop of [Router.get_step_names]: [names.add]
    of the source of the edge, and of its target unless it is the
    terminal sentinel. *)
Definition add_step_names (names : gset string) (e : Edge) : gset string :=
  let names := {[from_step e]} ∪ names in
  if String.eqb (to_step e) "__end__" then names else {[to_step e]} ∪ names.

(** [Router.get_step_names]. *)
Definition get_step_names (edges : list Edge) : list string :=
  sorted (elements (fold_left add_step_names edges ∅)).

(** An edge names [x]: as its source, or as a target that is not the
    terminal sentinel. *)
Definition names_step (x : string) (e : Edge) : Prop :=
  from_step e = x \/ (to_step e = x /\ x <> "__end__").

(** *** Reading the canonical text back *)

(** The value of a hexadecimal digit. *)
Definition hex_value (c : ascii) : Z :=
  let n := code c in
  if (48 <=? n) && (n <=? 57) then n - 48 else n - 87.

(** The character that the escape sequence opened by a backslash and
    [e] stands for, among the short escapes. *)
Definition short_escape (e : ascii) : ascii :=
  let n := code e in
  if n =? 98 then ascii_of_nat 8
  else if n =? 102 then ascii_of_nat 12
  else if n =? 110 then ascii_of_nat 10
  else if n =? 114 then ascii_of_nat 13
  else if n =? 116 then ascii_of_nat 9
  else e.

(** The first character of the inside of a JSON string literal, and
    what follows it. *)
Definition json_unescape_char (s : string) : option (ascii * string) :=
  match s with
  | EmptyString => None
  | String c rest =>
      if code c =? 92 then
        match rest with
        | String e rest' =>
            if code e =? 117 then
              match rest' with
              | String h3 (String h2 (String h1 (String h0 rest''))) =>
                  Some (ascii_of_N
                          (Z.to_N (((hex_value h3 * 16 + hex_value h2) * 16 + hex_value h1) * 16
                                   + hex_value h0)),
                        rest'')
              | _ => None
              end
            else Some (short_escape e, rest')
        | EmptyString => None
        end
      else Some (c, rest)
  end.

(** The first character of a UTF-8 text of code points below 256,
    and the bytes that follow it. *)
Definition decode_first (bytes : list Z) : option (ascii * list Z) :=
  match bytes with
  | [] => None
  | b :: rest =>
      if b <? 128 then Some (ascii_of_N (Z.to_N b), rest)
      else
        match rest with
        | b' :: rest' => Some (ascii_of_N (Z.to_N ((b - 192) * 64 + (b' - 128))), rest')
        | [] => None
        end
  end.

(** ** core/specs.py: what the results say *)

(** An entry of [extracted_items] without a title: the key is
    missing, or its value is false ([not item.get("title")]). *)
Definition untitled (item : pyval) : bool :=
  match item with
  | PDict d => negb (truthy (default PNone (dict_get d "title")))
  | _ => false
  end.

(** A suggested fix comes with a failure, and only with one. *)
Definition fix_on_failure (r : SpecResult) : Prop :=
  passed r = false <-> suggested_fix r <> EmptyString.

(** [bool(context.data.get(k))]. *)
Definition holds (c : Context) (k : string) : bool :=
  truthy (default PNone (data c !! k)).

(** ** core/manifest.py: what a loaded manifest holds *)

(** A step as it sits in [Manifest.steps]: filed under its own name,
    with an agent. *)
Definition filed (entry : string * StepDefinition) : Prop :=
  name (snd entry) = fst entry /\ agent_name (snd entry) <> EmptyString.

(** The edge a raw edge mapping stands for: its "from", its "to" and
    its "condition", "on_pass" when there is none. *)
Definition stands_for (edge_data : pyval) (e : Edge) : Prop :=
  exists d, edge_data = PDict d
            /\ dict_get d "from" = Some (PStr (from_step e))
            /\ dict_get d "to" = Some (PStr (to_step e))
            /\ default (PStr "on_pass") (dict_get d "condition") = PStr (condition e).

(** The value under [k] of the mapping under [section] of a raw
    step, when both are there. *)
Definition step_setting (d : list (string * pyval)) (section k : string) : option pyval :=
  match dict_get d section with
  | Some (PDict inner) => dict_get inner k
  | _ => None
  end.

(** ** core/agents.py, continued *)

(** [register_agent(name)] applied to a class:
    [_AGENT_REGISTRY[name] = cls].  (The [name] attribute it also sets
    on the class is not part of an [Agent].) *)
Definition register_agent (agent : string) (cls : Agent) (registry : list (string * Agent))
  : list (string * Agent) :=
  dict_set registry agent cls.

(** [list_agents]. *)
Definition list_agents (registry : list (string * Agent)) : list string :=
  dict_keys registry.

(** ** core/orchestrator.py: what an attempt records *)

(** The [StepAttempt] of a step at the point where its agent is
    looked up: the pre-spec results [pre] are stored, the context is
    snapshotted, nothing else is set. *)
Definition before_agent (sd : StepDefinition) (attempt : Z) (c : Context)
    (pre : list SpecResult) : StepAttempt.t :=
  StepAttempt.mk (name sd) (agent_name sd) attempt StepStatus.RUNNING
    pre [] [] (snapshot_data c) ∅ EmptyString None.

(** The attempt an exception that is not fatal leaves: the record as
    it stands, marked Failed, with the text of the exception. *)
Definition failed_with (e : pyexn) (r : StepAttempt.t) : StepAttempt.t :=
  StepAttempt.set_error (Some (exn_str e)) (StepAttempt.set_status StepStatus.FAILED r).

(** What [_execute_step_attempt] does with an exception raised in
    its [try]: the two fatal errors go on to [run], any other one
    fails the attempt. *)
Definition caught (e : pyexn) (r : StepAttempt.t) (st : Store)
  : (pyexn + StepAttempt.t) * Store :=
  if is_fatal e then (inl e, st) else (inr (failed_with e r), st).

(** An attempt that says what happened: Passed, with no error, no
    fingerprint and only passing results, or Failed, with an error. *)
Definition sound (a : StepAttempt.t) : Prop :=
  (StepAttempt.status a = StepStatus.PASSED
   /\ StepAttempt.error a = None
   /\ StepAttempt.fingerprint a = EmptyString
   /\ all_passed (StepAttempt.pre_results a) = true
   /\ all_passed (StepAttempt.post_results a) = true
   /\ all_passed (StepAttempt.invariant_results a) = true)
  \/ (StepAttempt.status a = StepStatus.FAILED
      /\ exists msg, StepAttempt.error a = Some msg).

(** The attempt is the one asked for: it carries the step, the agent
    and the number it was started with, and the data it started on. *)
Definition belongs (sd : StepDefinition) (attempt : Z) (st : Store) (a : StepAttempt.t)
  : Prop :=
  StepAttempt.step_id a = name sd
  /\ StepAttempt.agent_id a = agent_name sd
  /\ StepAttempt.attempt a = attempt
  /\ StepAttempt.context_before a = data (context st).

(** [record.steps.append], for each attempt of [new] in turn. *)
Definition with_attempts (new : list StepAttempt.t) (r : RunRecord.t) : RunRecord.t :=
  fold_left (fun r a => RunRecord.append_step a r) new r.

(** The numbers [attempt], [attempt + 1], ... of [n] attempts in a
    row. *)
Definition numbered (attempt : Z) (n : nat) : list Z :=
  map (fun i => attempt + Z.of_nat i) (seq 0 n).

(** How a list of attempts of one visit to a step ends: with a
    passed attempt after failed ones when the step passes, with [n]
    failed attempts when it does not. *)
Definition visit_ends (n : nat) (r : pyexn + bool) (new : list StepAttempt.t) : Prop :=
  match r with
  | inr true =>
      exists init a, new = init ++ [a]
                     /\ StepAttempt.status a = StepStatus.PASSED
                     /\ Forall (fun a => StepAttempt.status a = StepStatus.FAILED) init
  | inr false =>
      length new = n /\ Forall (fun a => StepAttempt.status a = StepStatus.FAILED) new
  | inl _ => True
  end.

(** [a] is an attempt of a step of the manifest. *)
Definition from_manifest (manifest : Manifest.t) (a : StepAttempt.t) : Prop :=
  exists cur sd, dict_get (Manifest.steps manifest) cur = Some sd
                 /\ StepAttempt.step_id a = name sd
                 /\ StepAttempt.agent_id a = agent_name sd.

(** The number of Passed attempts among [l]. *)
Definition passed_attempts (l : list StepAttempt.t) : Z :=
  Z.of_nat (length (List.filter
                      (fun a => StepStatus.eqb (StepAttempt.status a) StepStatus.PASSED) l)).

(** ** core/specs.py: the keys the specs read *)

(** The keys of [context.data] a registered spec looks up. *)
Definition spec_keys : list string :=
  ["input_folder"; "loaded_files"; "extracted_items"; "output_folder"; "written_files"].

(** An agent that returns the context as it got it. *)
Definition leaves_context (ag : Agent) : Prop := forall c, ag c = (inr tt, c).

(** The step [sd] fails its post-specs on the context of [st], with
    the results [rs], after its pre-specs passed with [pre]. *)
Definition stuck_at (sd : StepDefinition) (pre rs : list SpecResult) (st : Store) : Prop :=
  fst (evaluate_specs (pre_specs sd) (context st)) = inr pre
  /\ all_passed pre = true
  /\ fst (evaluate_specs (post_specs sd) (context st)) = inr rs
  /\ all_passed rs = false.

(** * Properties *)

Lemma edge_matches_answers cur passed e :
  edge_matches cur (outcome_condition passed) e = true <-> answers cur passed e.
Proof.
  unfold edge_matches, answers.
  rewrite andb_true_iff, orb_true_iff, !String.eqb_eq. tauto.
Qed.

Lemma scan_step e rest cur c :
  scan (e :: rest) cur c
  = if edge_matches cur c e then Some (to_step e) else scan rest cur c.
Proof.
  unfold edge_matches. simpl.
  destruct (String.eqb (from_step e) cur); simpl; reflexivity.
Qed.

Lemma scan_none edges cur c :
  scan edges cur c = None <-> Forall (fun e => edge_matches cur c e = false) edges.
Proof.
  induction edges as [|e rest IH].
  - simpl. split; [constructor | reflexivity].
  - rewrite scan_step. destruct (edge_matches cur c e) eqn:He.
    + split; [discriminate | intros H; inversion H; congruence].
    + rewrite IH. split; [intros; constructor; assumption | intros H; inversion H; assumption].
Qed.

Lemma scan_some edges cur c t :
  scan edges cur c = Some t <->
  exists before e after,
    edges = before ++ e :: after
    /\ Forall (fun e' => edge_matches cur c e' = false) before
    /\ edge_matches cur c e = true /\ to_step e = t.
Proof.
  induction edges as [|e rest IH].
  - simpl. split; [discriminate|].
    intros (b & e & a & H & _). destruct b; discriminate.
  - rewrite scan_step. destruct (edge_matches cur c e) eqn:He.
    + split.
      * intros [= <-]. exists [], e, rest. repeat split; auto.
      * intros (b & e' & a & Heq & Hb & He' & Ht).
        destruct b as [|b0 b]; simpl in Heq; injection Heq as -> ->.
        -- congruence.
        -- inversion Hb; congruence.
    + rewrite IH. split.
      * intros (b & e' & a & -> & Hb & He' & Ht).
        exists (e :: b), e', a. repeat split; auto.
      * intros (b & e' & a & Heq & Hb & He' & Ht).
        destruct b as [|b0 b]; simpl in Heq; injection Heq as -> ->.
        -- congruence.
        -- exists b, e', a. inversion Hb; subst. repeat split; auto.
Qed.

(** C5.  [Router.next_step] returns the target of the first edge, in
    declaration order, that leaves the current step with the outcome's
    condition or with "always"; it returns [None] exactly when no edge
    answers; and an edge that comes after an answering edge is never the
    one returned, whatever its target. *)
Theorem next_step_first_match (edges : list Edge) (cur : string) (passed : bool) :
  (forall t, next_step edges cur passed = Some t <->
     exists before e after,
       edges = before ++ e :: after
       /\ Forall (fun e' => ~ answers cur passed e') before
       /\ answers cur passed e /\ to_step e = t)
  /\ (next_step edges cur passed = None <->
      Forall (fun e => ~ answers cur passed e) edges)
  /\ (forall before e1 mid e2 after,
        edges = before ++ e1 :: mid ++ e2 :: after ->
        Forall (fun e' => ~ answers cur passed e') before ->
        answers cur passed e1 ->
        next_step edges cur passed = Some (to_step e1)).
Proof.
  assert (Hneg : forall l,
    Forall (fun e => edge_matches cur (outcome_condition passed) e = false) l
    <-> Forall (fun e => ~ answers cur passed e) l).
  { intros l. apply Forall_iff. intros e.
    rewrite <- edge_matches_answers. destruct (edge_matches _ _ e); split; congruence. }
  unfold next_step. fold (outcome_condition passed).
  split; [|split].
  - intros t. rewrite scan_some. split.
    + intros (b & e & a & -> & Hb & He & Ht). exists b, e, a.
      rewrite <- Hneg, <- edge_matches_answers. auto.
    + intros (b & e & a & -> & Hb & He & Ht). exists b, e, a.
      rewrite Hneg, edge_matches_answers. auto.
  - rewrite scan_none. apply Hneg.
  - intros b e1 mid e2 a -> Hb He1. apply scan_some.
    exists b, e1, (mid ++ e2 :: a).
    rewrite Hneg, edge_matches_answers. auto.
Qed.

(** ** The loop fingerprint *)

Lemma data_keys_dom (m : gmap string pyval) (k : string) :
  k ∈ data_keys m <-> k ∈ dom m.
Proof.
  unfold data_keys. rewrite elem_of_dom, list_elem_of_fmap. split.
  - intros [[k' v] [-> H]]. apply elem_of_map_to_list in H. eauto.
  - intros [v H]. exists (k, v). split; [reflexivity|]. by apply elem_of_map_to_list.
Qed.

Lemma data_keys_perm (m1 m2 : gmap string pyval) :
  dom m1 = dom m2 -> data_keys m1 ≡ₚ data_keys m2.
Proof.
  intros Hdom. apply NoDup_Permutation.
  - apply NoDup_fst_map_to_list.
  - apply NoDup_fst_map_to_list.
  - intros k. rewrite !data_keys_dom, Hdom. reflexivity.
Qed.

Lemma sorted_perm (xs ys : list string) : xs ≡ₚ ys -> sorted xs = sorted ys.
Proof.
  intros H. unfold sorted. apply (Sorted_unique String.le).
  - apply Sorted_merge_sort; apply _.
  - apply Sorted_merge_sort; apply _.
  - rewrite !merge_sort_Permutation. exact H.
Qed.

(** C7 (as amended).  The fingerprint depends on the step name, on the
    key set of the working data and on the failing rule ids up to
    order: maps with the same keys and permuted id lists yield the
    same fingerprint. *)
Theorem compute_fingerprint_canonical
    (step_id : string) (d1 d2 : gmap string pyval) (r1 r2 : list string) :
  dom d1 = dom d2 -> r1 ≡ₚ r2 ->
  compute_fingerprint step_id d1 r1 = compute_fingerprint step_id d2 r2.
Proof.
  intros Hd Hr. unfold compute_fingerprint, canonical.
  rewrite (sorted_perm _ _ (data_keys_perm _ _ Hd)), (sorted_perm _ _ Hr).
  reflexivity.
Qed.

Lemma compute_fingerprint_canonical_witness :
  compute_fingerprint "extract"
    (<["input_folder" := PStr "/tmp/in"]> (<["loaded_files" := PList []]> ∅))
    ["extract_post"; "write_post"]
  = compute_fingerprint "extract"
    (<["loaded_files" := PInt 3]> (<["input_folder" := PNone]> ∅))
    ["write_post"; "extract_post"].
Proof.
  apply compute_fingerprint_canonical.
  - rewrite !dom_insert_L. set_solver.
  - apply perm_swap.
Defined.

(** C7 (counterexample).  A repeated rule id changes the fingerprint:
    the id lists ["a"] and ["a"; "a"] are equal as sets, the
    fingerprints differ. *)
Lemma compute_fingerprint_duplicate_ids :
  ~ (forall (step_id : string) (d1 d2 : gmap string pyval) (r1 r2 : list string),
       dom d1 = dom d2 -> (forall x, x ∈ r1 <-> x ∈ r2) ->
       compute_fingerprint step_id d1 r1 = compute_fingerprint step_id d2 r2).
Proof.
  assert (Hset : forall x : string, x ∈ ["a"] <-> x ∈ ["a"; "a"]).
  { intros x. rewrite !elem_of_cons. tauto. }
  assert (Hne : compute_fingerprint "s" ∅ ["a"] <> compute_fingerprint "s" ∅ ["a"; "a"]).
  { vm_compute. discriminate. }
  intros H. exact (Hne (H "s" ∅ ∅ ["a"] ["a"; "a"] eq_refl Hset)).
Qed.

(** ** Spec functions read, never write *)

Lemma read_only_ret {S A} (a : A) : read_only (@ret S A a).
Proof. intros s. reflexivity. Qed.

Lemma read_only_lift {S A} (r : pyexn + A) : read_only (@lift S A r).
Proof. intros s. reflexivity. Qed.

Lemma read_only_bind {S A B} (m : M S A) (k : A -> M S B) :
  read_only m -> (forall a, read_only (k a)) -> read_only (bind m k).
Proof.
  intros Hm Hk s. unfold bind. specialize (Hm s).
  destruct (m s) as [[e|a] s']; simpl in *; subst; [reflexivity | apply Hk].
Qed.

Lemma read_only_data_get k d : read_only (data_get k d).
Proof. intros s. reflexivity. Qed.

Lemma read_only_config_get k d : read_only (config_get k d).
Proof. intros s. reflexivity. Qed.

Lemma read_only_get_run_id : read_only get_run_id.
Proof. intros s. reflexivity. Qed.

Create HintDb read_only.
#[local] Hint Resolve read_only_ret read_only_lift read_only_data_get
  read_only_config_get read_only_get_run_id : read_only.

(** Walk a spec body: binds first, then the branches. *)
Ltac read_only_body :=
  repeat first
    [ apply read_only_bind; [solve [auto with read_only] | intros ?]
    | solve [auto with read_only]
    | match goal with
      | |- read_only (if ?b then _ else _) => destruct b
      | |- read_only (match ?v with _ => _ end) => destruct v
      end ].

Lemma registry_read_only :
  Forall (fun entry => read_only (snd entry)) _SPEC_REGISTRY.
Proof.
  unfold _SPEC_REGISTRY.
  repeat (apply List.Forall_cons; [simpl|]); [..|apply List.Forall_nil].
  - unfold intake_pre. read_only_body.
  - unfold intake_post. read_only_body.
  - unfold extract_pre. read_only_body.
  - unfold extract_post. read_only_body.
  - unfold write_pre. read_only_body.
  - unfold write_post. read_only_body.
  - unfold global_invariant. read_only_body.
  - unfold pipeline_progress. read_only_body.
Qed.

Lemma dict_get_In {A} (d : list (string * A)) k v :
  dict_get d k = Some v -> In (k, v) d.
Proof.
  induction d as [|[k' v'] d IH]; simpl; [discriminate|].
  destruct (String.eqb_spec k' k) as [->|Hne].
  - intros [= ->]. left. reflexivity.
  - intros H. right. apply IH, H.
Qed.

Lemma get_spec_read_only name0 fn : get_spec name0 = inr fn -> read_only fn.
Proof.
  unfold get_spec. destruct (dict_get _SPEC_REGISTRY name0) as [f|] eqn:E; [|discriminate].
  intros [= <-]. apply dict_get_In in E.
  pose proof registry_read_only as H. rewrite List.Forall_forall in H.
  exact (H _ E).
Qed.

Lemma evaluate_specs_read_only names : read_only (evaluate_specs names).
Proof.
  induction names as [|n rest IH]; simpl.
  - apply read_only_ret.
  - intros s. unfold bind at 1, lift.
    destruct (get_spec n) as [e|fn] eqn:E; [reflexivity|].
    revert s. apply read_only_bind; [exact (get_spec_read_only _ _ E)|].
    intros r. apply read_only_bind; [exact IH|]. intros rs. apply read_only_ret.
Qed.

(** ** Spec functions return on conventional data *)

Lemma missing_titles_dicts i items :
  forallb is_dict items = true -> exists l, missing_titles i items = inr l.
Proof.
  revert i. induction items as [|item rest IH]; intros i H; simpl in *.
  - eauto.
  - apply andb_true_iff in H as [Hd Hr].
    destruct item; try discriminate. simpl.
    destruct (IH (i + 1) Hr) as [l ->]. eauto.
Qed.

Ltac spec_cases :=
  unfold bind, data_get, config_get, get_run_id, lift, ret; simpl;
  repeat (case_match; simpl in *; subst; try discriminate; eauto); eauto.

Lemma intake_pre_returns c : exists r, fst (intake_pre c) = inr r.
Proof. unfold intake_pre. spec_cases. Qed.

Lemma intake_post_returns c : exists r, fst (intake_post c) = inr r.
Proof. unfold intake_post. spec_cases. Qed.

Lemma write_post_returns c : exists r, fst (write_post c) = inr r.
Proof. unfold write_post. spec_cases. Qed.

Lemma global_invariant_returns c : exists r, fst (global_invariant c) = inr r.
Proof. unfold global_invariant. spec_cases. Qed.

Lemma pipeline_progress_returns c : exists r, fst (pipeline_progress c) = inr r.
Proof. unfold pipeline_progress. spec_cases. Qed.

Lemma extract_pre_returns c :
  sized (default (PList []) (data c !! "loaded_files")) = true ->
  exists r, fst (extract_pre c) = inr r.
Proof.
  unfold extract_pre, bind, data_get, config_get, lift, ret. simpl.
  destruct (default (PList []) (data c !! "loaded_files")) eqn:E; simpl; intros H;
    repeat (case_match; simpl in *; subst; try discriminate; eauto); eauto.
Qed.

Lemma write_pre_returns c :
  sized (default (PList []) (data c !! "extracted_items")) = true ->
  exists r, fst (write_pre c) = inr r.
Proof.
  unfold write_pre, bind, data_get, lift, ret. simpl.
  destruct (default (PList []) (data c !! "extracted_items")) eqn:E; simpl; intros H;
    repeat (case_match; simpl in *; subst; try discriminate; eauto); eauto.
Qed.

Lemma extract_post_returns c :
  dict_entries (default (PList []) (data c !! "extracted_items")) = true ->
  exists r, fst (extract_post c) = inr r.
Proof.
  unfold extract_post, bind, data_get, lift, ret. cbn -[missing_titles forallb].
  destruct (default (PList []) (data c !! "extracted_items")) eqn:E;
    cbn -[missing_titles forallb]; intros H; eauto.
  destruct l as [|item rest]; cbn -[missing_titles forallb]; eauto.
  destruct (missing_titles_dicts 0 (item :: rest) H) as [l ->].
  destruct l; simpl; eauto.
Qed.

Lemma registered_returns c n fn :
  conventional c = true -> dict_get _SPEC_REGISTRY n = Some fn ->
  exists r, fst (fn c) = inr r.
Proof.
  unfold conventional. rewrite !andb_true_iff. intros [[Hf Hs] Hd].
  unfold _SPEC_REGISTRY. cbn [dict_get].
  repeat (destruct (String.eqb _ n); [intros [= <-];
    eauto using intake_pre_returns, intake_post_returns, extract_pre_returns,
      extract_post_returns, write_pre_returns, write_post_returns,
      global_invariant_returns, pipeline_progress_returns |]).
  intros; discriminate.
Qed.

Lemma evaluate_specs_results names c rs :
  fst (evaluate_specs names c) = inr rs -> Forall2 (answers_for c) names rs.
Proof.
  revert rs. induction names as [|n rest IH]; intros rs; simpl.
  - intros [= <-]. constructor.
  - unfold bind at 1, lift, get_spec.
    destruct (dict_get _SPEC_REGISTRY n) as [fn|] eqn:E; [|discriminate].
    unfold bind at 1.
    pose proof (get_spec_read_only n fn) as Hro. unfold get_spec in Hro.
    rewrite E in Hro. specialize (Hro eq_refl c).
    destruct (fn c) as [[e|r] c'] eqn:Efn; simpl in Hro; subst c'; [discriminate|].
    unfold bind at 1.
    destruct (evaluate_specs rest c) as [[e|rs'] c'] eqn:Erest; simpl; [discriminate|].
    intros [= <-]. constructor.
    + exists fn. rewrite Efn. auto.
    + apply IH. reflexivity.
Qed.





Lemma next_step_first_match_witness :
  let e1 := mkEdge "intake" "extract" "on_pass" in
  let e2 := mkEdge "intake" "write" "on_pass" in
  next_step [e1; e2] "intake" true = Some "extract".
Proof.
  intros e1 e2.
  apply (proj2 (proj2 (next_step_first_match [e1; e2] "intake" true)) [] e1 [] e2 []).
  - reflexivity.
  - constructor.
  - split; [reflexivity | left; reflexivity].
Defined.

(** The digest of the FIPS 180-4 sample message. *)
Example sha256_abc :
  Sha256.hexdigest (encode "abc")
  = "ba7816bf8f01cfea414140de5dae2223b00361a396177a9cb410ff61f20015ad".
Proof. vm_compute. reflexivity. Qed.

(** ** The attempt, stage by stage *)

Lemma evaluate_specs_eq names c :
  evaluate_specs names c = (fst (evaluate_specs names c), c).
Proof.
  rewrite <- (evaluate_specs_read_only names c) at 3. apply surjective_pairing.
Qed.

Lemma store_eta (st : Store) :
  mkStore (context st) (seen_fingerprints st) (invoked st) = st.
Proof. destruct st; reflexivity. Qed.

Lemma att_eta (a : Att) : mkAtt (store a) (result a) = a.
Proof. destruct a; reflexivity. Qed.

Lemma on_context_evaluate names a :
  on_context (evaluate_specs names) a
  = (fst (evaluate_specs names (context (store a))), a).
Proof.
  unfold on_context. rewrite evaluate_specs_eq, store_eta, att_eta. reflexivity.
Qed.

Lemma all_passed_false_nonempty rs : all_passed rs = false -> rs <> [].
Proof. intros H ->. discriminate. Qed.

Lemma evaluate_specs_nil_results names c rs :
  fst (evaluate_specs names c) = inr rs -> rs <> [] -> nonempty names = true.
Proof.
  destruct names; simpl; [|reflexivity]. intros [= <-] H. congruence.
Qed.

Section Stages.

Variable registry : list (string * Agent).

Lemma pre_stage_fails sd a rs :
  fst (evaluate_specs (pre_specs sd) (context (store a))) = inr rs ->
  all_passed rs = false ->
  pre_stage sd a
  = (inr false,
     mkAtt (store a)
       (StepAttempt.set_error
          (Some ("Pre-spec failed: " +:+ error_msg (failed_of rs)))
          (StepAttempt.set_status StepStatus.FAILED
             (StepAttempt.set_pre_results rs (result a))))).
Proof.
  intros Hrs Hfail. unfold pre_stage.
  rewrite (evaluate_specs_nil_results _ _ _ Hrs (all_passed_false_nonempty _ Hfail)).
  unfold bind at 1. rewrite on_context_evaluate, Hrs.
  unfold bind, update_result, ret. simpl. rewrite Hfail. reflexivity.
Qed.

Lemma pre_stage_passes sd a rs :
  fst (evaluate_specs (pre_specs sd) (context (store a))) = inr rs ->
  all_passed rs = true ->
  pre_stage sd a
  = (inr true,
     if nonempty (pre_specs sd)
     then mkAtt (store a) (StepAttempt.set_pre_results rs (result a)) else a).
Proof.
  intros Hrs Hpass. unfold pre_stage.
  destruct (nonempty (pre_specs sd)); [|reflexivity].
  unfold bind at 1. rewrite on_context_evaluate, Hrs.
  unfold bind, update_result, ret. simpl. rewrite Hpass. reflexivity.
Qed.

(** The record a failed pre-stage leaves. *)
Lemma execute_pre_failure sd attempt st rs :
  fst (evaluate_specs (pre_specs sd) (context st)) = inr rs ->
  all_passed rs = false ->
  _execute_step_attempt registry sd attempt st
  = (inr (StepAttempt.mk (name sd) (agent_name sd) attempt StepStatus.FAILED
            rs [] [] (data (context st)) ∅ EmptyString
            (Some ("Pre-spec failed: " +:+ error_msg (failed_of rs)))),
     st).
Proof.
  intros Hrs Hfail.
  unfold _execute_step_attempt, attempt_body.
  unfold bind at 1, get_context. cbn [store context].
  unfold bind at 1, update_result at 1. cbn [store result].
  unfold bind at 1.
  rewrite (pre_stage_fails sd (mkAtt st _) rs Hrs Hfail). cbn [negb store result ret].
  reflexivity.
Qed.

(** C6.  When the pre-specs of a step are evaluated and at least one
    fails, the attempt returns one [StepAttempt]: its status is Failed,
    its error is "Pre-spec failed: " followed by the "; "-joined
    "rule_id: message" of exactly the failing results, its
    [context_after] is empty, and the store is left as it was: the
    context is untouched and no agent has been invoked. *)
Theorem pre_spec_failure_skips_agent
    (sd : StepDefinition) (attempt : Z) (st : Store) (rs : list SpecResult) :
  fst (evaluate_specs (pre_specs sd) (context st)) = inr rs ->
  all_passed rs = false ->
  exists r,
    _execute_step_attempt registry sd attempt st = (inr r, st)
    /\ StepAttempt.status r = StepStatus.FAILED
    /\ StepAttempt.error r
       = Some ("Pre-spec failed: "
               +:+ join "; " (map (fun x => rule_id x +:+ ": " +:+ message x)
                                  (List.filter (fun x => negb (passed x)) rs)))
    /\ StepAttempt.context_after r = ∅
    /\ StepAttempt.context_before r = data (context st)
    /\ StepAttempt.pre_results r = rs
    /\ StepAttempt.post_results r = []
    /\ StepAttempt.invariant_results r = []
    /\ StepAttempt.fingerprint r = EmptyString
    /\ StepAttempt.step_id r = name sd
    /\ StepAttempt.attempt r = attempt.
Proof.
  intros Hrs Hfail. eexists. split.
  - exact (execute_pre_failure sd attempt st rs Hrs Hfail).
  - repeat split; reflexivity.
Qed.

End Stages.

Lemma pre_spec_failure_skips_agent_witness :
  let sd := mkStepDefinition "extract" "mock_intake" ["extract_pre"] [] [] (mkRetryPolicy 1) in
  let st := mkStore (Fixtures.test_context Fixtures.default_budgets) ∅ [] in
  exists r,
    _execute_step_attempt Fixtures.registry sd 1 st = (inr r, st)
    /\ StepAttempt.status r = StepStatus.FAILED
    /\ StepAttempt.error r = Some "Pre-spec failed: extract_pre: No loaded_files in context".
Proof.
  intros sd st.
  destruct (pre_spec_failure_skips_agent Fixtures.registry sd 1 st
              [mkSpecResult "extract_pre" false "No loaded_files in context"
                 "Run the intake step first to load files" ["pre"; "extract"]])
    as (r & Hrun & Hstatus & Herr & _).
  - vm_compute. reflexivity.
  - reflexivity.
  - exists r. repeat split; assumption.
Defined.

(** ** The walk over the graph *)

(** [run] returns the record of [run_from] when the two calls before
    its [try] return, and raises what they raise. *)
Lemma run_returns_iff registry on_step_update manifest fuel c final :
  run registry on_step_update manifest fuel c = Some (inr final)
  <-> before_try manifest c = inr tt
      /\ run_from registry on_step_update manifest fuel
           (Some (Manifest.entry_step manifest)) (initial_state manifest c) = Some final.
Proof.
  unfold run. destruct (before_try manifest c) as [e|[]].
  - split; [discriminate | intros [? _]; discriminate].
  - destruct (run_from _ _ _ _ _ _) as [final'|]; cbn [option_map].
    + split; [intros [= ->]; split; reflexivity | intros [_ [= ->]]; reflexivity].
    + split; [discriminate | intros [_ ?]; discriminate].
Qed.

Lemma run_raises registry on_step_update manifest fuel c e :
  run registry on_step_update manifest fuel c = Some (inl e) <-> before_try manifest c = inl e.
Proof.
  unfold run. destruct (before_try manifest c) as [e'|[]].
  - split; [intros [= ->] | intros [= ->]]; reflexivity.
  - destruct (run_from _ _ _ _ _ _); cbn [option_map]; split; discriminate.
Qed.

(** The tail of the [try]: the record is marked Completed, and the
    items are saved. *)
Lemma finish_eq s :
  finish s
  = (save_extracted (context (run_store s)),
     mkRunState (run_store s) (completed_steps s)
       (RunRecord.set_status RunStatus.COMPLETED (record s))).
Proof. unfold finish, save_extracted. cbv zeta. destruct (truthy _); reflexivity. Qed.

(** A walk that ends normally on [s'] returns the record of [s']:
    Completed when the items are saved (or there are none), Failed
    with the text of the exception when saving them raises. *)
Lemma run_from_ends registry on_step_update manifest fuel cur s s' :
  run_loop registry on_step_update manifest fuel cur s = Some (inr tt, s') ->
  exists final,
    run_from registry on_step_update manifest fuel cur s = Some final
    /\ RunRecord.steps (record final) = RunRecord.steps (record s')
    /\ run_store final = run_store s'
    /\ completed_steps final = completed_steps s'
    /\ match save_extracted (context (run_store s')) with
       | inr _ =>
           RunRecord.status (record final) = RunStatus.COMPLETED
           /\ RunRecord.error (record final) = RunRecord.error (record s')
       | inl e =>
           RunRecord.status (record final) = RunStatus.FAILED
           /\ RunRecord.error (record final) = Some (exn_str e)
       end.
Proof.
  intros Hloop. unfold run_from. rewrite Hloop, finish_eq.
  destruct (save_extracted (context (run_store s'))) as [e|u];
    eexists; (split; [reflexivity|]); repeat split.
Qed.

Section Walk.

Variable registry : list (string * Agent).
Variable on_step_update : option (StepAttempt.t -> option pyexn).
Variable manifest : Manifest.t.

Lemma continues_eqb cur :
  continues cur -> String.eqb cur EmptyString || String.eqb cur "__end__" = false.
Proof.
  intros [H1 H2]. apply orb_false_iff. split; apply String.eqb_neq; assumption.
Qed.

Lemma run_loop_missing fuel cur s :
  continues cur -> dict_get (Manifest.steps manifest) cur = None ->
  run_loop registry on_step_update manifest (S fuel) (Some cur) s
  = Some (inl (ValueError ("Step '" +:+ cur +:+ "' not found in manifest")), s).
Proof.
  intros Hc Hnone. cbn [run_loop]. rewrite (continues_eqb _ Hc), Hnone. reflexivity.
Qed.

Lemma run_loop_step fuel cur sd s passed s' :
  continues cur -> dict_get (Manifest.steps manifest) cur = Some sd ->
  check_budget (completed_steps s) (budgets (context (run_store s))) = inr tt ->
  attempt_loop registry on_step_update (Z.to_nat (max_attempts (retry sd))) 1 sd cur s = (inr passed, s') ->
  run_loop registry on_step_update manifest (S fuel) (Some cur) s
  = run_loop registry on_step_update manifest fuel (next_step (Manifest.edges manifest) cur passed) s'.
Proof.
  intros Hc Hsd Hb Hat. cbn [run_loop].
  rewrite (continues_eqb _ Hc), Hsd, Hb, Hat. reflexivity.
Qed.

Lemma run_loop_budget fuel cur sd s e :
  continues cur -> dict_get (Manifest.steps manifest) cur = Some sd ->
  check_budget (completed_steps s) (budgets (context (run_store s))) = inl e ->
  run_loop registry on_step_update manifest (S fuel) (Some cur) s = Some (inl e, s).
Proof.
  intros Hc Hsd Hb. cbn [run_loop].
  rewrite (continues_eqb _ Hc), Hsd, Hb. reflexivity.
Qed.

Lemma run_loop_raise fuel cur sd s e s' :
  continues cur -> dict_get (Manifest.steps manifest) cur = Some sd ->
  check_budget (completed_steps s) (budgets (context (run_store s))) = inr tt ->
  attempt_loop registry on_step_update (Z.to_nat (max_attempts (retry sd))) 1 sd cur s = (inl e, s') ->
  run_loop registry on_step_update manifest (S fuel) (Some cur) s = Some (inl e, s').
Proof.
  intros Hc Hsd Hb Hat. cbn [run_loop].
  rewrite (continues_eqb _ Hc), Hsd, Hb, Hat. reflexivity.
Qed.

Lemma run_loop_none fuel s : run_loop registry on_step_update manifest fuel None s = Some (inr tt, s).
Proof. destruct fuel; reflexivity. Qed.

(** C10 (as amended).  When the walk has run a step and the Router
    answers with a non-empty name, other than "__end__", that is not a
    key of the manifest's steps, the run ends Failed and its error
    names the missing step; nothing more is attempted.  When the Router
    finds no edge at all, or an edge whose target is the empty string
    (or "__end__"), the walk ends normally, without any lookup: the
    record is marked Completed and the items are saved; it comes back
    Completed, or Failed with the text of the exception when saving
    the items raises. *)
Theorem dangling_target_fails_run
    (fuel : nat) (cur : string) (sd : StepDefinition) (s s' : RunState)
    (passed : bool) (target : string) :
  continues cur -> dict_get (Manifest.steps manifest) cur = Some sd ->
  check_budget (completed_steps s) (budgets (context (run_store s))) = inr tt ->
  attempt_loop registry on_step_update (Z.to_nat (max_attempts (retry sd))) 1 sd cur s = (inr passed, s') ->
  (next_step (Manifest.edges manifest) cur passed = Some target ->
   continues target -> dict_get (Manifest.steps manifest) target = None ->
   exists final,
     run_from registry on_step_update manifest (S (S fuel)) (Some cur) s = Some final
     /\ RunRecord.status (record final) = RunStatus.FAILED
     /\ RunRecord.error (record final)
        = Some ("Step '" +:+ target +:+ "' not found in manifest")
     /\ RunRecord.steps (record final) = RunRecord.steps (record s')
     /\ run_store final = run_store s')
  /\ (next_step (Manifest.edges manifest) cur passed = None
      \/ next_step (Manifest.edges manifest) cur passed = Some EmptyString
      \/ next_step (Manifest.edges manifest) cur passed = Some "__end__" ->
      exists final,
        run_from registry on_step_update manifest (S fuel) (Some cur) s = Some final
        /\ RunRecord.steps (record final) = RunRecord.steps (record s')
        /\ run_store final = run_store s'
        /\ match save_extracted (context (run_store s')) with
           | inr _ =>
               RunRecord.status (record final) = RunStatus.COMPLETED
               /\ RunRecord.error (record final) = RunRecord.error (record s')
           | inl e =>
               RunRecord.status (record final) = RunStatus.FAILED
               /\ RunRecord.error (record final) = Some (exn_str e)
           end).
Proof.
  intros Hc Hsd Hb Hat. split.
  - intros Hnext Hct Hnone. eexists. split.
    + unfold run_from.
      rewrite (run_loop_step _ _ _ _ _ _ Hc Hsd Hb Hat), Hnext.
      rewrite (run_loop_missing _ _ _ Hct Hnone). reflexivity.
    + repeat split; reflexivity.
  - intros Hnext.
    destruct (run_from_ends registry on_step_update manifest (S fuel) (Some cur) s s')
      as (final & Hrun & Hsteps & Hstore & _ & Hend).
    + rewrite (run_loop_step _ _ _ _ _ _ Hc Hsd Hb Hat).
      destruct Hnext as [-> | [-> | ->]]; [apply run_loop_none | |];
        destruct fuel; reflexivity.
    + exists final. repeat split; assumption.
Qed.

End Walk.

Lemma dangling_target_fails_run_witness :
  let m := Fixtures.manifest_of (Scenarios.dangling "ghost") in
  let c := Fixtures.test_context Fixtures.default_budgets in
  exists final,
    run Fixtures.registry None m 2 c = Some (inr final)
    /\ RunRecord.status (record final) = RunStatus.FAILED
    /\ RunRecord.error (record final) = Some "Step 'ghost' not found in manifest".
Proof.
  intros m c.
  set (sd := mkStepDefinition "only" "mock_failing" [] [] [] (mkRetryPolicy 2)).
  destruct (dangling_target_fails_run Fixtures.registry None m 0 "only" sd
              (initial_state m c)
              (snd (attempt_loop Fixtures.registry None 2 1 sd "only" (initial_state m c)))
              true "ghost") as [H _].
  - split; discriminate.
  - reflexivity.
  - reflexivity.
  - vm_compute. reflexivity.
  - destruct H as (final & Hrun & Hst & Herr & _).
    + reflexivity.
    + split; discriminate.
    + reflexivity.
    + exists final. split; [|split; assumption].
      apply run_returns_iff. split; [reflexivity | exact Hrun].
Defined.

(** C10 (counterexample).  An edge whose target is the empty string
    names no step of the manifest and is not "__end__", yet the run
    ends Completed: the [while] loop stops on an empty name. *)
Lemma empty_target_completes_run :
  let m := Fixtures.manifest_of (Scenarios.dangling EmptyString) in
  let c := Fixtures.test_context Fixtures.default_budgets in
  next_step (Manifest.edges m) "only" true = Some EmptyString
  /\ dict_get (Manifest.steps m) EmptyString = None
  /\ EmptyString <> "__end__"
  /\ exists final,
       run Fixtures.registry None m 2 c = Some (inr final)
       /\ RunRecord.status (record final) = RunStatus.COMPLETED
       /\ RunRecord.error (record final) = None.
Proof.
  intros m c. split; [reflexivity|]. split; [reflexivity|]. split; [discriminate|].
  eexists. split; [vm_compute; reflexivity|]. split; reflexivity.
Qed.

(** ** The retry loop *)

Section Retry.

Variable registry : list (string * Agent).
Variable on_step_update : option (StepAttempt.t -> option pyexn).

Lemma notify_quiet a s : quiet on_step_update a -> notify on_step_update a s = (inr tt, s).
Proof.
  unfold quiet, notify. destruct on_step_update as [cb|]; [intros ->|]; reflexivity.
Qed.

Lemma attempt_loop_passed n attempt sd cur s a st' :
  _execute_step_attempt registry sd attempt (run_store s) = (inr a, st') ->
  StepAttempt.status a = StepStatus.PASSED ->
  quiet on_step_update a ->
  attempt_loop registry on_step_update (S n) attempt sd cur s
  = (inr true,
     mkRunState st' (completed_steps s + 1) (RunRecord.append_step a (record s))).
Proof.
  intros Hex Hst Hq. cbn [attempt_loop].
  unfold bind at 1, on_store. rewrite Hex.
  unfold bind at 1, append_attempt. cbn [run_store completed_steps record].
  unfold bind at 1. rewrite (notify_quiet _ _ Hq), Hst. reflexivity.
Qed.

Lemma attempt_loop_retry n attempt sd cur s a st' :
  _execute_step_attempt registry sd attempt (run_store s) = (inr a, st') ->
  StepAttempt.status a = StepStatus.FAILED ->
  quiet on_step_update a ->
  attempt < max_attempts (retry sd) ->
  attempt_loop registry on_step_update (S n) attempt sd cur s
  = attempt_loop registry on_step_update n (attempt + 1) sd cur
      (mkRunState (retry_store (StepAttempt.error a) cur attempt st')
         (completed_steps s) (RunRecord.append_step a (record s))).
Proof.
  intros Hex Hst Hq Hlt. cbn [attempt_loop].
  unfold bind at 1, on_store. rewrite Hex.
  unfold bind at 1, append_attempt. cbn [run_store completed_steps record].
  unfold bind at 1. rewrite (notify_quiet _ _ Hq), Hst. cbn [StepStatus.eqb].
  unfold bind at 1. apply Z.ltb_lt in Hlt. rewrite Hlt. reflexivity.
Qed.

Lemma attempt_loop_last n attempt sd cur s a st' :
  _execute_step_attempt registry sd attempt (run_store s) = (inr a, st') ->
  StepAttempt.status a = StepStatus.FAILED ->
  quiet on_step_update a ->
  max_attempts (retry sd) <= attempt ->
  attempt_loop registry on_step_update (S n) attempt sd cur s
  = attempt_loop registry on_step_update n (attempt + 1) sd cur
      (mkRunState st' (completed_steps s) (RunRecord.append_step a (record s))).
Proof.
  intros Hex Hst Hq Hge. cbn [attempt_loop].
  unfold bind at 1, on_store. rewrite Hex.
  unfold bind at 1, append_attempt. cbn [run_store completed_steps record].
  unfold bind at 1. rewrite (notify_quiet _ _ Hq), Hst. cbn [StepStatus.eqb].
  unfold bind at 1. apply Z.ltb_ge in Hge. rewrite Hge. reflexivity.
Qed.

Lemma attempt_loop_raised n attempt sd cur s e st' :
  _execute_step_attempt registry sd attempt (run_store s) = (inl e, st') ->
  attempt_loop registry on_step_update (S n) attempt sd cur s
  = (inl e, mkRunState st' (completed_steps s) (record s)).
Proof.
  intros Hex. cbn [attempt_loop]. unfold bind at 1, on_store. rewrite Hex. reflexivity.
Qed.

End Retry.

(** ** The total-steps budget *)

Lemma check_budget_spec completed (budgets0 : gmap string Z) limit :
  budgets0 !! "max_total_steps" = Some limit ->
  (check_budget completed budgets0 = inl (BudgetExhaustedError "max_total_steps" limit)
   <-> limit <= completed)
  /\ (check_budget completed budgets0 = inr tt <-> completed < limit).
Proof.
  intros H. unfold check_budget. rewrite H.
  change (default 20 (Some limit)) with limit.
  destruct (completed >=? limit) eqn:E; rewrite Z.geb_leb in E.
  - apply Z.leb_le in E. split; split; intros; try lia; try discriminate; reflexivity.
  - apply Z.leb_gt in E. split; split; intros; try lia; try discriminate; reflexivity.
Qed.

(** C4.  The budget check raises [BudgetExhaustedError] for
    "max_total_steps" exactly when the count of passed steps has
    reached the limit held in the run's budgets; a step that is up
    when the limit is reached is not executed and the run ends Failed
    with the budget message.  In particular, with a limit of 1, once
    the entry step has passed on its first attempt and the Router
    names a second step, the run holds that one passed attempt, never
    runs the second step and ends Failed with
    "Budget 'max_total_steps' exhausted (limit: 1)": this is the record
    the [try] statement of [run] ends with, and the one [run] returns
    once the calls before the [try] have returned. *)
Theorem total_steps_budget
    (registry : list (string * Agent))
    (on_step_update : option (StepAttempt.t -> option pyexn))
    (manifest : Manifest.t) :
  (forall completed (budgets0 : gmap string Z) limit,
     budgets0 !! "max_total_steps" = Some limit ->
     (check_budget completed budgets0 = inl (BudgetExhaustedError "max_total_steps" limit)
      <-> limit <= completed)
     /\ (check_budget completed budgets0 = inr tt <-> completed < limit))
  /\ (forall fuel cur sd s limit,
        continues cur -> dict_get (Manifest.steps manifest) cur = Some sd ->
        budgets (context (run_store s)) !! "max_total_steps" = Some limit ->
        limit <= completed_steps s ->
        exists final,
          run_from registry on_step_update manifest (S fuel) (Some cur) s = Some final
          /\ RunRecord.status (record final) = RunStatus.FAILED
          /\ RunRecord.error (record final)
             = Some (exn_str (BudgetExhaustedError "max_total_steps" limit))
          /\ RunRecord.steps (record final) = RunRecord.steps (record s)
          /\ run_store final = run_store s)
  /\ (forall fuel c sd1 a1 st1 target sd2,
        continues (Manifest.entry_step manifest) ->
        dict_get (Manifest.steps manifest) (Manifest.entry_step manifest) = Some sd1 ->
        0 < max_attempts (retry sd1) ->
        budgets c !! "max_total_steps" = Some 1 ->
        _execute_step_attempt registry sd1 1 (mkStore c ∅ []) = (inr a1, st1) ->
        StepAttempt.status a1 = StepStatus.PASSED ->
        quiet on_step_update a1 ->
        budgets (context st1) !! "max_total_steps" = Some 1 ->
        next_step (Manifest.edges manifest) (Manifest.entry_step manifest) true
        = Some target ->
        continues target -> dict_get (Manifest.steps manifest) target = Some sd2 ->
        exists final,
          run_from registry on_step_update manifest (S (S fuel))
            (Some (Manifest.entry_step manifest)) (initial_state manifest c) = Some final
          /\ (before_try manifest c = inr tt ->
              run registry on_step_update manifest (S (S fuel)) c = Some (inr final))
          /\ RunRecord.status (record final) = RunStatus.FAILED
          /\ RunRecord.error (record final)
             = Some "Budget 'max_total_steps' exhausted (limit: 1)"
          /\ RunRecord.steps (record final) = [a1]
          /\ run_store final = st1).
Proof.
  split; [exact check_budget_spec|]. split.
  - intros fuel cur sd s limit Hc Hsd Hb Hle.
    apply (check_budget_spec (completed_steps s)) in Hb as [[_ Hb] _].
    eexists. split.
    + unfold run_from. rewrite (run_loop_budget _ _ _ _ _ _ _ _ Hc Hsd (Hb Hle)).
      reflexivity.
    + repeat split; reflexivity.
  - intros fuel c sd1 a1 st1 target sd2 Hc Hsd Hpos Hb Hex Hst Hq Hb1 Hnext Hct Hsd2.
    assert (Hn : exists n, Z.to_nat (max_attempts (retry sd1)) = S n).
    { exists (Nat.pred (Z.to_nat (max_attempts (retry sd1)))). lia. }
    destruct Hn as [n Hn].
    pose proof (attempt_loop_passed registry on_step_update n 1 sd1
                  (Manifest.entry_step manifest) (initial_state manifest c) a1 st1
                  Hex Hst Hq) as Hloop.
    rewrite <- Hn in Hloop.
    apply (check_budget_spec 0) in Hb as [_ [_ Hb]].
    apply (check_budget_spec 1) in Hb1 as [[_ Hb1] _].
    assert (Hfrom :
      run_from registry on_step_update manifest (S (S fuel))
        (Some (Manifest.entry_step manifest)) (initial_state manifest c)
      = Some (fail_run (BudgetExhaustedError "max_total_steps" 1)
                (mkRunState st1 (0 + 1)
                   (RunRecord.append_step a1 (initial_record manifest c))))).
    { unfold run_from.
      rewrite (run_loop_step registry on_step_update manifest _ _ sd1
                 (initial_state manifest c) _ _ Hc Hsd (Hb Z.lt_0_1) Hloop), Hnext.
      rewrite (run_loop_budget registry on_step_update manifest _ _ sd2
                 (mkRunState st1 (0 + 1)
                    (RunRecord.append_step a1 (initial_record manifest c)))
                 _ Hct Hsd2 (Hb1 (Z.le_refl 1))).
      reflexivity. }
    eexists. split; [exact Hfrom|]. split.
    + intros Hopen. apply run_returns_iff. split; [exact Hopen | exact Hfrom].
    + split; [reflexivity|]. split; [|split; reflexivity].
      cbn [record fail_run RunRecord.error RunRecord.set_error].
      vm_compute. reflexivity.
Qed.

Lemma total_steps_budget_witness :
  let m := Fixtures.manifest_of Fixtures.HAPPY_PATH_MANIFEST in
  let c := Fixtures.test_context (<["max_total_steps" := 1]> Fixtures.default_budgets) in
  exists final,
    run Fixtures.registry None m 2 c = Some (inr final)
    /\ RunRecord.status (record final) = RunStatus.FAILED
    /\ RunRecord.error (record final) = Some "Budget 'max_total_steps' exhausted (limit: 1)"
    /\ map StepAttempt.step_id (RunRecord.steps (record final)) = ["intake"]
    /\ map StepAttempt.status (RunRecord.steps (record final)) = [StepStatus.PASSED]
    /\ invoked (run_store final) = ["mock_intake"].
Proof.
  intros m c.
  set (sd1 := mkStepDefinition "intake" "mock_intake" ["intake_pre"] ["intake_post"]
                ["global_invariant"] (mkRetryPolicy 1)).
  set (sd2 := mkStepDefinition "extract" "mock_extract" ["extract_pre"] ["extract_post"]
                [] (mkRetryPolicy 1)).
  set (out := _execute_step_attempt Fixtures.registry sd1 1 (mkStore c ∅ [])).
  destruct (proj2 (proj2 (total_steps_budget Fixtures.registry None m))
              0%nat c sd1 (match fst out with inr a => a | inl _ =>
                             StepAttempt.mk EmptyString EmptyString 0 StepStatus.PENDING
                               [] [] [] ∅ ∅ EmptyString None end)
              (snd out) "extract" sd2)
    as (final & _ & Hrun & Hst & Herr & Hsteps & Hstore).
  - split; discriminate.
  - reflexivity.
  - reflexivity.
  - reflexivity.
  - vm_compute. reflexivity.
  - vm_compute. reflexivity.
  - exact I.
  - vm_compute. reflexivity.
  - reflexivity.
  - split; discriminate.
  - reflexivity.
  - exists final. rewrite Hsteps, Hstore. split; [exact (Hrun eq_refl)|].
    repeat split; try assumption; vm_compute; reflexivity.
Defined.

(** ** Retry exhaustion *)

(** C1 (as amended).  A step with [max_attempts = 2] whose two
    attempts both come back Failed (the callback, if there is one,
    returning on both), and which no on_fail or always edge leaves,
    adds exactly these two attempts to the record and ends the walk
    normally: nothing further is attempted and the run is marked
    Completed, not Failed; exhausting the retries fails no run.  The
    record returned is Completed, unless saving the extracted items
    then raises, which makes it Failed with the text of that
    exception.  The second attempt starts from the store of the first
    with the retry keys written into the data. *)
Theorem retry_exhaustion_completes
    (registry : list (string * Agent))
    (on_step_update : option (StepAttempt.t -> option pyexn))
    (manifest : Manifest.t)
    (fuel : nat) (cur : string) (sd : StepDefinition) (s : RunState)
    (a1 a2 : StepAttempt.t) (st1 st2 : Store) :
  continues cur ->
  dict_get (Manifest.steps manifest) cur = Some sd ->
  max_attempts (retry sd) = 2 ->
  check_budget (completed_steps s) (budgets (context (run_store s))) = inr tt ->
  _execute_step_attempt registry sd 1 (run_store s) = (inr a1, st1) ->
  StepAttempt.status a1 = StepStatus.FAILED ->
  quiet on_step_update a1 ->
  _execute_step_attempt registry sd 2 (retry_store (StepAttempt.error a1) cur 1 st1)
  = (inr a2, st2) ->
  StepAttempt.status a2 = StepStatus.FAILED ->
  quiet on_step_update a2 ->
  next_step (Manifest.edges manifest) cur false = None ->
  exists final,
    run_from registry on_step_update manifest (S fuel) (Some cur) s = Some final
    /\ RunRecord.steps (record final) = RunRecord.steps (record s) ++ [a1; a2]
    /\ run_store final = st2
    /\ completed_steps final = completed_steps s
    /\ match save_extracted (context st2) with
       | inr _ =>
           RunRecord.status (record final) = RunStatus.COMPLETED
           /\ RunRecord.error (record final) = RunRecord.error (record s)
       | inl e =>
           RunRecord.status (record final) = RunStatus.FAILED
           /\ RunRecord.error (record final) = Some (exn_str e)
       end.
Proof.
  intros Hc Hsd Hmax Hb Hex1 Hst1 Hq1 Hex2 Hst2 Hq2 Hnext.
  assert (Hloop :
    attempt_loop registry on_step_update (Z.to_nat (max_attempts (retry sd))) 1 sd cur s
    = (inr false,
       mkRunState st2 (completed_steps s)
         (RunRecord.append_step a2 (RunRecord.append_step a1 (record s))))).
  { rewrite Hmax. change (Z.to_nat 2) with 2%nat.
    rewrite (attempt_loop_retry _ _ _ _ _ _ _ _ _ Hex1 Hst1 Hq1); [|lia].
    rewrite (attempt_loop_last registry on_step_update _ _ _ _
               (mkRunState _ _ _) _ _ Hex2 Hst2 Hq2); [|lia].
    reflexivity. }
  destruct (run_from_ends registry on_step_update manifest (S fuel) (Some cur) s
              (mkRunState st2 (completed_steps s)
                 (RunRecord.append_step a2 (RunRecord.append_step a1 (record s)))))
    as (final & Hrun & Hsteps & Hstore & Hcount & Hend).
  { rewrite (run_loop_step _ _ _ _ _ _ _ _ _ Hc Hsd Hb Hloop), Hnext. apply run_loop_none. }
  exists final. split; [exact Hrun|]. split; [|split; [exact Hstore|split; [exact Hcount|]]].
  - rewrite Hsteps.
    cbn [record RunRecord.steps RunRecord.append_step].
    rewrite <- app_assoc. reflexivity.
  - exact Hend.
Qed.

Lemma retry_exhaustion_completes_witness :
  let m := Fixtures.manifest_of Fixtures.FAILING_EXTRACT_MANIFEST in
  let c := Fixtures.test_context Fixtures.default_budgets in
  exists final,
    run Fixtures.registry None m 2 c = Some (inr final)
    /\ RunRecord.status (record final) = RunStatus.COMPLETED
    /\ map StepAttempt.step_id (RunRecord.steps (record final))
       = ["intake"; "extract"; "extract"]
    /\ map StepAttempt.status (RunRecord.steps (record final))
       = [StepStatus.PASSED; StepStatus.FAILED; StepStatus.FAILED].
Proof.
  intros m c.
  set (intake := mkStepDefinition "intake" "mock_intake" ["intake_pre"] ["intake_post"] []
                   (mkRetryPolicy 1)).
  set (sd := mkStepDefinition "extract" "mock_failing" ["extract_pre"] ["extract_post"] []
               (mkRetryPolicy 2)).
  set (s := snd (attempt_loop Fixtures.registry None 1 1 intake "intake" (initial_state m c))).
  set (blank := StepAttempt.mk EmptyString EmptyString 0 StepStatus.PENDING
                  [] [] [] ∅ ∅ EmptyString None).
  set (out1 := _execute_step_attempt Fixtures.registry sd 1 (run_store s)).
  set (a1 := match fst out1 with inr a => a | inl _ => blank end).
  set (out2 := _execute_step_attempt Fixtures.registry sd 2
                 (retry_store (StepAttempt.error a1) "extract" 1 (snd out1))).
  set (a2 := match fst out2 with inr a => a | inl _ => blank end).
  destruct (retry_exhaustion_completes Fixtures.registry None m 0 "extract" sd s
              a1 a2 (snd out1) (snd out2))
    as (final & Hrun & Hsteps & _ & _ & Hend).
  - split; discriminate.
  - reflexivity.
  - reflexivity.
  - vm_compute. reflexivity.
  - vm_compute. reflexivity.
  - vm_compute. reflexivity.
  - exact I.
  - vm_compute. reflexivity.
  - vm_compute. reflexivity.
  - exact I.
  - reflexivity.
  - assert (Hsave : save_extracted (context (snd out2)) = inr tt) by (vm_compute; reflexivity).
    rewrite Hsave in Hend. destruct Hend as [Hst _].
    exists final. split; [|split; [exact Hst|]].
    + apply run_returns_iff. split; [reflexivity|].
      unfold run_from. change (Manifest.entry_step m) with "intake".
      rewrite (run_loop_step Fixtures.registry None m 1 "intake" intake
                 (initial_state m c) true s).
      * exact Hrun.
      * split; discriminate.
      * reflexivity.
      * vm_compute. reflexivity.
      * vm_compute. reflexivity.
    + rewrite Hsteps. split; vm_compute; reflexivity.
Defined.

(** C1 (counterexample).  The run of [test_post_spec_failure_retries]:
    "extract" has [max_attempts = 2], its agent never sets the items
    its post-spec asks for, and no edge leaves it.  The record holds
    one passed "intake" attempt and two failed "extract" attempts, and
    the final status is Completed, not Failed. *)
Lemma retry_exhaustion_is_not_failed :
  let m := Fixtures.manifest_of Fixtures.FAILING_EXTRACT_MANIFEST in
  let c := Fixtures.test_context Fixtures.default_budgets in
  option_map (fun sd => max_attempts (retry sd)) (dict_get (Manifest.steps m) "extract")
  = Some 2
  /\ get_all_edges_from (Manifest.edges m) "extract" = []
  /\ exists final,
       run Fixtures.registry None m 2 c = Some (inr final)
       /\ map (fun a => (StepAttempt.step_id a, StepAttempt.status a,
                         all_passed (StepAttempt.post_results a)))
              (RunRecord.steps (record final))
          = [ ("intake", StepStatus.PASSED, true);
              ("extract", StepStatus.FAILED, false);
              ("extract", StepStatus.FAILED, false) ]
       /\ RunRecord.status (record final) = RunStatus.COMPLETED
       /\ RunRecord.status (record final) <> RunStatus.FAILED.
Proof.
  intros m c. split; [reflexivity|]. split; [reflexivity|].
  eexists. split; [vm_compute; reflexivity|].
  split; [vm_compute; reflexivity|]. split; [reflexivity | discriminate].
Qed.

(** ** The run returns *)

Lemma keeps_ret {S A B} (f : S -> B) (a : A) : keeps f (ret a).
Proof. intros s. reflexivity. Qed.

Lemma keeps_lift {S A B} (f : S -> B) (r : pyexn + A) : keeps f (lift r).
Proof. intros s. reflexivity. Qed.

Lemma keeps_raise {S A B} (f : S -> B) (e : pyexn) : keeps f (@raise S A e).
Proof. intros s. reflexivity. Qed.

Lemma keeps_bind {S A A' B} (f : S -> B) (m : M S A) (k : A -> M S A') :
  keeps f m -> (forall a, keeps f (k a)) -> keeps f (bind m k).
Proof.
  intros Hm Hk s. unfold bind. specialize (Hm s).
  destruct (m s) as [[e|a] s']; simpl in *; [exact Hm|].
  rewrite Hk. exact Hm.
Qed.

Section Budgets.

Variable registry : list (string * Agent).
Variable on_step_update : option (StepAttempt.t -> option pyexn).
Hypothesis agents_keep : keeps_budgets registry.

Lemma keeps_update_result g : keeps att_budgets (update_result g).
Proof. intros a. reflexivity. Qed.

Lemma keeps_get_context : keeps att_budgets get_context.
Proof. intros a. reflexivity. Qed.

Lemma keeps_on_context_evaluate names : keeps att_budgets (on_context (evaluate_specs names)).
Proof. intros a. rewrite on_context_evaluate. reflexivity. Qed.

Lemma keeps_check_fingerprint step fp : keeps att_budgets (check_fingerprint step fp).
Proof. intros a. unfold check_fingerprint. case_decide; reflexivity. Qed.

Lemma keeps_execute_agent agent ag :
  dict_get registry agent = Some ag -> keeps att_budgets (execute_agent agent ag).
Proof.
  intros H a. unfold execute_agent, att_budgets.
  pose proof (agents_keep agent ag (context (store a)) H) as Hk.
  destruct (ag (context (store a))) as [r c]. exact Hk.
Qed.

Ltac keeps_body :=
  repeat first
    [ apply keeps_bind; [| intros ?]
    | apply keeps_ret | apply keeps_lift | apply keeps_update_result
    | apply keeps_get_context | apply keeps_on_context_evaluate
    | apply keeps_check_fingerprint
    | match goal with
      | |- keeps _ (if ?b then _ else _) => destruct b
      end ].

Lemma keeps_pre_stage sd : keeps att_budgets (pre_stage sd).
Proof. unfold pre_stage. keeps_body. Qed.

Lemma keeps_post_stage sd : keeps att_budgets (post_stage sd).
Proof. unfold post_stage. keeps_body. Qed.

Lemma keeps_invariant_stage sd : keeps att_budgets (invariant_stage sd).
Proof. unfold invariant_stage. keeps_body. Qed.

Lemma keeps_agent_stage sd : keeps att_budgets (agent_stage registry sd).
Proof.
  unfold agent_stage. intros a. unfold bind at 1, lift, get_agent.
  destruct (dict_get registry (agent_name sd)) as [ag|] eqn:E; [|reflexivity].
  revert a. keeps_body. exact (keeps_execute_agent _ _ E).
Qed.

Lemma keeps_attempt_body sd : keeps att_budgets (attempt_body registry sd).
Proof.
  unfold attempt_body.
  repeat first
    [ apply keeps_pre_stage | apply keeps_post_stage | apply keeps_invariant_stage
    | apply keeps_agent_stage
    | apply keeps_ret | apply keeps_update_result | apply keeps_get_context
    | apply keeps_bind; [| intros ?]
    | match goal with
      | |- keeps _ (if ?b then _ else _) => destruct b
      end ].
Qed.

Lemma keeps_execute_step_attempt sd attempt :
  keeps (fun st => budgets (context st)) (_execute_step_attempt registry sd attempt).
Proof.
  intros st. unfold _execute_step_attempt.
  pose proof (keeps_attempt_body sd (mkAtt st
    (StepAttempt.mk (name sd) (agent_name sd) attempt StepStatus.RUNNING
       [] [] [] ∅ ∅ EmptyString None))) as Hk.
  destruct (attempt_body registry sd _) as [[e|u] a]; simpl in *.
  - destruct (is_fatal e); exact Hk.
  - exact Hk.
Qed.

Lemma keeps_on_store sd attempt :
  keeps run_budgets (on_store (_execute_step_attempt registry sd attempt)).
Proof.
  intros s. unfold on_store, run_budgets.
  pose proof (keeps_execute_step_attempt sd attempt (run_store s)) as Hk.
  destruct (_execute_step_attempt registry sd attempt (run_store s)) as [r st]. exact Hk.
Qed.

Lemma keeps_notify a : keeps run_budgets (notify on_step_update a).
Proof.
  unfold notify. destruct on_step_update as [cb|]; [|apply keeps_ret].
  destruct (cb a); [apply keeps_raise | apply keeps_ret].
Qed.

Lemma keeps_attempt_loop n attempt sd cur :
  keeps run_budgets (attempt_loop registry on_step_update n attempt sd cur).
Proof.
  revert attempt. induction n as [|n IH]; intros attempt; cbn [attempt_loop].
  - apply keeps_ret.
  - apply keeps_bind; [apply keeps_on_store | intros a].
    apply keeps_bind; [intros s; reflexivity | intros _].
    apply keeps_bind; [apply keeps_notify | intros _].
    destruct (StepStatus.eqb _ _).
    + apply keeps_bind; [intros s; reflexivity | intros _]. apply keeps_ret.
    + apply keeps_bind; [|intros _; apply IH].
      destruct (attempt <? _); [intros s; reflexivity | apply keeps_ret].
Qed.

(** The counter of passed steps moves by one exactly when the step
    passes. *)
Lemma attempt_loop_counts n attempt sd cur s :
  match attempt_loop registry on_step_update n attempt sd cur s with
  | (inr true, s') => completed_steps s' = completed_steps s + 1
  | (inr false, s') => completed_steps s' = completed_steps s
  | (inl _, _) => True
  end.
Proof.
  revert attempt s. induction n as [|n IH]; intros attempt s; cbn [attempt_loop].
  - reflexivity.
  - unfold bind at 1, on_store.
    destruct (_execute_step_attempt registry sd attempt (run_store s)) as [[e|a] st];
      [exact I|].
    unfold bind at 1, append_attempt. cbn [run_store completed_steps record].
    unfold bind at 1, notify.
    destruct on_step_update as [cb|].
    + destruct (cb a); [exact I|]. cbn [ret].
      destruct (StepStatus.eqb _ _); [reflexivity|].
      unfold bind at 1.
      destruct (attempt <? _); cbn [enrich ret];
        match goal with |- context [attempt_loop _ _ n ?x sd cur ?y] =>
          specialize (IH x y); destruct (attempt_loop _ _ n x sd cur y) as [[?|[]] ?];
          simpl in *; auto end.
    + cbn [ret].
      destruct (StepStatus.eqb _ _); [reflexivity|].
      unfold bind at 1.
      destruct (attempt <? _); cbn [enrich ret];
        match goal with |- context [attempt_loop _ _ n ?x sd cur ?y] =>
          specialize (IH x y); destruct (attempt_loop _ _ n x sd cur y) as [[?|[]] ?];
          simpl in *; auto end.
Qed.

Variable manifest : Manifest.t.
Hypothesis settle : failures_settle (Manifest.edges manifest) = true.

Lemma run_loop_ends fuel next s :
  ends next = true -> run_loop registry on_step_update manifest fuel next s = Some (inr tt, s).
Proof.
  destruct next as [t|]; [|intros _; apply run_loop_none].
  simpl. intros H. destruct fuel; simpl; rewrite H; reflexivity.
Qed.

Lemma failure_path_ends edges n next : ends next = true -> failure_path edges n next = true.
Proof. intros H. destruct n; cbn [failure_path]; rewrite H; reflexivity. Qed.

(** Whatever step is up, its failure leads out of the walk. *)
Lemma failures_settle_from cur :
  failure_path (Manifest.edges manifest) (length (Manifest.edges manifest))
    (next_step (Manifest.edges manifest) cur false) = true.
Proof.
  destruct (next_step (Manifest.edges manifest) cur false) as [t|] eqn:Enext;
    [|apply failure_path_ends; reflexivity].
  rewrite <- Enext. unfold next_step in Enext. cbv zeta in Enext.
  apply scan_some in Enext as (b & e & a & Hedges & _ & Hm & _).
  unfold edge_matches in Hm. apply andb_true_iff in Hm as [Hfrom _].
  apply String.eqb_eq in Hfrom. subst cur.
  pose proof settle as Hs. unfold failures_settle in Hs. rewrite forallb_forall in Hs.
  apply Hs. rewrite Hedges. apply in_or_app. right. left. reflexivity.
Qed.

(** After any step, a run of failures is over within one step more. *)
Lemma failures_settle_next next :
  failure_path (Manifest.edges manifest) (S (length (Manifest.edges manifest))) next = true.
Proof.
  destruct next as [t|]; [|reflexivity].
  cbn [failure_path]. rewrite failures_settle_from. apply orb_true_r.
Qed.

Lemma run_loop_terminates fuel d next s :
  failure_path (Manifest.edges manifest) d next = true ->
  (Z.to_nat (total_steps_limit (context (run_store s)) - completed_steps s)
   * (length (Manifest.edges manifest) + 2) + d + 1 <= fuel)%nat ->
  exists r, run_loop registry on_step_update manifest fuel next s = Some r.
Proof.
  revert d next s. induction fuel as [|fuel IH]; intros d next s Hpath Hfuel; [nia|].
  destruct next as [cur|]; [|eauto using run_loop_none].
  cbn [run_loop].
  destruct (String.eqb cur EmptyString || String.eqb cur "__end__") eqn:Eend; [eauto|].
  destruct (dict_get (Manifest.steps manifest) cur) as [sd|]; [|eauto].
  unfold check_budget. fold (total_steps_limit (context (run_store s))).
  destruct (completed_steps s >=? total_steps_limit (context (run_store s))) eqn:Eb.
  { destruct (budgets (context (run_store s)) !! "max_total_steps"); eauto. }
  rewrite Z.geb_leb in Eb. apply Z.leb_gt in Eb.
  pose proof (attempt_loop_counts (Z.to_nat (max_attempts (retry sd))) 1 sd cur s) as Hcount.
  pose proof (keeps_attempt_loop (Z.to_nat (max_attempts (retry sd))) 1 sd cur s) as Hkeep.
  destruct (attempt_loop registry on_step_update _ 1 sd cur s) as [[e|[]] s'];
    cbn [snd] in Hkeep; [eauto| |].
  - apply (IH (S (length (Manifest.edges manifest)))); [apply failures_settle_next|].
    unfold total_steps_limit, run_budgets in *. rewrite Hkeep, Hcount.
    set (L := default 20 (budgets (context (run_store s)) !! "max_total_steps")) in *.
    assert (HR : Z.to_nat (L - completed_steps s)
                 = S (Z.to_nat (L - (completed_steps s + 1)))) by lia.
    rewrite HR in Hfuel. nia.
  - destruct d as [|d']; cbn [failure_path ends] in Hpath; rewrite Eend in Hpath;
      [discriminate|].
    apply (IH d'); [exact Hpath|].
    unfold total_steps_limit, run_budgets in *. rewrite Hkeep, Hcount. nia.
Qed.

End Budgets.

Lemma run_from_terminal registry on_step_update manifest fuel cur s final :
  run_from registry on_step_update manifest fuel cur s = Some final ->
  (RunRecord.status (record final) = RunStatus.COMPLETED
   \/ RunRecord.status (record final) = RunStatus.FAILED)
  /\ (RunRecord.status (record final) = RunStatus.FAILED ->
      exists msg, RunRecord.error (record final) = Some msg).
Proof.
  unfold run_from.
  destruct (run_loop registry on_step_update manifest fuel cur s) as [[[e|u] s']|];
    [| |discriminate].
  - intros [= <-]. split; [right; reflexivity|]. intros _. eexists. reflexivity.
  - rewrite finish_eq.
    destruct (save_extracted _) as [e|u'].
    + intros [= <-]. split; [right; reflexivity|]. intros _. eexists. reflexivity.
    + intros [= <-]. split; [left; reflexivity|]. discriminate.
Qed.

Lemma fixtures_keep_budgets : keeps_budgets Fixtures.registry.
Proof.
  intros agent ag c. unfold Fixtures.registry. cbn [dict_get].
  repeat (destruct (String.eqb _ agent); [intros [= <-]; reflexivity|]).
  discriminate.
Qed.

Lemma failure_cycle_loops fuel rec :
  let m := Fixtures.manifest_of Scenarios.failure_cycle in
  let c := Fixtures.test_context Fixtures.default_budgets in
  run_loop Fixtures.registry None m fuel (Some "again") (mkRunState (mkStore c ∅ []) 0 rec)
  = None.
Proof.
  intros m c. revert rec. induction fuel as [|fuel IH]; intros rec; [reflexivity|].
  set (sd := mkStepDefinition "again" "mock_failing" ["extract_pre"] [] [] (mkRetryPolicy 1)).
  set (rs := [mkSpecResult "extract_pre" false "No loaded_files in context"
                "Run the intake step first to load files" ["pre"; "extract"]]).
  assert (Hex := execute_pre_failure Fixtures.registry sd 1 (mkStore c ∅ []) rs).
  assert (Hrs : fst (evaluate_specs (pre_specs sd) (context (mkStore c ∅ []))) = inr rs)
    by (vm_compute; reflexivity).
  specialize (Hex Hrs eq_refl).
  match type of Hex with _ = (inr ?a, _) => set (att := a) in * end.
  rewrite (run_loop_step Fixtures.registry None m fuel "again" sd _ false
             (mkRunState (mkStore c ∅ []) 0 (RunRecord.append_step att rec))).
  - change (next_step (Manifest.edges m) "again" false) with (Some "again"). apply IH.
  - split; discriminate.
  - reflexivity.
  - vm_compute. reflexivity.
  - change (Z.to_nat (max_attempts (retry sd))) with 1%nat.
    rewrite (attempt_loop_last Fixtures.registry None 0 1 sd "again"
               (mkRunState (mkStore c ∅ []) 0 rec) att _ Hex eq_refl I).
    + reflexivity.
    + cbn. lia.
Qed.

(** C2 (the failing input).  A step whose pre-spec fails and whose
    on_fail edge leads back to itself: the budget counts passed steps
    only and a pre-spec failure takes no fingerprint, so no step
    passes, nothing is raised and the loop of [run] goes round for
    ever.  However many iterations are allowed, [run] has neither
    returned a record nor raised. *)
Lemma failure_cycle_never_returns :
  let m := Fixtures.manifest_of Scenarios.failure_cycle in
  let c := Fixtures.test_context Fixtures.default_budgets in
  ~ (exists fuel outcome, run Fixtures.registry None m fuel c = Some outcome).
Proof.
  intros m c (fuel & outcome & Hrun). revert Hrun. unfold run.
  change (before_try m c) with (@inr pyexn unit tt). unfold run_from.
  change (Manifest.entry_step m) with "again".
  unfold initial_state. rewrite (failure_cycle_loops fuel). discriminate.
Qed.

(** C2 (a second failing input).  [create_run] is called before the
    [try]: with a list for "input_folder" the fourth parameter of its
    statement does not bind, and the exception leaves [run]; no record
    is returned. *)
Lemma list_valued_input_folder_leaves_run :
  let m := Fixtures.manifest_of Fixtures.HAPPY_PATH_MANIFEST in
  let c := set_data "input_folder" (PList [PStr "/tmp/a"; PStr "/tmp/b"])
             (Fixtures.test_context Fixtures.default_budgets) in
  forall fuel,
    run Fixtures.registry None m fuel c
    = Some (inl (OtherError "Error binding parameter 4: type 'list' is not supported")).
Proof. intros m c fuel. apply run_raises. vm_compute. reflexivity. Qed.

(** ** Loading a manifest *)

Lemma parse_step_shaped step_name step_data :
  step_shaped (step_name, step_data) = true ->
  match parse_step step_name step_data with
  | inl (ManifestError _) =>
      not_a_mapping (step_name, step_data) || lacks_agent (step_name, step_data) = true
  | inl _ => False
  | inr _ => not_a_mapping (step_name, step_data) || lacks_agent (step_name, step_data) = false
  end.
Proof.
  unfold step_shaped, not_a_mapping, lacks_agent, parse_step, dict_or_absent. cbn [snd].
  destruct step_data; try reflexivity.
  cbn [is_dict negb orb].
  intros H. apply andb_true_iff in H as [Hs Hr].
  destruct (truthy (default PNone (dict_get d "agent"))); [|reflexivity].
  cbn [negb].
  destruct (dict_get d "specs") as [specs|]; cbn [default];
    destruct (dict_get d "retry") as [retry_data|]; cbn [default];
    try (destruct specs; try discriminate Hs);
    try (destruct retry_data; try discriminate Hr);
    cbn [py_get_default]; reflexivity.
Qed.

Lemma dict_set_keys {A} (d : list (string * A)) k v x :
  existsb (String.eqb x) (dict_keys (dict_set d k v))
  = existsb (String.eqb x) (dict_keys d) || String.eqb x k.
Proof.
  induction d as [|[k' v'] d IH]; cbn [dict_set dict_keys map existsb fst].
  - rewrite orb_false_r. reflexivity.
  - destruct (String.eqb_spec k' k) as [->|Hne]; cbn [dict_keys map existsb fst].
    + destruct (String.eqb x k); [reflexivity|]. cbn [orb]. rewrite orb_false_r. reflexivity.
    + fold (dict_keys (dict_set d k v)). rewrite IH. fold (dict_keys d).
      rewrite orb_assoc. reflexivity.
Qed.

Lemma parse_steps_shaped items acc :
  forallb step_shaped items = true ->
  match parse_steps items acc with
  | inl (ManifestError _) =>
      existsb not_a_mapping items || existsb lacks_agent items = true
  | inl _ => False
  | inr steps =>
      existsb not_a_mapping items || existsb lacks_agent items = false
      /\ forall x, existsb (String.eqb x) (dict_keys steps)
                   = existsb (String.eqb x) (dict_keys acc)
                     || existsb (String.eqb x) (dict_keys items)
  end.
Proof.
  revert acc. induction items as [|[n d] rest IH]; intros acc Hshape.
  - cbn. split; [reflexivity|]. intros x. rewrite orb_false_r. reflexivity.
  - cbn [forallb] in Hshape. apply andb_true_iff in Hshape as [Hd Hrest].
    cbn [parse_steps existsb].
    pose proof (parse_step_shaped n d Hd) as Hstep.
    destruct (parse_step n d) as [e|sd].
    + destruct e; try contradiction.
      destruct (not_a_mapping (n, d)), (lacks_agent (n, d)); try discriminate;
        cbn [orb]; rewrite ?orb_true_r; reflexivity.
    + apply orb_false_iff in Hstep as [-> ->]. cbn [orb].
      specialize (IH (dict_set acc n sd) Hrest).
      destruct (parse_steps rest (dict_set acc n sd)) as [e|steps].
      * destruct e; try contradiction. exact IH.
      * destruct IH as [IH1 IH2]. split; [exact IH1|].
        intros x. rewrite IH2, dict_set_keys.
        cbn [dict_keys map existsb fst]. rewrite orb_assoc. reflexivity.
Qed.

Lemma parse_edge_shaped e :
  edge_shaped e = true ->
  match parse_edge e with
  | inl (ManifestError _) => is_dict e = false
  | inl _ => False
  | inr _ => is_dict e = true
  end.
Proof.
  unfold edge_shaped, parse_edge. destruct e; try reflexivity.
  intros H. apply andb_true_iff in H as [Hf Ht].
  apply bool_decide_eq_true in Hf as [f Hf]. apply bool_decide_eq_true in Ht as [t Ht].
  unfold dict_item. rewrite Hf, Ht. reflexivity.
Qed.

Lemma parse_edges_shaped es :
  forallb edge_shaped es = true ->
  match parse_edges es with
  | inl (ManifestError _) => existsb (fun e => negb (is_dict e)) es = true
  | inl _ => False
  | inr _ => existsb (fun e => negb (is_dict e)) es = false
  end.
Proof.
  induction es as [|e rest IH]; intros Hshape; [reflexivity|].
  cbn [forallb] in Hshape. apply andb_true_iff in Hshape as [He Hrest].
  cbn [parse_edges existsb].
  pose proof (parse_edge_shaped e He) as Hedge.
  destruct (parse_edge e) as [x|ed].
  - destruct x; try contradiction. rewrite Hedge. reflexivity.
  - rewrite Hedge. cbn [negb orb]. specialize (IH Hrest).
    destruct (parse_edges rest) as [x|eds]; [|exact IH].
    destruct x; try contradiction. exact IH.
Qed.

Lemma is_manifest_error_grounds raw :
  shaped raw = true -> is_manifest_error (_parse raw) = grounds raw.
Proof.
  unfold shaped, grounds, _parse, no_name, no_entry_step, no_steps, entry_absent,
    raw_steps, raw_edges.
  destruct (truthy (default PNone (dict_get raw "name"))); cbn [negb orb];
    [|reflexivity].
  destruct (truthy (default PNone (dict_get raw "entry_step"))) eqn:Eentry; cbn [negb orb];
    [|reflexivity].
  destruct (truthy (default (PDict []) (dict_get raw "steps"))) eqn:Esteps; cbn [negb orb];
    [|reflexivity].
  destruct (default (PDict []) (dict_get raw "steps")) as [| | | | |items];
    try (rewrite Esteps; discriminate).
  intros H. apply andb_true_iff in H as [H Hedges].
  apply andb_true_iff in H as [H Hiter]. apply andb_true_iff in H as [Hitems Hentry].
  pose proof (parse_steps_shaped items [] Hitems) as Hsteps.
  destruct (parse_steps items []) as [e|steps].
  { destruct e; try contradiction. cbn [is_manifest_error].
    apply orb_true_iff in Hsteps as [-> | ->]; cbn [orb]; rewrite ?orb_true_r; reflexivity. }
  destruct Hsteps as [Hnone Hkeys]. apply orb_false_iff in Hnone as [-> ->]. cbn [orb].
  unfold entry_missing.
  assert (Hiter' : exists l, py_iter (default (PList []) (dict_get raw "edges")) = inr l).
  { destruct (default (PList []) (dict_get raw "edges")); try discriminate; cbn; eauto. }
  destruct Hiter' as [l Hl]. rewrite Hl in *.
  pose proof (parse_edges_shaped l Hedges) as Hes.
  destruct (default PNone (dict_get raw "entry_step")) as [| | |x| |];
    try discriminate; cbn [is_manifest_error orb]; try reflexivity.
  rewrite Hkeys. cbn [dict_keys map existsb orb].
  destruct (existsb (String.eqb x) (dict_keys items)); cbn [negb orb]; [|reflexivity].
  destruct (parse_edges l) as [e|edges].
  - destruct e; try contradiction. rewrite Hes. reflexivity.
  - rewrite Hes.
    destruct (all_some_steps steps), (all_some edges); reflexivity.
Qed.

Lemma dict_get_set {A} (d : list (string * A)) k v k' :
  dict_get (dict_set d k v) k' = if String.eqb k k' then Some v else dict_get d k'.
Proof.
  induction d as [|[k0 v0] d IH]; cbn [dict_set dict_get].
  - reflexivity.
  - destruct (String.eqb_spec k0 k) as [->|Hne]; cbn [dict_get].
    + destruct (String.eqb k k'); reflexivity.
    + rewrite IH. destruct (String.eqb_spec k0 k') as [->|Hne'].
      * destruct (String.eqb_spec k k'); [congruence | reflexivity].
      * reflexivity.
Qed.

Lemma dict_get_set_eq {A} (d : list (string * A)) k v :
  dict_get (dict_set d k v) k = Some v.
Proof. rewrite dict_get_set, String.eqb_refl. reflexivity. Qed.

Lemma dict_get_set_ne {A} (d : list (string * A)) k v k' :
  k <> k' -> dict_get (dict_set d k v) k' = dict_get d k'.
Proof. intros H. rewrite dict_get_set. apply String.eqb_neq in H. rewrite H. reflexivity. Qed.

Lemma parse_edges_raw es : parse_edges (map raw_edge es) = inr (map Some es).
Proof.
  induction es as [|[f t c] es IH]; [reflexivity|].
  cbn [map parse_edges]. rewrite IH. reflexivity.
Qed.

Lemma all_some_map {A} (l : list A) : all_some (map Some l) = Some l.
Proof. induction l as [|x l IH]; [reflexivity|]. cbn. rewrite IH. reflexivity. Qed.

Lemma parse_ignores_edge_names raw m es :
  _parse raw = Loaded m ->
  _parse (dict_set raw "edges" (PList (map raw_edge es))) = Loaded (with_edges es m).
Proof.
  unfold _parse. rewrite dict_get_set_eq.
  rewrite !dict_get_set_ne by discriminate.
  cbn [from_option id py_iter].
  destruct (truthy (default PNone (dict_get raw "name"))); cbn [negb]; [|discriminate].
  destruct (truthy (default PNone (dict_get raw "entry_step"))); cbn [negb]; [|discriminate].
  destruct (truthy (default (PDict []) (dict_get raw "steps"))); cbn [negb]; [|discriminate].
  destruct (default (PDict []) (dict_get raw "steps")); try discriminate.
  destruct (parse_steps d []) as [e|steps]; [discriminate|].
  destruct (entry_missing _ steps) as [e|[]]; try discriminate.
  destruct (py_iter _) as [e|l]; [discriminate|].
  destruct (parse_edges l) as [e|edges]; [discriminate|].
  rewrite parse_edges_raw, all_some_map.
  destruct (as_str _); [|discriminate].
  destruct (all_some_steps steps); [|discriminate].
  destruct (all_some edges); [|discriminate].
  intros [= <-]. reflexivity.
Qed.

(** C9 (as amended).  On a manifest document of the usual shape,
    [_parse] raises [ManifestError] exactly when the name or the entry
    step is missing or empty, the steps are missing or empty, a step is
    not a mapping or lacks its agent, the entry step is not among the
    steps, or an edge is not a mapping.  The names an edge carries are
    never looked up: a manifest that loads still loads, with the new
    edges as written, when its edges are replaced by any others. *)
Theorem parse_raises_manifest_error :
  (forall raw,
     shaped raw = true ->
     (is_manifest_error (_parse raw) = true <->
      no_name raw = true \/ no_entry_step raw = true \/ no_steps raw = true
      \/ (exists step, In step (raw_steps raw) /\ not_a_mapping step = true)
      \/ (exists step, In step (raw_steps raw) /\ lacks_agent step = true)
      \/ entry_absent raw = true
      \/ (exists e, In e (raw_edges raw) /\ is_dict e = false)))
  /\ (forall raw m edges,
        _parse raw = Loaded m ->
        _parse (dict_set raw "edges" (PList (map raw_edge edges)))
        = Loaded (with_edges edges m)).
Proof.
  split; [|exact parse_ignores_edge_names].
  intros raw Hshape. rewrite (is_manifest_error_grounds raw Hshape). unfold grounds.
  rewrite !orb_true_iff, !existsb_exists.
  split.
  - intros [[[[[[H|H]|H]|H]|H]|H]|(e & He & Hd)]; auto 10.
    do 6 right. exists e. split; [exact He|]. destruct (is_dict e); [discriminate|reflexivity].
  - intros [H|[H|[H|[H|[H|[H|(e & He & Hd)]]]]]]; auto 10.
    right. exists e. rewrite Hd. auto.
Qed.

Lemma parse_raises_manifest_error_witness :
  is_manifest_error
    (_parse [("name", PStr "w"); ("entry_step", PStr "missing");
             ("steps", PDict [("existing", PDict [("agent", PStr "a")])])]) = true
  /\ exists m,
       _parse (dict_set Fixtures.HAPPY_PATH_MANIFEST "edges"
                 (PList (map raw_edge [mkEdge "intake" "nowhere" "on_pass";
                                       mkEdge "ghost" "write" "on_fail"])))
       = Loaded m
       /\ Manifest.edges m = [mkEdge "intake" "nowhere" "on_pass";
                              mkEdge "ghost" "write" "on_fail"].
Proof.
  destruct parse_raises_manifest_error as [Herr Hedges]. split.
  - apply Herr; [reflexivity|]. do 5 right. left. reflexivity.
  - eexists. split.
    + apply (Hedges Fixtures.HAPPY_PATH_MANIFEST
               (Fixtures.manifest_of Fixtures.HAPPY_PATH_MANIFEST)).
      reflexivity.
    + reflexivity.
Defined.

(** C9 (counterexample).  The manifest of [test_missing_name_raises]
    gives an entry step, has one step, which has its agent, and the
    entry step is that step: none of the four listed grounds holds, yet
    [_parse] raises [ManifestError], for the missing name. *)
Lemma missing_name_is_a_seventh_ground :
  let raw := [("entry_step", PStr "x"); ("steps", PDict [("x", PDict [("agent", PStr "a")])])] in
  _parse raw = Raised (ManifestError "Manifest must have a 'name' field")
  /\ listed_grounds raw = false.
Proof. split; reflexivity. Qed.

(** ** C3: the paths of an attempt *)

Lemma evaluate_specs_nil c : evaluate_specs [] c = (inr [], c).
Proof. reflexivity. Qed.

Section Paths.

Variable registry : list (string * Agent).

Lemma agent_stage_runs sd a ag c' :
  get_agent registry (agent_name sd) = inr ag ->
  ag (context (store a)) = (inr tt, c') ->
  save_traces (drop (length (trace (context (store a)))) (trace c')) = inr tt ->
  agent_stage registry sd a
  = (inr tt,
     mkAtt (mkStore c' (seen_fingerprints (store a)) (invoked (store a) ++ [agent_name sd]))
       (StepAttempt.set_context_after (snapshot_data c') (result a))).
Proof.
  intros Hag Hrun Htr. unfold agent_stage.
  unfold bind at 1, lift. rewrite Hag.
  unfold bind at 1, get_context.
  unfold bind at 1, execute_agent. rewrite Hrun.
  unfold bind at 1. cbn [store context].
  unfold bind at 1, lift. rewrite Htr. reflexivity.
Qed.

Lemma post_stage_fails sd a rs :
  fst (evaluate_specs (post_specs sd) (context (store a))) = inr rs ->
  all_passed rs = false ->
  post_stage sd a
  = let fp := post_fingerprint sd (context (store a)) rs in
    let r := StepAttempt.set_fingerprint fp
               (StepAttempt.set_error
                  (Some ("Post-spec failed: " +:+ error_msg (failed_of rs)))
                  (StepAttempt.set_status StepStatus.FAILED
                     (StepAttempt.set_post_results rs (result a)))) in
    let seen := seen_for (name sd) (store a) in
    if decide (fp ∈ seen) then
      (inl (LoopDetectedError (name sd) fp),
       mkAtt (mkStore (context (store a))
                (<[name sd := seen]> (seen_fingerprints (store a))) (invoked (store a))) r)
    else
      (inr false,
       mkAtt (mkStore (context (store a))
                (<[name sd := {[fp]} ∪ seen]> (seen_fingerprints (store a)))
                (invoked (store a))) r).
Proof.
  intros Hrs Hfail. unfold post_stage.
  rewrite (evaluate_specs_nil_results _ _ _ Hrs (all_passed_false_nonempty _ Hfail)).
  unfold bind at 1. rewrite on_context_evaluate, Hrs.
  unfold bind at 1, update_result at 1. cbn [store result].
  rewrite Hfail. cbn [negb].
  unfold bind at 1, update_result at 1. cbn [store result].
  unfold bind at 1, update_result at 1. cbn [store result].
  unfold bind at 1, get_context. cbn [store result context].
  unfold bind at 1, update_result at 1. cbn [store result].
  unfold bind at 1. unfold post_fingerprint, check_fingerprint, seen_for. cbn zeta.
  cbn [store result]. case_decide; reflexivity.
Qed.

(** Up to the post-specs, an attempt whose agent runs is the rest of
    its body started on the agent's context. *)
Lemma attempt_body_after_agent sd attempt st c' :
  agent_ran registry sd (context st) c' ->
  attempt_body registry sd
    (mkAtt st (StepAttempt.mk (name sd) (agent_name sd) attempt StepStatus.RUNNING
                 [] [] [] ∅ ∅ EmptyString None))
  = (let* go := post_stage sd in
     if negb go then ret tt else
     let* go := invariant_stage sd in
     if negb go then ret tt else
     update_result (StepAttempt.set_status StepStatus.PASSED))
      (mkAtt (store_after_agent sd st c') (after_agent sd attempt (context st) c')).
Proof.
  intros [(rs & Hrs & Hpass) (ag & Hag & Hrun & Htr)].
  unfold attempt_body.
  unfold bind at 1, get_context. cbn [store context].
  unfold bind at 1, update_result at 1. cbn [store result].
  unfold bind at 1.
  rewrite (pre_stage_passes sd (mkAtt st _) rs Hrs Hpass). cbn [negb].
  unfold bind at 1.
  assert (Hpre : forall r,
    (if nonempty (pre_specs sd)
     then mkAtt st (StepAttempt.set_pre_results rs r) else mkAtt st r)
    = mkAtt st (if nonempty (pre_specs sd) then StepAttempt.set_pre_results rs r else r)).
  { intros r. destruct (nonempty (pre_specs sd)); reflexivity. }
  cbn [store result]. rewrite Hpre.
  rewrite (agent_stage_runs sd (mkAtt st _) ag c' Hag Hrun Htr).
  cbn [store result].
  unfold store_after_agent, after_agent, pre_results_of. rewrite Hrs.
  destruct (pre_specs sd) as [|n rest] eqn:E; cbn [nonempty].
  - cbn in Hrs. injection Hrs as <-. reflexivity.
  - reflexivity.
Qed.

(** A post-spec failure: the loop detector decides. *)
Lemma execute_post_failure sd attempt st c' rs :
  post_fails registry sd (context st) c' rs ->
  _execute_step_attempt registry sd attempt st
  = let fp := post_fingerprint sd c' rs in
    if decide (fp ∈ seen_for (name sd) st) then
      (inl (LoopDetectedError (name sd) fp),
       mkStore c' (<[name sd := seen_for (name sd) st]> (seen_fingerprints st))
         (invoked st ++ [agent_name sd]))
    else
      (inr (StepAttempt.set_fingerprint fp
              (StepAttempt.set_error
                 (Some ("Post-spec failed: " +:+ error_msg (failed_of rs)))
                 (StepAttempt.set_status StepStatus.FAILED
                    (StepAttempt.set_post_results rs
                       (after_agent sd attempt (context st) c'))))),
       mkStore c' (<[name sd := {[fp]} ∪ seen_for (name sd) st]> (seen_fingerprints st))
         (invoked st ++ [agent_name sd])).
Proof.
  intros (Hran & Hrs & Hfail). unfold _execute_step_attempt.
  rewrite (attempt_body_after_agent sd attempt st c' Hran).
  unfold bind at 1.
  rewrite (post_stage_fails sd (mkAtt (store_after_agent sd st c') _) rs Hrs Hfail).
  cbn zeta. unfold seen_for, store_after_agent.
  cbn [store context seen_fingerprints invoked result].
  case_decide; reflexivity.
Qed.

Lemma stage_skips_or_stores names c rs :
  fst (evaluate_specs names c) = inr rs -> nonempty names = false -> rs = [].
Proof. destruct names; [|discriminate]. cbn. intros [= <-] _. reflexivity. Qed.

Lemma post_stage_passes sd a rs :
  fst (evaluate_specs (post_specs sd) (context (store a))) = inr rs ->
  all_passed rs = true ->
  post_stage sd a
  = (inr true,
     if nonempty (post_specs sd)
     then mkAtt (store a) (StepAttempt.set_post_results rs (result a)) else a).
Proof.
  intros Hrs Hpass. unfold post_stage.
  destruct (nonempty (post_specs sd)); [|reflexivity].
  unfold bind at 1. rewrite on_context_evaluate, Hrs.
  unfold bind, update_result, ret. simpl. rewrite Hpass. reflexivity.
Qed.

Lemma invariant_stage_fails sd a rs :
  fst (evaluate_specs (invariant_specs sd) (context (store a))) = inr rs ->
  all_passed rs = false ->
  invariant_stage sd a
  = (inr false,
     mkAtt (store a)
       (StepAttempt.set_error
          (Some ("Invariant failed: " +:+ error_msg (failed_of rs)))
          (StepAttempt.set_status StepStatus.FAILED
             (StepAttempt.set_invariant_results rs (result a))))).
Proof.
  intros Hrs Hfail. unfold invariant_stage.
  rewrite (evaluate_specs_nil_results _ _ _ Hrs (all_passed_false_nonempty _ Hfail)).
  unfold bind at 1. rewrite on_context_evaluate, Hrs.
  unfold bind, update_result, ret. simpl. rewrite Hfail. reflexivity.
Qed.


End Paths.

(** ** The fingerprints seen only grow *)









Section Growth.

Variable registry : list (string * Agent).
Variable on_step_update : option (StepAttempt.t -> option pyexn).












End Growth.


(** ** Failing rule ids *)

Ltac rule_id_cases :=
  unfold bind, data_get, config_get, get_run_id, lift, ret; simpl;
  repeat (case_match; simpl in *; subst; try discriminate);
  intros; simplify_eq; reflexivity.

Lemma intake_pre_rule_id c r : fst (intake_pre c) = inr r -> rule_id r = "intake_pre".
Proof. unfold intake_pre. rule_id_cases. Qed.
Lemma intake_post_rule_id c r : fst (intake_post c) = inr r -> rule_id r = "intake_post".
Proof. unfold intake_post. rule_id_cases. Qed.
Lemma extract_pre_rule_id c r : fst (extract_pre c) = inr r -> rule_id r = "extract_pre".
Proof. unfold extract_pre. rule_id_cases. Qed.
Lemma write_pre_rule_id c r : fst (write_pre c) = inr r -> rule_id r = "write_pre".
Proof. unfold write_pre. rule_id_cases. Qed.
Lemma write_post_rule_id c r : fst (write_post c) = inr r -> rule_id r = "write_post".
Proof. unfold write_post. rule_id_cases. Qed.
Lemma global_invariant_rule_id c r :
  fst (global_invariant c) = inr r -> rule_id r = "global_invariant".
Proof. unfold global_invariant. rule_id_cases. Qed.
Lemma pipeline_progress_rule_id c r :
  fst (pipeline_progress c) = inr r -> rule_id r = "pipeline_progress".
Proof. unfold pipeline_progress. rule_id_cases. Qed.

Lemma extract_post_rule_id c r : fst (extract_post c) = inr r -> rule_id r = "extract_post".
Proof.
  unfold extract_post, bind, data_get, lift, ret. cbn -[missing_titles].
  destruct (default (PList []) (data c !! "extracted_items")) as [| | | |l|];
    cbn -[missing_titles]; try (intros [= <-]; reflexivity).
  destruct l as [|item rest]; cbn -[missing_titles]; [intros [= <-]; reflexivity|].
  destruct (missing_titles 0 (item :: rest)) as [e|[|i more]]; cbn;
    [discriminate | intros [= <-]; reflexivity | intros [= <-]; reflexivity].
Qed.

Lemma registered_rule_id n fn c r :
  dict_get _SPEC_REGISTRY n = Some fn -> fst (fn c) = inr r -> rule_id r = n.
Proof.
  unfold _SPEC_REGISTRY. cbn [dict_get].
  repeat (match goal with
          | |- context [String.eqb ?k n] => destruct (String.eqb_spec k n) as [<-|_]
          end;
          [intros [= <-];
           eauto using intake_pre_rule_id, intake_post_rule_id, extract_pre_rule_id,
             extract_post_rule_id, write_pre_rule_id, write_post_rule_id,
             global_invariant_rule_id, pipeline_progress_rule_id |]).
  intros; discriminate.
Qed.

Lemma failed_ids_filter names c rs :
  Forall2 (answers_for c) names rs ->
  map rule_id (failed_of rs) = List.filter (fails c) names.
Proof.
  induction 1 as [|n r names rs (fn & Hfn & Hr) _ IH]; [reflexivity|].
  cbn [failed_of List.filter]. fold (failed_of rs).
  unfold fails at 1. rewrite Hfn, Hr.
  destruct (negb (passed r)); cbn [map]; rewrite IH; [|reflexivity].
  rewrite (registered_rule_id n fn c r Hfn Hr). reflexivity.
Qed.

Lemma filter_same_elements {A} (p q : A -> bool) (l : list A) :
  (forall x, In x (List.filter p l) <-> In x (List.filter q l)) ->
  List.filter p l = List.filter q l.
Proof.
  intros H. apply List.filter_ext_in. intros x Hx.
  specialize (H x). rewrite !List.filter_In in H.
  destruct (p x), (q x); try reflexivity; [destruct H as [H _] | destruct H as [_ H]];
    destruct H; auto; discriminate.
Qed.

(** Two post-spec failures of one step with the same keys in the data
    and the same set of failing rules have the same fingerprint. *)
Lemma same_failure_same_fingerprint sd c1 c2 rs1 rs2 :
  fst (evaluate_specs (post_specs sd) c1) = inr rs1 ->
  fst (evaluate_specs (post_specs sd) c2) = inr rs2 ->
  dom (data c1) = dom (data c2) ->
  (forall x, In x (map rule_id (failed_of rs1)) <-> In x (map rule_id (failed_of rs2))) ->
  post_fingerprint sd c1 rs1 = post_fingerprint sd c2 rs2.
Proof.
  intros H1 H2 Hdom Hids.
  apply evaluate_specs_results in H1, H2.
  rewrite (failed_ids_filter _ _ _ H1), (failed_ids_filter _ _ _ H2) in Hids.
  unfold post_fingerprint.
  rewrite (failed_ids_filter _ _ _ H1), (failed_ids_filter _ _ _ H2).
  rewrite (filter_same_elements _ _ _ Hids).
  unfold compute_fingerprint, canonical, snapshot_data.
  rewrite (sorted_perm _ _ (data_keys_perm _ _ Hdom)). reflexivity.
Qed.

(** ** The loop detector *)


Lemma loop_error_message step fp :
  exn_str (LoopDetectedError step fp)
  = "Loop detected: step '" +:+ step +:+ "' repeated with fingerprint " +:+ fp.
Proof. reflexivity. Qed.




Lemma dom_set_data k v c : dom (data (set_data k v c)) = {[k]} ∪ dom (data c).
Proof. unfold set_data. cbn [data]. apply dom_insert_L. Qed.

Lemma retry_keeps_keys error error' step attempt attempt' st st' :
  context st' = context (retry_store error step attempt st) ->
  dom (data (context (retry_store error' step attempt' st')))
  = dom (data (context (retry_store error step attempt st))).
Proof.
  intros H. unfold retry_store at 1. cbn [context]. rewrite !dom_set_data, H.
  unfold retry_store. cbn [context]. rewrite !dom_set_data. set_solver.
Qed.


(** ** The shape of a fingerprint *)

Lemma hex_digit_in n : In (hex_digit n) hex_chars.
Proof.
  unfold hex_digit, hex_chars.
  destruct n as [|p|p]; [cbn; auto 20 | | cbn; auto 20].
  do 4 (try destruct p as [p|p|]); cbn; auto 20.
Qed.

Lemma hex_fixed_in_words digits n : In (hex_fixed digits n) (strings_over hex_chars digits).
Proof.
  induction digits as [|d IH]; [left; reflexivity|].
  cbn [hex_fixed strings_over]. apply in_flat_map.
  eexists. split; [apply hex_digit_in|]. apply in_map. exact IH.
Qed.

Lemma str_app_cons c s t : String c s +:+ t = String c (s +:+ t).
Proof. reflexivity. Qed.

Lemma words_app alphabet n m s t :
  In s (strings_over alphabet n) -> In t (strings_over alphabet m) ->
  In (s +:+ t) (strings_over alphabet (n + m)).
Proof.
  revert s. induction n as [|n IH]; intros s.
  - intros [<-|[]]. auto.
  - cbn [strings_over Nat.add]. rewrite !in_flat_map.
    intros (c & Hc & Hs) Ht. apply in_map_iff in Hs as (s' & <- & Hs').
    exists c. split; [exact Hc|]. rewrite str_app_cons. apply in_map. apply IH; assumption.
Qed.

Lemma length_hex_fixed digits n : String.length (hex_fixed digits n) = digits.
Proof. induction digits as [|d IH]; [reflexivity|]. cbn. rewrite IH. reflexivity. Qed.

Lemma str_take_app s t : str_take (String.length s) (s +:+ t) = s.
Proof.
  induction s as [|c s IH]; [destruct t; reflexivity|].
  rewrite str_app_cons. cbn [String.length str_take]. rewrite IH. reflexivity.
Qed.

Lemma length_str_app s t : String.length (s +:+ t) = (String.length s + String.length t)%nat.
Proof.
  induction s as [|c s IH]; [reflexivity|].
  rewrite str_app_cons. cbn [String.length]. rewrite IH. reflexivity.
Qed.

Lemma str_app_assoc s t u : (s +:+ t) +:+ u = s +:+ (t +:+ u).
Proof.
  induction s as [|c s IH]; [reflexivity|]. rewrite !str_app_cons, IH. reflexivity.
Qed.

(** A fingerprint is sixteen hexadecimal digits. *)
Lemma compute_fingerprint_hex step d r :
  In (compute_fingerprint step d r) (strings_over hex_chars 16).
Proof.
  unfold compute_fingerprint, Sha256.hexdigest.
  destruct (Sha256.digest _) as [[[[[[[a b] c] e] f] g] h] i].
  rewrite <- str_app_assoc.
  replace 16%nat with (String.length (hex_fixed 8 a +:+ hex_fixed 8 b))
    at 1 by (rewrite length_str_app, !length_hex_fixed; reflexivity).
  rewrite str_take_app.
  apply (words_app hex_chars 8 8); apply hex_fixed_in_words.
Qed.

(** * Further properties of the engine *)

(** ** Routing and the edges of a step *)

Lemma scan_outgoing edges cur cond :
  scan edges cur cond = scan (get_all_edges_from edges cur) cur cond.
Proof.
  induction edges as [|e edges IH]; [reflexivity|].
  cbn [get_all_edges_from List.filter scan].
  destruct (String.eqb (from_step e) cur) eqn:E.
  - cbn [scan]. rewrite E.
    destruct (String.eqb (condition e) cond || String.eqb (condition e) "always");
      [reflexivity | exact IH].
  - exact IH.
Qed.

Lemma scan_target edges cur cond t :
  scan edges cur cond = Some t ->
  exists e, e ∈ edges /\ from_step e = cur /\ to_step e = t.
Proof.
  induction edges as [|e edges IH]; [discriminate|]. cbn [scan].
  destruct (String.eqb_spec (from_step e) cur) as [Hf|Hf].
  - destruct (String.eqb (condition e) cond || String.eqb (condition e) "always").
    + intros [= <-]. exists e. split; [left | split; [exact Hf | reflexivity]].
    + intros H. destruct (IH H) as (e' & Hin & H'). exists e'. split; [right; exact Hin | exact H'].
  - intros H. destruct (IH H) as (e' & Hin & H'). exists e'. split; [right; exact Hin | exact H'].
Qed.

Lemma elem_of_get_all_edges_from edges cur e :
  e ∈ get_all_edges_from edges cur <-> e ∈ edges /\ from_step e = cur.
Proof.
  unfold get_all_edges_from. rewrite !list_elem_of_In, filter_In.
  split; intros [H1 H2]; (split; [exact H1|]).
  - apply String.eqb_eq. exact H2.
  - apply String.eqb_eq. exact H2.
Qed.

(** X1.  Routing reads the outgoing edges of the current step only:
    [next_step] gives the same answer on the whole edge list and on
    [get_all_edges_from] of the step, a step it returns is the target
    of one of these edges, and a step without outgoing edges ends the
    walk.  [get_all_edges_from] keeps exactly the edges that leave the
    step, in declaration order. *)
Theorem routing_reads_outgoing_edges (edges : list Edge) (cur : string) (passed : bool) :
  next_step edges cur passed = next_step (get_all_edges_from edges cur) cur passed
  /\ (forall t, next_step edges cur passed = Some t ->
        exists e, e ∈ get_all_edges_from edges cur /\ to_step e = t)
  /\ (get_all_edges_from edges cur = [] -> next_step edges cur passed = None)
  /\ (forall e, e ∈ get_all_edges_from edges cur <-> e ∈ edges /\ from_step e = cur)
  /\ sublist (get_all_edges_from edges cur) edges.
Proof.
  split; [|split; [|split; [|split]]].
  - unfold next_step. apply scan_outgoing.
  - intros t H. unfold next_step in H. apply scan_target in H as (e & Hin & Hf & Ht).
    exists e. split; [|exact Ht]. apply elem_of_get_all_edges_from. split; assumption.
  - intros H. unfold next_step. rewrite scan_outgoing, H. reflexivity.
  - intros e. apply elem_of_get_all_edges_from.
  - unfold get_all_edges_from. induction edges as [|e edges IH]; [constructor|].
    cbn [List.filter]. destruct (String.eqb (from_step e) cur).
    + apply sublist_skip. exact IH.
    + apply sublist_cons. exact IH.
Qed.

(** ** The step names of a graph *)

Lemma elem_of_add_step_names x names e :
  x ∈ add_step_names names e <-> x ∈ names \/ names_step x e.
Proof.
  unfold add_step_names, names_step.
  destruct (String.eqb_spec (to_step e) "__end__") as [Hend|Hend].
  - rewrite elem_of_union, elem_of_singleton. split.
    + intros [->|H]; [right; left; reflexivity | left; exact H].
    + intros [H|[H|[H1 H2]]]; [right; exact H | left; symmetry; exact H|].
      congruence.
  - rewrite !elem_of_union, !elem_of_singleton. split.
    + intros [->|[->|H]].
      * right. right. split; [reflexivity | exact Hend].
      * right. left. reflexivity.
      * left. exact H.
    + intros [H|[H|[H1 H2]]].
      * right. right. exact H.
      * right. left. symmetry. exact H.
      * left. symmetry. exact H1.
Qed.

Lemma elem_of_fold_step_names x edges : forall names,
  x ∈ fold_left add_step_names edges names
  <-> x ∈ names \/ exists e, e ∈ edges /\ names_step x e.
Proof.
  induction edges as [|e edges IH]; intros names; cbn [fold_left].
  - split; [intros H; left; exact H|]. intros [H|(e & He & _)]; [exact H|].
    apply elem_of_nil in He. destruct He.
  - rewrite IH, elem_of_add_step_names. split.
    + intros [[H|H]|(e' & He' & H)].
      * left. exact H.
      * right. exists e. split; [left | exact H].
      * right. exists e'. split; [right; exact He' | exact H].
    + intros [H|(e' & He' & H)].
      * left. left. exact H.
      * apply elem_of_cons in He' as [->|He'].
        -- left. right. exact H.
        -- right. exists e'. split; assumption.
Qed.

(** X2.  [get_step_names] lists every step an edge names, as its
    source or as a target other than "__end__", and nothing else; the
    list is in ascending order and holds no name twice. *)
Theorem get_step_names_lists_the_graph (edges : list Edge) :
  (forall x, x ∈ get_step_names edges <-> exists e, e ∈ edges /\ names_step x e)
  /\ Sorted String.le (get_step_names edges)
  /\ NoDup (get_step_names edges).
Proof.
  unfold get_step_names, sorted. split; [|split].
  - intros x. rewrite merge_sort_Permutation, elem_of_elements, elem_of_fold_step_names.
    split; [|intros H; right; exact H].
    intros [H|H]; [|exact H]. apply elem_of_empty in H. destruct H.
  - apply Sorted_merge_sort. apply _.
  - rewrite merge_sort_Permutation. apply NoDup_elements.
Qed.

(** ** The shape of a fingerprint *)

Lemma strings_over_shape alphabet n s :
  In s (strings_over alphabet n) ->
  String.length s = n /\ Forall (fun c => In c alphabet) (list_ascii_of_string s).
Proof.
  revert s. induction n as [|n IH]; intros s; cbn [strings_over].
  - intros [<-|[]]. split; [reflexivity | constructor].
  - rewrite in_flat_map. intros (c & Hc & Hs). apply in_map_iff in Hs as (t & <- & Ht).
    destruct (IH t Ht) as [Hlen Hall]. cbn [String.length list_ascii_of_string].
    split; [rewrite Hlen; reflexivity | constructor; assumption].
Qed.

(** X3.  A fingerprint is always sixteen characters long, each a
    lower-case hexadecimal digit, whatever the step name, the data
    and the failing rule ids. *)
Theorem fingerprint_is_sixteen_hex_digits
    (step_id : string) (context_data : gmap string pyval) (failed_rule_ids : list string) :
  String.length (compute_fingerprint step_id context_data failed_rule_ids) = 16%nat
  /\ Forall (fun c => In c hex_chars)
       (list_ascii_of_string (compute_fingerprint step_id context_data failed_rule_ids)).
Proof.
  apply strings_over_shape. apply compute_fingerprint_hex.
Qed.

(** ** The canonical text can be read back *)

Lemma str_app_inv_head p a b : p +:+ a = p +:+ b -> a = b.
Proof.
  induction p as [|c p IH]; [intros H; exact H|].
  rewrite !str_app_cons. intros [= H]. exact (IH H).
Qed.

Lemma json_unescape_escape c rest :
  json_unescape_char (json_escape_char c +:+ rest) = Some (c, rest).
Proof.
  destruct c as [[] [] [] [] [] [] [] []]; reflexivity.
Qed.

(** An escaped character never starts with the closing quote. *)
Lemma json_escape_char_head c rest rest' :
  json_escape_char c +:+ rest <> dq +:+ rest'.
Proof.
  destruct c as [[] [] [] [] [] [] [] []]; discriminate.
Qed.

Lemma json_escape_inj s1 : forall s2 r1 r2,
  json_escape s1 +:+ dq +:+ r1 = json_escape s2 +:+ dq +:+ r2 -> s1 = s2 /\ r1 = r2.
Proof.
  induction s1 as [|c1 s1 IH]; intros [|c2 s2] r1 r2; cbn [json_escape].
  - intros H. split; [reflexivity|]. exact (str_app_inv_head dq _ _ H).
  - rewrite str_app_assoc. intros H. symmetry in H.
    destruct (json_escape_char_head _ _ _ H).
  - rewrite str_app_assoc. intros H. destruct (json_escape_char_head _ _ _ H).
  - rewrite !str_app_assoc. intros H.
    pose proof (f_equal json_unescape_char H) as Hc.
    rewrite !json_unescape_escape in Hc. injection Hc as -> Hrest.
    destruct (IH _ _ _ Hrest) as [-> ->]. split; reflexivity.
Qed.

Lemma json_string_inj s1 s2 r1 r2 :
  json_string s1 +:+ r1 = json_string s2 +:+ r2 -> s1 = s2 /\ r1 = r2.
Proof.
  unfold json_string. rewrite !str_app_assoc. intros H.
  apply str_app_inv_head in H. rewrite ?str_app_assoc in H.
  exact (json_escape_inj _ _ _ _ H).
Qed.

Lemma join_cons sep p q rest :
  join sep (p :: q :: rest) = p +:+ sep +:+ join sep (q :: rest).
Proof. reflexivity. Qed.

Lemma json_strings_inj xs : forall ys r1 r2,
  join ", " (map json_string xs) +:+ "]" +:+ r1
  = join ", " (map json_string ys) +:+ "]" +:+ r2 ->
  xs = ys /\ r1 = r2.
Proof.
  induction xs as [|x xs IH]; intros [|y ys] r1 r2.
  - cbn [map join]. intros H. split; [reflexivity|]. exact (str_app_inv_head "]" _ _ H).
  - cbn [map]. destruct ys as [|y' ys]; cbn [map join]; unfold json_string;
      rewrite ?str_app_assoc; discriminate.
  - cbn [map]. destruct xs as [|x' xs]; cbn [map join]; unfold json_string;
      rewrite ?str_app_assoc; discriminate.
  - destruct xs as [|x' xs], ys as [|y' ys].
    + cbn [map join]. intros H. apply json_string_inj in H as [-> H].
      apply (str_app_inv_head "]") in H. subst. split; reflexivity.
    + cbn [map]. rewrite join_cons. cbn [join]. rewrite !str_app_assoc. intros H.
      apply json_string_inj in H as [_ H]. discriminate.
    + cbn [map]. rewrite join_cons. cbn [join]. rewrite !str_app_assoc. intros H.
      apply json_string_inj in H as [_ H]. discriminate.
    + change (map json_string (x :: x' :: xs))
        with (json_string x :: map json_string (x' :: xs)).
      change (map json_string (y :: y' :: ys))
        with (json_string y :: map json_string (y' :: ys)).
      cbn [map]. rewrite !join_cons. rewrite !str_app_assoc. intros H.
      apply json_string_inj in H as [-> H].
      apply (str_app_inv_head ", ") in H.
      change (json_string x' :: map json_string xs) with (map json_string (x' :: xs)) in H.
      change (json_string y' :: map json_string ys) with (map json_string (y' :: ys)) in H.
      destruct (IH _ _ _ H) as [-> ->]. split; reflexivity.
Qed.

Lemma json_string_list_inj xs ys r1 r2 :
  json_string_list xs +:+ r1 = json_string_list ys +:+ r2 -> xs = ys /\ r1 = r2.
Proof.
  unfold json_string_list. rewrite !str_app_assoc. intros H.
  apply (str_app_inv_head "[") in H. rewrite ?str_app_assoc in H.
  exact (json_strings_inj _ _ _ _ H).
Qed.

(** The canonical text tells the step name, the sorted keys and the
    sorted rule ids apart. *)
Lemma canonical_inj step1 step2 keys1 keys2 ids1 ids2 :
  canonical step1 keys1 ids1 = canonical step2 keys2 ids2 ->
  step1 = step2 /\ sorted keys1 = sorted keys2 /\ sorted ids1 = sorted ids2.
Proof.
  unfold canonical. intros H.
  apply (str_app_inv_head "{") in H.
  apply json_string_inj in H as [_ H].
  apply (str_app_inv_head ": ") in H.
  apply json_string_list_inj in H as [Hk H].
  apply (str_app_inv_head ", ") in H.
  apply json_string_inj in H as [_ H].
  apply (str_app_inv_head ": ") in H.
  apply json_string_list_inj in H as [Hi H].
  apply (str_app_inv_head ", ") in H.
  apply json_string_inj in H as [_ H].
  apply (str_app_inv_head ": ") in H.
  apply json_string_inj in H as [Hs _].
  auto.
Qed.

Lemma sorted_same_perm (xs ys : list string) : sorted xs = sorted ys -> xs ≡ₚ ys.
Proof.
  intros E. unfold sorted in E.
  rewrite <- (merge_sort_Permutation String.le xs), E.
  apply merge_sort_Permutation.
Qed.

(** X4.  For step names, keys and rule ids made of characters below
    U+0100 (the strings of this embedding), the text that is hashed
    into a fingerprint loses nothing but the order of the keys and of
    the rule ids: two canonical texts are equal exactly when the step
    names are equal and the key lists and the rule id lists are
    permutations of each other.  In particular a repeated rule id, an
    added key or a renamed step changes the text, also when the names
    hold quotes, backslashes or control characters, which are escaped.
    (The statement does not extend to all of Unicode: [json.dumps]
    writes a character beyond U+FFFF and the pair of surrogates that
    spells it alike.) *)
Theorem canonical_text_is_faithful
    (step1 step2 : string) (keys1 keys2 ids1 ids2 : list string) :
  canonical step1 keys1 ids1 = canonical step2 keys2 ids2
  <-> step1 = step2 /\ keys1 ≡ₚ keys2 /\ ids1 ≡ₚ ids2.
Proof.
  split.
  - intros H. apply canonical_inj in H as (Hs & Hk & Hi).
    split; [exact Hs|]. split; apply sorted_same_perm; assumption.
  - intros (-> & Hk & Hi). unfold canonical.
    rewrite (sorted_perm _ _ Hk), (sorted_perm _ _ Hi). reflexivity.
Qed.


(** ** What a spec result says *)

Ltac fix_cases :=
  unfold bind, data_get, config_get, get_run_id, lift, ret; simpl;
  repeat (case_match; simpl in *; subst; try discriminate);
  intros; simplify_eq; unfold fix_on_failure; cbn;
  split; intros; try discriminate; try reflexivity; try congruence.

Lemma intake_pre_fix c r : fst (intake_pre c) = inr r -> fix_on_failure r.
Proof. unfold intake_pre. fix_cases. Qed.
Lemma intake_post_fix c r : fst (intake_post c) = inr r -> fix_on_failure r.
Proof. unfold intake_post. fix_cases. Qed.
Lemma extract_pre_fix c r : fst (extract_pre c) = inr r -> fix_on_failure r.
Proof. unfold extract_pre. fix_cases. Qed.
Lemma write_pre_fix c r : fst (write_pre c) = inr r -> fix_on_failure r.
Proof. unfold write_pre. fix_cases. Qed.
Lemma write_post_fix c r : fst (write_post c) = inr r -> fix_on_failure r.
Proof. unfold write_post. fix_cases. Qed.
Lemma global_invariant_fix c r : fst (global_invariant c) = inr r -> fix_on_failure r.
Proof. unfold global_invariant. fix_cases. Qed.
Lemma pipeline_progress_fix c r : fst (pipeline_progress c) = inr r -> fix_on_failure r.
Proof. unfold pipeline_progress. fix_cases. Qed.

Lemma extract_post_fix c r : fst (extract_post c) = inr r -> fix_on_failure r.
Proof.
  assert (Hfail : forall m f t, fix_on_failure (mkSpecResult "extract_post" false m
                                                  (String "C"%char f) t)
                                /\ fix_on_failure (mkSpecResult "extract_post" false m
                                                     (String "E"%char f) t)).
  { intros m f t. split; (split; [intros _; discriminate | reflexivity]). }
  assert (Hpass : forall m t, fix_on_failure (mkSpecResult "extract_post" true m EmptyString t)).
  { intros m t. split; [discriminate | intros H; destruct H; reflexivity]. }
  unfold extract_post, bind, data_get, lift, ret. cbn -[missing_titles].
  destruct (default (PList []) (data c !! "extracted_items")) as [| | | |l|];
    cbn -[missing_titles]; try (intros [= <-]; apply Hfail).
  destruct l as [|item rest]; cbn -[missing_titles]; [intros [= <-]; apply Hfail|].
  destruct (missing_titles 0 (item :: rest)) as [e|[|i more]]; cbn;
    [discriminate | intros [= <-]; apply Hpass | intros [= <-]; apply Hfail].
Qed.

(** X5.  Whatever the context, the result of a registered spec
    carries as its [rule_id] the name the spec is registered under,
    and it carries a suggested fix exactly when it reports a
    failure. *)
Theorem registered_results_name_rule_and_fix
    (n : string) (fn : Spec) (c : Context) (r : SpecResult) :
  dict_get _SPEC_REGISTRY n = Some fn -> fst (fn c) = inr r ->
  rule_id r = n /\ (passed r = false <-> suggested_fix r <> EmptyString).
Proof.
  intros Hfn Hr. split; [exact (registered_rule_id n fn c r Hfn Hr)|].
  change (fix_on_failure r). revert Hfn Hr.
  unfold _SPEC_REGISTRY. cbn [dict_get].
  repeat (match goal with
          | |- context [String.eqb ?k n] => destruct (String.eqb_spec k n) as [<-|_]
          end;
          [intros [= <-];
           eauto using intake_pre_fix, intake_post_fix, extract_pre_fix,
             extract_post_fix, write_pre_fix, write_post_fix,
             global_invariant_fix, pipeline_progress_fix |]).
  intros; discriminate.
Qed.

Lemma registered_results_name_rule_and_fix_witness :
  let c := mkContext "run" ∅ ∅ [] ∅ ∅ in
  let r := mkSpecResult "write_post" false "No files were written"
             "Check output_folder permissions and disk space" ["post"; "write"] in
  rule_id r = "write_post" /\ (passed r = false <-> suggested_fix r <> EmptyString).
Proof.
  intros c r.
  exact (registered_results_name_rule_and_fix "write_post" write_post c r eq_refl eq_refl).
Defined.

(** ** A name the registry does not know *)

Lemma registered_runs c n :
  conventional c = true -> registered n ->
  exists fn r, get_spec n = inr fn /\ fn c = (inr r, c).
Proof.
  intros Hc [fn Hfn]. exists fn.
  destruct (registered_returns c n fn Hc Hfn) as [r Hr]. exists r.
  assert (Hget : get_spec n = inr fn) by (unfold get_spec; rewrite Hfn; reflexivity).
  split; [exact Hget|].
  pose proof (get_spec_read_only n fn Hget c) as Hro.
  destruct (fn c) as [res c']. cbn in Hr, Hro. subst. reflexivity.
Qed.

(** The message of the [KeyError] of [get_spec]. *)
Lemma evaluate_specs_unknown before n after c :
  Forall registered before -> ~ registered n -> conventional c = true ->
  evaluate_specs (before ++ n :: after) c
  = (inl (KeyError ("Unknown spec: '" +:+ n +:+ "'. Available: "
                    +:+ "['intake_pre', 'intake_post', 'extract_pre', 'extract_post', "
                    +:+ "'write_pre', 'write_post', 'global_invariant', 'pipeline_progress']")),
     c).
Proof.
  intros Hreg Hn Hc. induction Hreg as [|x before Hx _ IH].
  - cbn [app evaluate_specs]. unfold bind at 1, lift, get_spec.
    destruct (dict_get _SPEC_REGISTRY n) as [fn|] eqn:E.
    + destruct Hn. exists fn. exact E.
    + reflexivity.
  - cbn [app evaluate_specs].
    destruct (registered_runs c x Hc Hx) as (fn & r & Hget & Hrun).
    unfold bind at 1, lift. rewrite Hget.
    unfold bind at 1. rewrite Hrun.
    unfold bind at 1. rewrite IH. reflexivity.
Qed.

(** X6.  [evaluate_specs] stops at the first name the registry does
    not know: it raises the [KeyError] of [get_spec] for that name,
    which lists the registered names, and returns no result at all,
    not even those of the specs before it; the context is left as it
    was. *)
Theorem evaluate_specs_stops_at_unknown_name
    (before : list string) (n : string) (after : list string) (c : Context) :
  Forall registered before -> ~ registered n -> conventional c = true ->
  evaluate_specs (before ++ n :: after) c
  = (inl (KeyError ("Unknown spec: '" +:+ n +:+ "'. Available: "
                    +:+ "['intake_pre', 'intake_post', 'extract_pre', 'extract_post', "
                    +:+ "'write_pre', 'write_post', 'global_invariant', 'pipeline_progress']")),
     c).
Proof. exact (evaluate_specs_unknown before n after c). Qed.

Lemma evaluate_specs_stops_at_unknown_name_witness :
  let c := mkContext "run" (<["input_folder" := PStr "in"]> ∅) ∅ [] ∅ ∅ in
  evaluate_specs (["intake_pre"] ++ "intake_pr" :: ["intake_post"]) c
  = (inl (KeyError ("Unknown spec: '" +:+ "intake_pr" +:+ "'. Available: "
                    +:+ "['intake_pre', 'intake_post', 'extract_pre', 'extract_post', "
                    +:+ "'write_pre', 'write_post', 'global_invariant', 'pipeline_progress']")),
     c).
Proof.
  intros c.
  apply (evaluate_specs_stops_at_unknown_name ["intake_pre"] "intake_pr" ["intake_post"] c).
  - constructor; [|constructor]. eexists. reflexivity.
  - intros [fn H]. discriminate H.
  - reflexivity.
Defined.

(** ** The items without a title *)

Lemma missing_titles_untitled items : forall i,
  forallb is_dict items = true ->
  exists missing,
    missing_titles i items = inr missing
    /\ (forall k, In k missing <->
          exists j item, k = i + Z.of_nat j /\ items !! j = Some item /\ untitled item = true)
    /\ StronglySorted Z.lt missing.
Proof.
  induction items as [|item rest IH]; intros i Hd.
  - exists []. split; [reflexivity|]. split; [|constructor].
    intros k. split; [intros []|]. intros (j & x & _ & Hx & _). discriminate Hx.
  - cbn [forallb] in Hd. apply andb_true_iff in Hd as [Hitem Hrest].
    destruct item as [| | | | |d]; try discriminate Hitem.
    destruct (IH (i + 1) Hrest) as (more & Hmore & Hin & Hsorted).
    cbn [missing_titles py_get]. rewrite Hmore.
    assert (Hlow : Forall (Z.lt i) more).
    { apply List.Forall_forall. intros k Hk. apply Hin in Hk as (j & _ & -> & _). lia. }
    assert (Htail : forall k, In k more <->
              exists j x, k = i + Z.of_nat (S j) /\ rest !! j = Some x /\ untitled x = true).
    { intros k. rewrite Hin. split; intros (j & x & -> & H); exists j, x; (split; [lia|exact H]). }
    destruct (negb (truthy (default PNone (dict_get d "title")))) eqn:Eu;
      eexists; (split; [reflexivity|]); split.
    + intros k. cbn [In]. rewrite Htail. split.
      * intros [<-|(j & x & -> & H)].
        -- exists 0%nat, (PDict d). split; [lia|]. split; [reflexivity | exact Eu].
        -- exists (S j), x. split; [reflexivity | exact H].
      * intros ([|j] & x & -> & Hx & Hu).
        -- left. lia.
        -- right. exists j, x. split; [reflexivity|]. split; assumption.
    + constructor; assumption.
    + intros k. rewrite Htail. split.
      * intros (j & x & -> & H). exists (S j), x. split; [reflexivity | exact H].
      * intros ([|j] & x & -> & Hx & Hu).
        -- cbn in Hx. injection Hx as <-. cbn [untitled] in Hu. congruence.
        -- exists j, x. split; [reflexivity|]. split; assumption.
    + exact Hsorted.
Qed.

(** X7.  On a list of item mappings, [extract_post] fails exactly
    when the list is empty or an item has no (or an empty) title; in
    the second case its message lists the positions of exactly the
    items without title, counted from 0 and in ascending order. *)
Theorem extract_post_reports_untitled_items (c : Context) (items : list pyval) :
  data c !! "extracted_items" = Some (PList items) -> forallb is_dict items = true ->
  exists missing,
    (forall j, In (Z.of_nat j) missing <->
       exists item, items !! j = Some item /\ untitled item = true)
    /\ Forall (fun k => 0 <= k < Z.of_nat (length items)) missing
    /\ StronglySorted Z.lt missing
    /\ fst (extract_post c)
       = inr (match items, missing with
              | [], _ =>
                  mkSpecResult "extract_post" false "No items were extracted"
                    "Check LLM response format or input file content" ["post"; "extract"]
              | _, [] =>
                  mkSpecResult "extract_post" true
                    (pretty (Z.of_nat (length items)) +:+ " item(s) extracted, all with titles")
                    EmptyString ["post"; "extract"]
              | _, _ =>
                  mkSpecResult "extract_post" false
                    ("Items at indices " +:+ repr (PList (map PInt missing)) +:+ " have no title")
                    "Ensure LLM prompt requires a title for each item"
                    ["post"; "extract"; "schema"]
              end).
Proof.
  intros Hdata Hd.
  destruct (missing_titles_untitled items 0 Hd) as (missing & Hm & Hin & Hsorted).
  exists missing. split; [|split; [|split]].
  - intros j. rewrite Hin. split.
    + intros (j' & x & Hj & H). assert (j' = j) as -> by lia. exists x. exact H.
    + intros (x & H). exists j, x. split; [lia | exact H].
  - apply List.Forall_forall. intros k Hk. apply Hin in Hk as (j & x & -> & Hx & _).
    apply lookup_lt_Some in Hx. lia.
  - exact Hsorted.
  - unfold extract_post, bind, data_get, lift. rewrite Hdata. cbn [default fst].
    destruct items as [|item rest]; [reflexivity|].
    unfold id. cbv beta iota zeta. rewrite Hm.
    destruct missing; reflexivity.
Qed.

Lemma extract_post_reports_untitled_items_witness :
  let items := [PDict [("title", PStr "a")]; PDict [("type", PStr "note")];
                PDict [("title", PStr EmptyString)]] in
  let c := mkContext "run" (<["extracted_items" := PList items]> ∅) ∅ [] ∅ ∅ in
  exists missing,
    (forall j, In (Z.of_nat j) missing <->
       exists item, items !! j = Some item /\ untitled item = true)
    /\ Forall (fun k => 0 <= k < Z.of_nat (length items)) missing
    /\ StronglySorted Z.lt missing
    /\ fst (extract_post c)
       = inr (match items, missing with
              | [], _ =>
                  mkSpecResult "extract_post" false "No items were extracted"
                    "Check LLM response format or input file content" ["post"; "extract"]
              | _, [] =>
                  mkSpecResult "extract_post" true
                    (pretty (Z.of_nat (length items)) +:+ " item(s) extracted, all with titles")
                    EmptyString ["post"; "extract"]
              | _, _ =>
                  mkSpecResult "extract_post" false
                    ("Items at indices " +:+ repr (PList (map PInt missing)) +:+ " have no title")
                    "Ensure LLM prompt requires a title for each item"
                    ["post"; "extract"; "schema"]
              end).
Proof.
  intros items c.
  apply (extract_post_reports_untitled_items c items); reflexivity.
Defined.

(** ** Progress *)

(** X8.  [pipeline_progress] never fails and never raises, whatever
    the data holds: it passes with the message "Progress: N%", where N
    adds 33 for loaded files, 33 for extracted items and 34 for written
    files that are present and not empty; N is 100 exactly when all
    three are, and 0 exactly when none is. *)
Theorem pipeline_progress_always_passes (c : Context) :
  exists score,
    pipeline_progress c
    = (inr (mkSpecResult "pipeline_progress" true ("Progress: " +:+ pretty score +:+ "%")
              EmptyString ["progress"]), c)
    /\ score = (if holds c "loaded_files" then 33 else 0)
               + (if holds c "extracted_items" then 33 else 0)
               + (if holds c "written_files" then 34 else 0)
    /\ (score = 100 <->
        holds c "loaded_files" && holds c "extracted_items" && holds c "written_files" = true)
    /\ (score = 0 <->
        holds c "loaded_files" || holds c "extracted_items" || holds c "written_files" = false).
Proof.
  eexists. split; [reflexivity|]. split; [reflexivity|].
  unfold holds.
  destruct (truthy (default PNone (data c !! "loaded_files"))),
    (truthy (default PNone (data c !! "extracted_items"))),
    (truthy (default PNone (data c !! "written_files")));
    cbn; split; split; intros; try reflexivity; try discriminate; try lia.
Qed.

(** ** The bytes that are hashed *)

Lemma decode_first_encode c s : decode_first (encode (String c s)) = Some (c, encode s).
Proof. destruct c as [[] [] [] [] [] [] [] []]; reflexivity. Qed.

Lemma encode_bytes c s :
  Forall (fun b => 0 <= b < 256) (encode s) ->
  Forall (fun b => 0 <= b < 256) (encode (String c s)).
Proof.
  cbn [encode]. generalize (encode s). intros l H.
  destruct c as [[] [] [] [] [] [] [] []];
    match goal with
    | |- context [code ?c] =>
        let n := eval vm_compute in (code c) in change (code c) with n
    end;
    cbn [Z.ltb Z.compare Pos.compare Pos.compare_cont];
    repeat (apply List.Forall_cons;
            [split; [apply Z.leb_le | apply Z.ltb_lt]; reflexivity|]);
    exact H.
Qed.

(** X28.  For strings of characters below U+0100 (the strings of
    this embedding), the bytes a fingerprint is the digest of tell the
    text apart: [encode] gives bytes, and two texts with the same
    bytes are the same text.  With the canonical text being faithful
    on such strings, two of their fingerprints can only agree by
    accident of the digest when the step, the keys or the failing rule
    ids differ. *)
Theorem encode_is_faithful :
  (forall s1 s2, encode s1 = encode s2 -> s1 = s2)
  /\ (forall s, Forall (fun b => 0 <= b < 256) (encode s))
  /\ (forall step1 step2 keys1 keys2 ids1 ids2,
        encode (canonical step1 keys1 ids1) = encode (canonical step2 keys2 ids2)
        <-> step1 = step2 /\ keys1 ≡ₚ keys2 /\ ids1 ≡ₚ ids2).
Proof.
  assert (Hinj : forall s1 s2, encode s1 = encode s2 -> s1 = s2).
  { induction s1 as [|c1 s1 IH]; intros [|c2 s2] H.
    - reflexivity.
    - apply (f_equal decode_first) in H. rewrite decode_first_encode in H. discriminate H.
    - apply (f_equal decode_first) in H. rewrite decode_first_encode in H. discriminate H.
    - apply (f_equal decode_first) in H. rewrite !decode_first_encode in H.
      injection H as -> H. rewrite (IH _ H). reflexivity. }
  split; [exact Hinj|]. split.
  - induction s as [|c s IH]; [apply List.Forall_nil | exact (encode_bytes c s IH)].
  - intros step1 step2 keys1 keys2 ids1 ids2. split.
    + intros H. apply Hinj in H. apply canonical_inj in H as (Hs & Hk & Hi).
      split; [exact Hs|]. split; apply sorted_same_perm; assumption.
    + intros (-> & Hk & Hi). unfold canonical.
      rewrite (sorted_perm _ _ Hk), (sorted_perm _ _ Hi). reflexivity.
Qed.

(** ** Association lists as dictionaries *)

Lemma dict_get_is_Some {A} (d : list (string * A)) k :
  is_Some (dict_get d k) <-> In k (dict_keys d).
Proof.
  induction d as [|[k' v] d IH]; cbn [dict_get dict_keys map fst In].
  - split; [intros [x H]; discriminate | intros []].
  - destruct (String.eqb_spec k' k) as [->|Hne].
    + split; [intros _; left; reflexivity | intros _; eexists; reflexivity].
    + rewrite IH. unfold dict_keys. split; [intros H; right; exact H|].
      intros [H|H]; [congruence | exact H].
Qed.

Lemma dict_get_absent {A} (d : list (string * A)) k :
  ~ In k (dict_keys d) -> dict_get d k = None.
Proof.
  intros H. destruct (dict_get d k) eqn:E; [|reflexivity].
  destruct H. apply dict_get_is_Some. eexists. exact E.
Qed.

Lemma dict_keys_set {A} (d : list (string * A)) k v x :
  In x (dict_keys (dict_set d k v)) <-> x = k \/ In x (dict_keys d).
Proof.
  induction d as [|[k' v'] d IH]; cbn [dict_set dict_keys map fst In].
  - split; [intros [H|[]]; left; symmetry; exact H | intros [H|[]]; left; symmetry; exact H].
  - destruct (String.eqb_spec k' k) as [->|Hne]; cbn [dict_keys map fst In].
    + split; [intros H; right; exact H|]. intros [->|H]; [left; reflexivity | exact H].
    + fold (dict_keys (dict_set d k v)). fold (dict_keys d). rewrite IH. tauto.
Qed.

Lemma NoDup_dict_set {A} (d : list (string * A)) k v :
  List.NoDup (dict_keys d) -> List.NoDup (dict_keys (dict_set d k v)).
Proof.
  induction d as [|[k' v'] d IH]; cbn [dict_set dict_keys map fst].
  - intros _. constructor; [intros [] | constructor].
  - intros H. inversion H as [|? ? Hnotin Hrest]; subst.
    destruct (String.eqb_spec k' k) as [->|Hne]; cbn [dict_keys map fst].
    + exact H.
    + constructor.
      * fold (dict_keys (dict_set d k v)). rewrite dict_keys_set. intros [->|Hin]; auto.
      * apply IH. exact Hrest.
Qed.

Lemma In_dict_set {A} (d : list (string * A)) k v x :
  In x (dict_set d k v) -> x = (k, v) \/ In x d.
Proof.
  induction d as [|[k' v'] d IH]; cbn [dict_set In].
  - intros [H|[]]. left. symmetry. exact H.
  - destruct (String.eqb_spec k' k) as [->|Hne]; cbn [In].
    + intros [H|H]; [left; symmetry; exact H | right; right; exact H].
    + intros [H|H]; [right; left; exact H|]. destruct (IH H); [left | right; right]; assumption.
Qed.

Lemma dict_get_of_In {A} (d : list (string * A)) k v :
  List.NoDup (dict_keys d) -> In (k, v) d -> dict_get d k = Some v.
Proof.
  induction d as [|[k' v'] d IH]; cbn [dict_keys map fst dict_get In]; [intros _ []|].
  intros H. inversion H as [|? ? Hnotin Hrest]; subst.
  intros [[= -> ->]|Hin].
  - rewrite String.eqb_refl. reflexivity.
  - destruct (String.eqb_spec k' k) as [->|Hne]; [|exact (IH Hrest Hin)].
    destruct Hnotin. apply (in_map fst) in Hin. exact Hin.
Qed.

(** ** The steps of a loaded manifest *)

Lemma parse_step_filed k v osd sd :
  parse_step k v = inr osd -> osd = Some sd -> name sd = k /\ agent_name sd <> EmptyString.
Proof.
  unfold parse_step. destruct v as [| | | | |d]; try discriminate.
  destruct (default PNone (dict_get d "agent")) as [| | |a| |] eqn:Ea;
    cbn [truthy negb as_str];
    repeat match goal with
           | |- context [if ?b then _ else _] => destruct b eqn:?
           | |- context [match py_get_default ?x ?y ?z with _ => _ end] =>
               destruct (py_get_default x y z)
           end; try discriminate.
  all: intros [= <-]; try discriminate.
  all: repeat match goal with
              | |- context [match ?o with Some _ => _ | None => _ end] => destruct o
              end; try discriminate.
  intros [= <-]. cbn [name agent_name]. split; [reflexivity|].
  intros ->. discriminate.
Qed.

Lemma parse_steps_keys items : forall acc steps,
  parse_steps items acc = inr steps ->
  (forall x, In x (dict_keys steps) <-> In x (dict_keys acc) \/ In x (dict_keys items))
  /\ (List.NoDup (dict_keys acc) -> List.NoDup (dict_keys steps))
  /\ (forall x osd, In (x, osd) steps ->
        In (x, osd) acc \/ exists v, In (x, v) items /\ parse_step x v = inr osd).
Proof.
  induction items as [|[k v] rest IH]; intros acc steps; cbn [parse_steps].
  - intros [= <-]. split; [|split].
    + intros x. cbn. tauto.
    + auto.
    + intros x osd H. left. exact H.
  - destruct (parse_step k v) as [e|osd] eqn:Estep; [discriminate|].
    intros H. destruct (IH _ _ H) as (Hkeys & Hnodup & Hin). split; [|split].
    + intros x. rewrite Hkeys, dict_keys_set. cbn [dict_keys map fst In]. unfold dict_keys.
      split; intros Hx; intuition auto.
    + intros Hacc. apply Hnodup, NoDup_dict_set, Hacc.
    + intros x osd' Hx. destruct (Hin x osd' Hx) as [Hset|(v' & Hv' & Hp)].
      * apply In_dict_set in Hset as [[= -> ->]|Hacc]; [|left; exact Hacc].
        right. exists v. split; [left; reflexivity | exact Estep].
      * right. exists v'. split; [right; exact Hv' | exact Hp].
Qed.

Lemma all_some_steps_inv {A} (steps : list (string * option A)) steps' :
  all_some_steps steps = Some steps' ->
  steps = map (fun kv => (fst kv, Some (snd kv))) steps'.
Proof.
  revert steps'. induction steps as [|[k [x|]] steps IH]; intros steps'; cbn [all_some_steps].
  - intros [= <-]. reflexivity.
  - destruct (all_some_steps steps) as [l|]; [|discriminate].
    cbn [option_map]. intros [= <-]. cbn [map fst snd]. rewrite <- (IH l eq_refl). reflexivity.
  - discriminate.
Qed.

Lemma all_some_inv {A} (l : list (option A)) l' : all_some l = Some l' -> l = map Some l'.
Proof.
  revert l'. induction l as [|[x|] l IH]; intros l'; cbn [all_some].
  - intros [= <-]. reflexivity.
  - destruct (all_some l) as [t|]; [|discriminate].
    cbn [option_map]. intros [= <-]. cbn [map]. rewrite <- (IH t eq_refl). reflexivity.
  - discriminate.
Qed.

Lemma parse_edges_length es : forall edges,
  parse_edges es = inr edges -> length edges = length es.
Proof.
  induction es as [|e es IH]; intros edges; cbn [parse_edges].
  - intros [= <-]. reflexivity.
  - destruct (parse_edge e); [discriminate|].
    destruct (parse_edges es) as [|eds]; [discriminate|].
    intros [= <-]. cbn [length]. rewrite (IH eds eq_refl). reflexivity.
Qed.

(** What [_parse] has checked and computed when it returns. *)
Lemma parse_loaded raw m :
  _parse raw = Loaded m ->
  exists entry items steps edges,
    truthy (default PNone (dict_get raw "name")) = true
    /\ default PNone (dict_get raw "entry_step") = PStr entry /\ entry <> EmptyString
    /\ default (PDict []) (dict_get raw "steps") = PDict items /\ items <> []
    /\ parse_steps items [] = inr (map (fun kv => (fst kv, Some (snd kv))) (Manifest.steps m))
    /\ In entry (dict_keys (Manifest.steps m))
    /\ parse_edges (raw_edges raw) = inr (map Some (Manifest.edges m))
    /\ steps = Manifest.steps m /\ edges = Manifest.edges m
    /\ m = Manifest.mk (default PNone (dict_get raw "name"))
             (default (PStr EmptyString) (dict_get raw "description"))
             (default (PStr "1.0") (dict_get raw "version"))
             entry steps edges
             (default (PDict []) (dict_get raw "defaults"))
             (default (PDict []) (dict_get raw "budgets")).
Proof.
  unfold _parse, raw_edges.
  destruct (truthy (default PNone (dict_get raw "name"))) eqn:En; cbn [negb]; [|discriminate].
  destruct (truthy (default PNone (dict_get raw "entry_step"))) eqn:Ee; cbn [negb];
    [|discriminate].
  destruct (truthy (default (PDict []) (dict_get raw "steps"))) eqn:Es; cbn [negb];
    [|discriminate].
  destruct (default (PDict []) (dict_get raw "steps")) as [| | | | |items] eqn:Eitems;
    try discriminate.
  destruct (parse_steps items []) as [e|steps] eqn:Esteps; [discriminate|].
  destruct (entry_missing _ steps) as [e|[]] eqn:Emiss; try discriminate.
  destruct (py_iter _) as [e|l] eqn:Eiter; [discriminate|].
  destruct (parse_edges l) as [e|edges] eqn:Eedges; [discriminate|].
  destruct (default PNone (dict_get raw "entry_step")) as [| | |entry| |] eqn:Eentry;
    cbn [as_str]; try discriminate.
  destruct (all_some_steps steps) as [steps'|] eqn:Eall; [|discriminate].
  destruct (all_some edges) as [edges'|] eqn:Ealle; [|discriminate].
  intros [= <-]. cbn [Manifest.steps Manifest.edges].
  apply all_some_steps_inv in Eall. apply all_some_inv in Ealle. subst steps edges.
  exists entry, items, steps', edges'.
  split; [reflexivity|]. split; [reflexivity|].
  split; [intros ->; discriminate Ee|].
  split; [reflexivity|]. split; [intros ->; discriminate Es|].
  split; [exact Esteps|]. split.
  - cbn [entry_missing] in Emiss. injection Emiss as Emiss.
    apply negb_false_iff, existsb_exists in Emiss as (x & Hx & Heq).
    apply String.eqb_eq in Heq. subst x.
    unfold dict_keys in *. rewrite map_map in Hx. cbn [fst] in Hx. exact Hx.
  - split; [first [exact Eedges | reflexivity]|]. repeat split; reflexivity.
Qed.

(** X9.  A manifest that [from_dict] returns is well formed: it has
    a name and an entry step, the entry step is one of its steps, the
    steps are those of the document, each filed once, under its own
    name and with an agent, and there is one edge for each edge of the
    document. *)
Theorem loaded_manifest_is_well_formed (raw : list (string * pyval)) (m : Manifest.t) :
  from_dict raw = Loaded m ->
  truthy (Manifest.name m) = true
  /\ Manifest.entry_step m <> EmptyString
  /\ is_Some (dict_get (Manifest.steps m) (Manifest.entry_step m))
  /\ List.NoDup (dict_keys (Manifest.steps m))
  /\ (forall k, In k (dict_keys (Manifest.steps m)) <-> In k (dict_keys (raw_steps raw)))
  /\ Forall filed (Manifest.steps m)
  /\ length (Manifest.edges m) = length (raw_edges raw).
Proof.
  unfold from_dict. intros H.
  destruct (parse_loaded raw m H)
    as (entry & items & steps & edges & Hname & Hentry & Hne & Hitems & Hsome
        & Hsteps & Hin & Hedges & -> & -> & Hm).
  destruct (parse_steps_keys _ _ _ Hsteps) as (Hkeys & Hnodup & Hfrom).
  assert (Hk : dict_keys (map (fun kv : string * StepDefinition => (fst kv, Some (snd kv)))
                            (Manifest.steps m))
               = dict_keys (Manifest.steps m)).
  { unfold dict_keys. rewrite map_map. reflexivity. }
  rewrite Hk in Hkeys, Hnodup.
  assert (He : Manifest.entry_step m = entry) by (rewrite Hm; reflexivity).
  assert (Hn : Manifest.name m = default PNone (dict_get raw "name"))
    by (rewrite Hm; reflexivity).
  split; [rewrite Hn; exact Hname|].
  split; [rewrite He; exact Hne|].
  split; [rewrite He; apply dict_get_is_Some; exact Hin|].
  split; [apply Hnodup; constructor|].
  split.
  - intros k. rewrite Hkeys. unfold raw_steps. rewrite Hitems. cbn [dict_keys map In]. tauto.
  - split.
    + apply List.Forall_forall. intros [k sd] Hsd. unfold filed. cbn [fst snd].
      assert (Hmapped : In (k, Some sd)
                (map (fun kv : string * StepDefinition => (fst kv, Some (snd kv)))
                   (Manifest.steps m))).
      { apply in_map_iff. exists (k, sd). split; [reflexivity | exact Hsd]. }
      destruct (Hfrom _ _ Hmapped) as [[]|(v & _ & Hp)].
      exact (parse_step_filed k v (Some sd) sd Hp eq_refl).
    + apply parse_edges_length in Hedges. rewrite length_map in Hedges. exact Hedges.
Qed.

Lemma loaded_manifest_is_well_formed_witness :
  let m := Fixtures.manifest_of Fixtures.HAPPY_PATH_MANIFEST in
  truthy (Manifest.name m) = true
  /\ Manifest.entry_step m <> EmptyString
  /\ is_Some (dict_get (Manifest.steps m) (Manifest.entry_step m))
  /\ List.NoDup (dict_keys (Manifest.steps m))
  /\ (forall k, In k (dict_keys (Manifest.steps m))
                <-> In k (dict_keys (raw_steps Fixtures.HAPPY_PATH_MANIFEST)))
  /\ Forall filed (Manifest.steps m)
  /\ length (Manifest.edges m) = length (raw_edges Fixtures.HAPPY_PATH_MANIFEST).
Proof.
  intros m. apply (loaded_manifest_is_well_formed Fixtures.HAPPY_PATH_MANIFEST m).
  reflexivity.
Defined.

(** ** The edges of a loaded manifest *)

Lemma parse_edge_stands_for edge_data e :
  parse_edge edge_data = inr (Some e) -> stands_for edge_data e.
Proof.
  unfold parse_edge, dict_item. destruct edge_data as [| | | | |d]; try discriminate.
  destruct (dict_get d "from") as [f|] eqn:Ef; [|discriminate].
  destruct (dict_get d "to") as [t|] eqn:Et; [|discriminate].
  destruct f as [| | |f| |]; cbn [as_str]; try discriminate.
  destruct t as [| | |t| |]; cbn [as_str]; try discriminate.
  destruct (default (PStr "on_pass") (dict_get d "condition")) as [| | |c| |] eqn:Ec;
    cbn [as_str]; try discriminate.
  intros [= <-]. exists d. cbn [from_step to_step condition]. auto.
Qed.

Lemma parse_edges_stand_for es : forall edges,
  parse_edges es = inr (map Some edges) -> Forall2 stands_for es edges.
Proof.
  induction es as [|x es IH]; intros edges; cbn [parse_edges].
  - destruct edges; [constructor | discriminate].
  - destruct (parse_edge x) as [|ed] eqn:Ex; [discriminate|].
    destruct (parse_edges es) as [|eds] eqn:Ees; [discriminate|].
    destruct edges as [|e edges]; cbn [map]; [discriminate|].
    intros [= -> ->]. constructor; [exact (parse_edge_stands_for _ _ Ex) | exact (IH _ eq_refl)].
Qed.

(** X10.  The edges of a loaded manifest are those of the document,
    one for one and in the same order: each carries the "from" and the
    "to" of its mapping as they are written, and its "condition", or
    "on_pass" when the mapping has none. *)
Theorem loaded_edges_mirror_document (raw : list (string * pyval)) (m : Manifest.t) :
  from_dict raw = Loaded m ->
  Forall2 stands_for (raw_edges raw) (Manifest.edges m).
Proof.
  unfold from_dict. intros H.
  destruct (parse_loaded raw m H)
    as (entry & items & steps & edges & _ & _ & _ & _ & _ & _ & _ & Hedges & _).
  exact (parse_edges_stand_for _ _ Hedges).
Qed.

Lemma loaded_edges_mirror_document_witness :
  Forall2 stands_for
    [ PDict [("from", PStr "intake"); ("to", PStr "extract")];
      PDict [("from", PStr "extract"); ("to", PStr "__end__"); ("condition", PStr "on_fail")] ]
    [ mkEdge "intake" "extract" "on_pass"; mkEdge "extract" "__end__" "on_fail" ].
Proof.
  exact (loaded_edges_mirror_document
           [ ("name", PStr "w"); ("entry_step", PStr "intake");
             ("steps", PDict [("intake", PDict [("agent", PStr "a")])]);
             ("edges", PList
                [ PDict [("from", PStr "intake"); ("to", PStr "extract")];
                  PDict [("from", PStr "extract"); ("to", PStr "__end__");
                         ("condition", PStr "on_fail")] ]) ]
           (Manifest.mk (PStr "w") (PStr EmptyString) (PStr "1.0") "intake"
              [("intake", mkStepDefinition "intake" "a" [] [] [] (mkRetryPolicy 2))]
              [ mkEdge "intake" "extract" "on_pass"; mkEdge "extract" "__end__" "on_fail" ]
              (PDict []) (PDict []))
           eq_refl).
Defined.

(** ** The defaults of a step *)

Lemma py_get_default_setting d section k dflt v :
  py_get_default (default (PDict []) (dict_get d section)) k dflt = inr v ->
  v = default dflt (step_setting d section k).
Proof.
  unfold step_setting. destruct (dict_get d section) as [[| | | | |inner]|];
    cbn [default from_option id py_get_default]; try discriminate.
  - intros [= <-]. reflexivity.
  - intros [= <-]. reflexivity.
Qed.

Lemma parse_step_fields k d sd :
  parse_step k (PDict d) = inr (Some sd) ->
  dict_get d "agent" = Some (PStr (agent_name sd))
  /\ as_strs (default (PList []) (step_setting d "specs" "pre")) = Some (pre_specs sd)
  /\ as_strs (default (PList []) (step_setting d "specs" "post")) = Some (post_specs sd)
  /\ as_strs (default (PList []) (step_setting d "specs" "invariant"))
     = Some (invariant_specs sd)
  /\ as_int (default (PInt 2) (step_setting d "retry" "max_attempts"))
     = Some (max_attempts (retry sd)).
Proof.
  unfold parse_step.
  destruct (negb (truthy (default PNone (dict_get d "agent")))); [discriminate|].
  destruct (py_get_default _ "pre" _) as [|pre] eqn:Epre; [discriminate|].
  destruct (py_get_default _ "post" _) as [|post] eqn:Epost; [discriminate|].
  destruct (py_get_default _ "invariant" _) as [|inv] eqn:Einv; [discriminate|].
  destruct (py_get_default _ "max_attempts" _) as [|att] eqn:Eatt; [discriminate|].
  apply py_get_default_setting in Epre, Epost, Einv, Eatt. subst pre post inv att.
  destruct (dict_get d "agent") as [[| | |a| |]|]; cbn [default from_option id as_str];
    try discriminate.
  destruct (as_strs (default (PList []) (step_setting d "specs" "pre"))); [|discriminate].
  destruct (as_strs (default (PList []) (step_setting d "specs" "post"))); [|discriminate].
  destruct (as_strs (default (PList []) (step_setting d "specs" "invariant")));
    [|discriminate].
  destruct (as_int (default (PInt 2) (step_setting d "retry" "max_attempts")));
    [|discriminate].
  intros [= <-]. cbn. auto 10.
Qed.

Lemma In_same_key {A} (d : list (string * A)) k v v' :
  List.NoDup (dict_keys d) -> In (k, v) d -> In (k, v') d -> v = v'.
Proof.
  intros Hnd H H'. apply (dict_get_of_In d k v Hnd) in H.
  apply (dict_get_of_In d k v' Hnd) in H'. congruence.
Qed.

(** X11.  A step of a loaded manifest holds what its mapping in the
    document says, and the defaults for what the mapping leaves out:
    no pre-, post- or invariant specs, and two attempts. *)
Theorem loaded_steps_take_defaults
    (raw : list (string * pyval)) (m : Manifest.t) (k : string) (d : list (string * pyval)) :
  from_dict raw = Loaded m ->
  List.NoDup (dict_keys (raw_steps raw)) ->
  dict_get (raw_steps raw) k = Some (PDict d) ->
  exists sd,
    dict_get (Manifest.steps m) k = Some sd
    /\ name sd = k
    /\ dict_get d "agent" = Some (PStr (agent_name sd))
    /\ as_strs (default (PList []) (step_setting d "specs" "pre")) = Some (pre_specs sd)
    /\ as_strs (default (PList []) (step_setting d "specs" "post")) = Some (post_specs sd)
    /\ as_strs (default (PList []) (step_setting d "specs" "invariant"))
       = Some (invariant_specs sd)
    /\ as_int (default (PInt 2) (step_setting d "retry" "max_attempts"))
       = Some (max_attempts (retry sd)).
Proof.
  unfold from_dict. intros H Hnd Hk.
  destruct (parse_loaded raw m H)
    as (entry & items & steps & edges & _ & _ & _ & Hitems & _ & Hsteps & _ & _ & -> & _ & _).
  unfold raw_steps in Hnd, Hk. rewrite Hitems in Hnd, Hk.
  destruct (parse_steps_keys _ _ _ Hsteps) as (Hkeys & Hnodup & Hfrom).
  assert (Hmk : dict_keys (map (fun kv : string * StepDefinition => (fst kv, Some (snd kv)))
                             (Manifest.steps m))
                = dict_keys (Manifest.steps m)).
  { unfold dict_keys. rewrite map_map. reflexivity. }
  rewrite Hmk in Hkeys, Hnodup.
  assert (Hin : In k (dict_keys (Manifest.steps m))).
  { apply Hkeys. right. apply dict_get_is_Some. eexists. exact Hk. }
  apply dict_get_is_Some in Hin as [sd Hsd]. exists sd. split; [exact Hsd|].
  assert (Hmapped : In (k, Some sd)
            (map (fun kv : string * StepDefinition => (fst kv, Some (snd kv)))
               (Manifest.steps m))).
  { apply in_map_iff. exists (k, sd). split; [reflexivity | exact (dict_get_In _ _ _ Hsd)]. }
  destruct (Hfrom _ _ Hmapped) as [[]|(v & Hv & Hp)].
  assert (v = PDict d) as -> by exact (In_same_key _ _ _ _ Hnd Hv (dict_get_In _ _ _ Hk)).
  split; [exact (proj1 (parse_step_filed _ _ _ sd Hp eq_refl))|].
  exact (parse_step_fields k d sd Hp).
Qed.

Lemma loaded_steps_take_defaults_witness :
  exists sd,
    dict_get (Manifest.steps (Fixtures.manifest_of (Scenarios.dangling "nowhere"))) "only"
    = Some sd
    /\ name sd = "only"
    /\ agent_name sd = "mock_failing"
    /\ pre_specs sd = [] /\ post_specs sd = [] /\ invariant_specs sd = []
    /\ max_attempts (retry sd) = 2.
Proof.
  destruct (loaded_steps_take_defaults (Scenarios.dangling "nowhere")
              (Fixtures.manifest_of (Scenarios.dangling "nowhere"))
              "only" [("agent", PStr "mock_failing")])
    as (sd & Hsd & Hname & Hagent & Hpre & Hpost & Hinv & Hatt).
  - reflexivity.
  - constructor; [intros [] | constructor].
  - reflexivity.
  - exists sd. split; [exact Hsd|]. split; [exact Hname|].
    cbn in Hagent, Hpre, Hpost, Hinv, Hatt.
    injection Hagent as Hagent. injection Hpre as Hpre. injection Hpost as Hpost.
    injection Hinv as Hinv. injection Hatt as Hatt. auto 10.
Defined.

(** ** An edge without its ends *)

Lemma parse_edges_missing_end es d after :
  dict_get d "from" = None \/ dict_get d "to" = None ->
  parse_edges (map raw_edge es ++ PDict d :: after)
  = inl (KeyError (match dict_get d "from" with None => "from" | Some _ => "to" end)).
Proof.
  intros Hd. induction es as [|[f t c] es IH].
  - cbn [map app parse_edges parse_edge]. unfold dict_item.
    destruct (dict_get d "from") as [f|]; [|reflexivity].
    destruct Hd as [Hd|Hd]; [discriminate|]. rewrite Hd. reflexivity.
  - cbn [map app parse_edges]. rewrite IH. reflexivity.
Qed.

(** X12.  An edge mapping that lacks its "from" or its "to" makes
    loading fail with a [KeyError] for the missing key, not with a
    [ManifestError]: take a manifest that loads and put, after any
    well-formed edges, such a mapping among its edges. *)
Theorem edge_without_end_raises_key_error
    (raw : list (string * pyval)) (m : Manifest.t) (es : list Edge)
    (d : list (string * pyval)) (after : list pyval) :
  from_dict raw = Loaded m ->
  dict_get d "from" = None \/ dict_get d "to" = None ->
  from_dict (dict_set raw "edges" (PList (map raw_edge es ++ PDict d :: after)))
  = Raised (KeyError (match dict_get d "from" with None => "from" | Some _ => "to" end)).
Proof.
  unfold from_dict, _parse. intros H Hd. revert H. rewrite dict_get_set_eq.
  rewrite !dict_get_set_ne by discriminate.
  cbn [from_option id py_iter].
  destruct (truthy (default PNone (dict_get raw "name"))); cbn [negb]; [|discriminate].
  destruct (truthy (default PNone (dict_get raw "entry_step"))); cbn [negb]; [|discriminate].
  destruct (truthy (default (PDict []) (dict_get raw "steps"))); cbn [negb]; [|discriminate].
  destruct (default (PDict []) (dict_get raw "steps")); try discriminate.
  destruct (parse_steps d0 []) as [e|steps]; [discriminate|].
  destruct (entry_missing _ steps) as [e|[]]; try discriminate.
  intros _. rewrite (parse_edges_missing_end es d after Hd). reflexivity.
Qed.

Lemma edge_without_end_raises_key_error_witness :
  from_dict (dict_set Fixtures.HAPPY_PATH_MANIFEST "edges"
               (PList (map raw_edge [mkEdge "intake" "extract" "on_pass"]
                       ++ PDict [("from", PStr "extract")] :: [])))
  = Raised (KeyError "to").
Proof.
  apply (edge_without_end_raises_key_error Fixtures.HAPPY_PATH_MANIFEST
           (Fixtures.manifest_of Fixtures.HAPPY_PATH_MANIFEST)
           [mkEdge "intake" "extract" "on_pass"] [("from", PStr "extract")] []).
  - reflexivity.
  - right. reflexivity.
Defined.


(** ** The agent registry *)

Lemma dict_keys_set_list {A} (d : list (string * A)) k v :
  dict_keys (dict_set d k v)
  = if existsb (String.eqb k) (dict_keys d) then dict_keys d else dict_keys d ++ [k].
Proof.
  induction d as [|[k' v'] d IH]; cbn [dict_set dict_keys map fst existsb app].
  - reflexivity.
  - rewrite (String.eqb_sym k k'). destruct (String.eqb_spec k' k) as [->|Hne]; cbn [orb].
    + reflexivity.
    + cbn [dict_keys map fst]. fold (dict_keys (dict_set d k v)). fold (dict_keys d).
      rewrite IH. destruct (existsb (String.eqb k) (dict_keys d)); reflexivity.
Qed.

(** X13.  Registering an agent under a name makes [get_agent] return
    it for that name, whatever was registered under the name before,
    and changes the answer for no other registered name; the name
    keeps its place among [list_agents] when it was there, and comes
    last when it is new, so that no name is ever listed twice. *)
Theorem register_agent_then_get
    (registry : list (string * Agent)) (agent : string) (cls : Agent) :
  get_agent (register_agent agent cls registry) agent = inr cls
  /\ (forall other found, other <> agent ->
        get_agent registry other = inr found ->
        get_agent (register_agent agent cls registry) other = inr found)
  /\ list_agents (register_agent agent cls registry)
     = (if existsb (String.eqb agent) (list_agents registry)
        then list_agents registry else list_agents registry ++ [agent])
  /\ (List.NoDup (list_agents registry) ->
      List.NoDup (list_agents (register_agent agent cls registry))).
Proof.
  unfold register_agent, list_agents, get_agent. split; [|split; [|split]].
  - rewrite dict_get_set_eq. reflexivity.
  - intros other found Hne. rewrite dict_get_set_ne by congruence.
    destruct (dict_get registry other); [intros H; exact H | discriminate].
  - apply dict_keys_set_list.
  - apply NoDup_dict_set.
Qed.

(** ** Every way through an attempt *)

Section Outcomes.

Variable registry : list (string * Agent).

Lemma execute_caught sd attempt st e a :
  attempt_body registry sd
    (mkAtt st (StepAttempt.mk (name sd) (agent_name sd) attempt StepStatus.RUNNING
                 [] [] [] ∅ ∅ EmptyString None))
  = (inl e, a) ->
  _execute_step_attempt registry sd attempt st = caught e (result a) (store a).
Proof.
  intros H. unfold _execute_step_attempt, caught, failed_with. rewrite H.
  destruct (is_fatal e); reflexivity.
Qed.

Lemma pre_stage_raises sd a e :
  fst (evaluate_specs (pre_specs sd) (context (store a))) = inl e ->
  pre_stage sd a = (inl e, a).
Proof.
  intros H. unfold pre_stage. destruct (pre_specs sd) as [|n rest] eqn:E; [discriminate H|].
  cbn [nonempty]. unfold bind at 1. rewrite on_context_evaluate, H. reflexivity.
Qed.

Lemma post_stage_raises sd a e :
  fst (evaluate_specs (post_specs sd) (context (store a))) = inl e ->
  post_stage sd a = (inl e, a).
Proof.
  intros H. unfold post_stage. destruct (post_specs sd) as [|n rest] eqn:E; [discriminate H|].
  cbn [nonempty]. unfold bind at 1. rewrite on_context_evaluate, H. reflexivity.
Qed.

Lemma invariant_stage_raises sd a e :
  fst (evaluate_specs (invariant_specs sd) (context (store a))) = inl e ->
  invariant_stage sd a = (inl e, a).
Proof.
  intros H. unfold invariant_stage.
  destruct (invariant_specs sd) as [|n rest] eqn:E; [discriminate H|].
  cbn [nonempty]. unfold bind at 1. rewrite on_context_evaluate, H. reflexivity.
Qed.

Lemma invariant_stage_passes sd a rs :
  fst (evaluate_specs (invariant_specs sd) (context (store a))) = inr rs ->
  all_passed rs = true ->
  invariant_stage sd a
  = (inr true,
     if nonempty (invariant_specs sd)
     then mkAtt (store a) (StepAttempt.set_invariant_results rs (result a)) else a).
Proof.
  intros Hrs Hpass. unfold invariant_stage.
  destruct (nonempty (invariant_specs sd)); [|reflexivity].
  unfold bind at 1. rewrite on_context_evaluate, Hrs.
  unfold bind, update_result, ret. simpl. rewrite Hpass. reflexivity.
Qed.

(** The pre-specs raise: the attempt stops before anything is stored. *)
Lemma execute_pre_raises sd attempt st e :
  fst (evaluate_specs (pre_specs sd) (context st)) = inl e ->
  _execute_step_attempt registry sd attempt st
  = caught e (StepAttempt.mk (name sd) (agent_name sd) attempt StepStatus.RUNNING
                [] [] [] (data (context st)) ∅ EmptyString None) st.
Proof.
  intros H.
  rewrite (execute_caught sd attempt st e
             (mkAtt st (StepAttempt.mk (name sd) (agent_name sd) attempt StepStatus.RUNNING
                          [] [] [] (data (context st)) ∅ EmptyString None)));
    [reflexivity|].
  unfold attempt_body.
  unfold bind at 1, get_context. cbn [store context].
  unfold bind at 1, update_result at 1. cbn [store result].
  unfold bind at 1. rewrite (pre_stage_raises sd (mkAtt st _) e H). reflexivity.
Qed.

(** Past the pre-specs, an attempt is the rest of its body started
    on the record that holds their results. *)
Lemma attempt_body_after_pre sd attempt st pre :
  fst (evaluate_specs (pre_specs sd) (context st)) = inr pre ->
  all_passed pre = true ->
  attempt_body registry sd
    (mkAtt st (StepAttempt.mk (name sd) (agent_name sd) attempt StepStatus.RUNNING
                 [] [] [] ∅ ∅ EmptyString None))
  = (let* _ := agent_stage registry sd in
     let* go := post_stage sd in
     if negb go then ret tt else
     let* go := invariant_stage sd in
     if negb go then ret tt else
     update_result (StepAttempt.set_status StepStatus.PASSED))
      (mkAtt st (before_agent sd attempt (context st) pre)).
Proof.
  intros Hrs Hpass. unfold attempt_body.
  unfold bind at 1, get_context. cbn [store context].
  unfold bind at 1, update_result at 1. cbn [store result].
  unfold bind at 1.
  rewrite (pre_stage_passes sd (mkAtt st _) pre Hrs Hpass). cbn [negb].
  unfold before_agent, snapshot_data.
  destruct (pre_specs sd) as [|n rest] eqn:E; cbn [nonempty].
  - cbn in Hrs. injection Hrs as <-. reflexivity.
  - reflexivity.
Qed.

(** The agent is not registered. *)
Lemma execute_unknown_agent sd attempt st pre :
  fst (evaluate_specs (pre_specs sd) (context st)) = inr pre ->
  all_passed pre = true ->
  dict_get registry (agent_name sd) = None ->
  _execute_step_attempt registry sd attempt st
  = (inr (failed_with
            (ValueError ("Unknown agent: '" +:+ agent_name sd +:+ "'. Available: "
                         +:+ repr (PList (map PStr (dict_keys registry)))))
            (before_agent sd attempt (context st) pre)),
     st).
Proof.
  intros Hrs Hpass Hag.
  rewrite (execute_caught sd attempt st
             (ValueError ("Unknown agent: '" +:+ agent_name sd +:+ "'. Available: "
                          +:+ repr (PList (map PStr (dict_keys registry)))))
             (mkAtt st (before_agent sd attempt (context st) pre))); [reflexivity|].
  rewrite (attempt_body_after_pre sd attempt st pre Hrs Hpass).
  unfold bind at 1, agent_stage. unfold bind at 1, lift, get_agent. rewrite Hag. reflexivity.
Qed.

(** The agent raises, leaving the context [c']. *)
Lemma execute_agent_raises sd attempt st pre ag e c' :
  fst (evaluate_specs (pre_specs sd) (context st)) = inr pre ->
  all_passed pre = true ->
  get_agent registry (agent_name sd) = inr ag ->
  ag (context st) = (inl e, c') ->
  _execute_step_attempt registry sd attempt st
  = caught e (before_agent sd attempt (context st) pre) (store_after_agent sd st c').
Proof.
  intros Hrs Hpass Hag Hrun.
  rewrite (execute_caught sd attempt st e
             (mkAtt (store_after_agent sd st c') (before_agent sd attempt (context st) pre)));
    [reflexivity|].
  rewrite (attempt_body_after_pre sd attempt st pre Hrs Hpass).
  unfold bind at 1, agent_stage. unfold bind at 1, lift. rewrite Hag.
  unfold bind at 1, get_context.
  unfold bind at 1, execute_agent. cbn [store context]. rewrite Hrun. reflexivity.
Qed.

(** The agent returns, and saving one of its traces raises. *)
Lemma execute_trace_raises sd attempt st pre ag e c' :
  fst (evaluate_specs (pre_specs sd) (context st)) = inr pre ->
  all_passed pre = true ->
  get_agent registry (agent_name sd) = inr ag ->
  ag (context st) = (inr tt, c') ->
  save_traces (drop (length (trace (context st))) (trace c')) = inl e ->
  _execute_step_attempt registry sd attempt st
  = caught e (before_agent sd attempt (context st) pre) (store_after_agent sd st c').
Proof.
  intros Hrs Hpass Hag Hrun Htr.
  rewrite (execute_caught sd attempt st e
             (mkAtt (store_after_agent sd st c') (before_agent sd attempt (context st) pre)));
    [reflexivity|].
  rewrite (attempt_body_after_pre sd attempt st pre Hrs Hpass).
  unfold bind at 1, agent_stage. unfold bind at 1, lift. rewrite Hag.
  unfold bind at 1, get_context.
  unfold bind at 1, execute_agent. cbn [store context]. rewrite Hrun.
  unfold bind at 1. cbn [store context].
  unfold bind at 1. rewrite Htr. reflexivity.
Qed.

Lemma after_agent_before sd attempt c c' pre :
  fst (evaluate_specs (pre_specs sd) c) = inr pre ->
  after_agent sd attempt c c'
  = StepAttempt.set_context_after (snapshot_data c') (before_agent sd attempt c pre).
Proof. intros H. unfold after_agent, before_agent, pre_results_of. rewrite H. reflexivity. Qed.

(** The post-specs raise. *)
Lemma execute_post_raises sd attempt st c' e :
  agent_ran registry sd (context st) c' ->
  fst (evaluate_specs (post_specs sd) c') = inl e ->
  _execute_step_attempt registry sd attempt st
  = caught e (after_agent sd attempt (context st) c') (store_after_agent sd st c').
Proof.
  intros Hran He.
  rewrite (execute_caught sd attempt st e
             (mkAtt (store_after_agent sd st c') (after_agent sd attempt (context st) c')));
    [reflexivity|].
  rewrite (attempt_body_after_agent registry sd attempt st c' Hran).
  unfold bind at 1.
  rewrite (post_stage_raises sd
             (mkAtt (store_after_agent sd st c') (after_agent sd attempt (context st) c'))
             e He).
  reflexivity.
Qed.

(** The invariant specs raise. *)
Lemma execute_invariant_raises sd attempt st c' post e :
  agent_ran registry sd (context st) c' ->
  fst (evaluate_specs (post_specs sd) c') = inr post -> all_passed post = true ->
  fst (evaluate_specs (invariant_specs sd) c') = inl e ->
  _execute_step_attempt registry sd attempt st
  = caught e (StepAttempt.set_post_results post (after_agent sd attempt (context st) c'))
      (store_after_agent sd st c').
Proof.
  intros Hran Hpost Hpass He.
  rewrite (execute_caught sd attempt st e
             (mkAtt (store_after_agent sd st c')
                (StepAttempt.set_post_results post
                   (after_agent sd attempt (context st) c'))));
    [reflexivity|].
  rewrite (attempt_body_after_agent registry sd attempt st c' Hran).
  unfold bind at 1.
  rewrite (post_stage_passes sd (mkAtt (store_after_agent sd st c') _) post Hpost Hpass).
  cbn [negb]. unfold bind at 1.
  destruct (post_specs sd) as [|n rest] eqn:E; cbn [nonempty store result].
  - cbn in Hpost. injection Hpost as <-.
    rewrite (invariant_stage_raises sd
               (mkAtt (store_after_agent sd st c') (after_agent sd attempt (context st) c'))
               e He).
    reflexivity.
  - rewrite (invariant_stage_raises sd
               (mkAtt (store_after_agent sd st c')
                  (StepAttempt.set_post_results post
                     (after_agent sd attempt (context st) c')))
               e He).
    reflexivity.
Qed.

(** Everything passes. *)
Lemma execute_passes sd attempt st c' post inv :
  agent_ran registry sd (context st) c' ->
  fst (evaluate_specs (post_specs sd) c') = inr post -> all_passed post = true ->
  fst (evaluate_specs (invariant_specs sd) c') = inr inv -> all_passed inv = true ->
  _execute_step_attempt registry sd attempt st
  = (inr (StepAttempt.set_status StepStatus.PASSED
            (StepAttempt.set_invariant_results inv
               (StepAttempt.set_post_results post
                  (after_agent sd attempt (context st) c')))),
     store_after_agent sd st c').
Proof.
  intros Hran Hpost Hpass Hinv Hipass. unfold _execute_step_attempt.
  rewrite (attempt_body_after_agent registry sd attempt st c' Hran).
  unfold bind at 1.
  rewrite (post_stage_passes sd (mkAtt (store_after_agent sd st c') _) post Hpost Hpass).
  cbn [negb]. unfold bind at 1.
  assert (Hp : (if nonempty (post_specs sd)
                then mkAtt (store_after_agent sd st c')
                       (StepAttempt.set_post_results post
                          (after_agent sd attempt (context st) c'))
                else mkAtt (store_after_agent sd st c')
                       (after_agent sd attempt (context st) c'))
               = mkAtt (store_after_agent sd st c')
                   (StepAttempt.set_post_results post
                      (after_agent sd attempt (context st) c'))).
  { destruct (post_specs sd) as [|n rest] eqn:E; cbn [nonempty]; [|reflexivity].
    cbn in Hpost. injection Hpost as <-. reflexivity. }
  cbn [store result]. rewrite Hp.
  rewrite (invariant_stage_passes sd (mkAtt (store_after_agent sd st c') _) inv Hinv Hipass).
  cbn [negb]. cbn [store result].
  destruct (invariant_specs sd) as [|n rest] eqn:E; cbn [nonempty].
  - cbn in Hinv. injection Hinv as <-. reflexivity.
  - reflexivity.
Qed.

(** The invariant specs fail. *)
Lemma execute_invariant_fails sd attempt st c' post inv :
  agent_ran registry sd (context st) c' ->
  fst (evaluate_specs (post_specs sd) c') = inr post -> all_passed post = true ->
  fst (evaluate_specs (invariant_specs sd) c') = inr inv -> all_passed inv = false ->
  _execute_step_attempt registry sd attempt st
  = (inr (StepAttempt.set_error (Some ("Invariant failed: " +:+ error_msg (failed_of inv)))
            (StepAttempt.set_status StepStatus.FAILED
               (StepAttempt.set_invariant_results inv
                  (StepAttempt.set_post_results post
                     (after_agent sd attempt (context st) c'))))),
     store_after_agent sd st c').
Proof.
  intros Hran Hpost Hpass Hinv Hfail. unfold _execute_step_attempt.
  rewrite (attempt_body_after_agent registry sd attempt st c' Hran).
  unfold bind at 1.
  rewrite (post_stage_passes sd (mkAtt (store_after_agent sd st c') _) post Hpost Hpass).
  cbn [negb]. unfold bind at 1.
  destruct (post_specs sd) as [|n rest] eqn:E; cbn [nonempty store result].
  - cbn in Hpost. injection Hpost as <-.
    rewrite (invariant_stage_fails sd
               (mkAtt (store_after_agent sd st c') (after_agent sd attempt (context st) c'))
               inv Hinv Hfail).
    reflexivity.
  - rewrite (invariant_stage_fails sd
               (mkAtt (store_after_agent sd st c')
                  (StepAttempt.set_post_results post
                     (after_agent sd attempt (context st) c')))
               inv Hinv Hfail).
    reflexivity.
Qed.

Lemma caught_outcome sd attempt st e r st' :
  belongs sd attempt st r ->
  match caught e r st' with
  | (inr a, _) => belongs sd attempt st a /\ sound a
  | (inl e', _) => is_fatal e' = true
  end.
Proof.
  intros Hb. unfold caught. destruct (is_fatal e) eqn:E; [exact E|].
  split; [exact Hb|]. right. split; [reflexivity|]. eexists. reflexivity.
Qed.

(** Whatever happens in an attempt, the record that comes back says
    it; only a fatal error comes out as an exception. *)
Lemma execute_outcome sd attempt st :
  match _execute_step_attempt registry sd attempt st with
  | (inr a, _) => belongs sd attempt st a /\ sound a
  | (inl e, _) => is_fatal e = true
  end.
Proof.
  destruct (fst (evaluate_specs (pre_specs sd) (context st))) as [e|pre] eqn:Epre.
  { rewrite (execute_pre_raises sd attempt st e Epre).
    apply caught_outcome. repeat split. }
  destruct (all_passed pre) eqn:Hpre.
  2:{ rewrite (execute_pre_failure registry sd attempt st pre Epre Hpre).
      split; [repeat split|]. right. split; [reflexivity|]. eexists. reflexivity. }
  destruct (dict_get registry (agent_name sd)) as [ag|] eqn:Eag.
  2:{ rewrite (execute_unknown_agent sd attempt st pre Epre Hpre Eag).
      split; [repeat split|]. right. split; [reflexivity|]. eexists. reflexivity. }
  assert (Hag : get_agent registry (agent_name sd) = inr ag)
    by (unfold get_agent; rewrite Eag; reflexivity).
  destruct (ag (context st)) as [[e|[]] c'] eqn:Erun.
  { rewrite (execute_agent_raises sd attempt st pre ag e c' Epre Hpre Hag Erun).
    apply caught_outcome. repeat split. }
  destruct (save_traces (drop (length (trace (context st))) (trace c'))) as [e|[]] eqn:Etr.
  { rewrite (execute_trace_raises sd attempt st pre ag e c' Epre Hpre Hag Erun Etr).
    apply caught_outcome. repeat split. }
  assert (Hran : agent_ran registry sd (context st) c').
  { split; [exists pre; split; assumption|]. exists ag. repeat split; assumption. }
  assert (Hb : belongs sd attempt st (after_agent sd attempt (context st) c'))
    by (repeat split).
  destruct (fst (evaluate_specs (post_specs sd) c')) as [e|post] eqn:Epost.
  { rewrite (execute_post_raises sd attempt st c' e Hran Epost).
    apply caught_outcome. exact Hb. }
  destruct (all_passed post) eqn:Hpost.
  2:{ rewrite (execute_post_failure registry sd attempt st c' post
                 (conj Hran (conj Epost Hpost))).
      cbn zeta. case_decide; [reflexivity|].
      split; [repeat split|]. right. split; [reflexivity|]. eexists. reflexivity. }
  destruct (fst (evaluate_specs (invariant_specs sd) c')) as [e|inv] eqn:Einv.
  { rewrite (execute_invariant_raises sd attempt st c' post e Hran Epost Hpost Einv).
    apply caught_outcome. repeat split. }
  destruct (all_passed inv) eqn:Hinv.
  2:{ rewrite (execute_invariant_fails sd attempt st c' post inv Hran Epost Hpost Einv Hinv).
      split; [repeat split|]. right. split; [reflexivity|]. eexists. reflexivity. }
  rewrite (execute_passes sd attempt st c' post inv Hran Epost Hpost Einv Hinv).
  split; [repeat split|]. left.
  cbn. unfold pre_results_of. rewrite Epre. auto 10.
Qed.

End Outcomes.

(** X14.  When the pre-specs pass, the agent returns, its traces are
    saved and the post- and invariant specs pass, the attempt comes
    back Passed: it holds the three lists of results, the data before
    the agent and the data after it, no error and no fingerprint.  The
    agent has been invoked once, and the fingerprints seen are as they
    were. *)
Theorem passed_attempt_record
    (registry : list (string * Agent)) (sd : StepDefinition) (attempt : Z) (st : Store)
    (ag : Agent) (c' : Context) (pre post inv : list SpecResult) :
  fst (evaluate_specs (pre_specs sd) (context st)) = inr pre -> all_passed pre = true ->
  get_agent registry (agent_name sd) = inr ag -> ag (context st) = (inr tt, c') ->
  save_traces (drop (length (trace (context st))) (trace c')) = inr tt ->
  fst (evaluate_specs (post_specs sd) c') = inr post -> all_passed post = true ->
  fst (evaluate_specs (invariant_specs sd) c') = inr inv -> all_passed inv = true ->
  _execute_step_attempt registry sd attempt st
  = (inr (StepAttempt.mk (name sd) (agent_name sd) attempt StepStatus.PASSED
            pre post inv (data (context st)) (data c') EmptyString None),
     mkStore c' (seen_fingerprints st) (invoked st ++ [agent_name sd])).
Proof.
  intros Hpre Hppass Hag Hrun Htr Hpost Hpopass Hinv Hipass.
  assert (Hran : agent_ran registry sd (context st) c').
  { split; [exists pre; split; assumption|]. exists ag. repeat split; assumption. }
  rewrite (execute_passes registry sd attempt st c' post inv Hran Hpost Hpopass Hinv Hipass).
  unfold after_agent, pre_results_of. rewrite Hpre. reflexivity.
Qed.

Lemma passed_attempt_record_witness :
  let sd := mkStepDefinition "intake" "mock_intake" ["intake_pre"] ["intake_post"]
              ["global_invariant"] (mkRetryPolicy 1) in
  let c := Fixtures.test_context Fixtures.default_budgets in
  exists a st',
    _execute_step_attempt Fixtures.registry sd 1 (mkStore c ∅ []) = (inr a, st')
    /\ StepAttempt.status a = StepStatus.PASSED
    /\ map rule_id (StepAttempt.post_results a) = ["intake_post"]
    /\ invoked st' = ["mock_intake"].
Proof.
  intros sd c.
  eexists. eexists. split.
  - apply (passed_attempt_record Fixtures.registry sd 1 (mkStore c ∅ []) Fixtures.mock_intake).
    + vm_compute. reflexivity.
    + reflexivity.
    + reflexivity.
    + reflexivity.
    + reflexivity.
    + vm_compute. reflexivity.
    + reflexivity.
    + vm_compute. reflexivity.
    + reflexivity.
  - repeat split.
Defined.

(** X15.  When the agent raises, the attempt keeps what the agent
    did to the context before it raised.  An exception other than the
    two fatal errors fails the attempt: the record is Failed, its
    error is the text of the exception, and no post-spec is evaluated.
    A [LoopDetectedError] or [BudgetExhaustedError] raised by the
    agent goes on to [run] instead, and no attempt is returned. *)
Theorem agent_exception_fails_attempt
    (registry : list (string * Agent)) (sd : StepDefinition) (attempt : Z) (st : Store)
    (pre : list SpecResult) (ag : Agent) (e : pyexn) (c' : Context) :
  fst (evaluate_specs (pre_specs sd) (context st)) = inr pre -> all_passed pre = true ->
  get_agent registry (agent_name sd) = inr ag -> ag (context st) = (inl e, c') ->
  _execute_step_attempt registry sd attempt st
  = (if is_fatal e then inl e
     else inr (StepAttempt.mk (name sd) (agent_name sd) attempt StepStatus.FAILED
                 pre [] [] (data (context st)) ∅ EmptyString (Some (exn_str e))),
     mkStore c' (seen_fingerprints st) (invoked st ++ [agent_name sd])).
Proof.
  intros Hpre Hpass Hag Hrun.
  rewrite (execute_agent_raises registry sd attempt st pre ag e c' Hpre Hpass Hag Hrun).
  unfold caught. destruct (is_fatal e); reflexivity.
Qed.

Lemma agent_exception_fails_attempt_witness :
  let sd := mkStepDefinition "crash" "mock_error" [] [] [] (mkRetryPolicy 1) in
  let c := Fixtures.test_context Fixtures.default_budgets in
  _execute_step_attempt Fixtures.registry sd 1 (mkStore c ∅ [])
  = (inr (StepAttempt.mk "crash" "mock_error" 1 StepStatus.FAILED
            [] [] [] (data c) ∅ EmptyString (Some "Agent crashed!")),
     mkStore c ∅ ["mock_error"]).
Proof.
  intros sd c.
  exact (agent_exception_fails_attempt Fixtures.registry sd 1 (mkStore c ∅ []) []
           Fixtures.mock_error (OtherError "Agent crashed!") c
           eq_refl eq_refl eq_refl eq_refl).
Defined.

(** X16.  A step whose agent is not registered comes back as a
    Failed attempt whose error is the [ValueError] of [get_agent],
    with the names that are registered; nothing is invoked and the
    store is left as it was. *)
Theorem unknown_agent_fails_attempt
    (registry : list (string * Agent)) (sd : StepDefinition) (attempt : Z) (st : Store)
    (pre : list SpecResult) :
  fst (evaluate_specs (pre_specs sd) (context st)) = inr pre -> all_passed pre = true ->
  dict_get registry (agent_name sd) = None ->
  _execute_step_attempt registry sd attempt st
  = (inr (StepAttempt.mk (name sd) (agent_name sd) attempt StepStatus.FAILED
            pre [] [] (data (context st)) ∅ EmptyString
            (Some ("Unknown agent: '" +:+ agent_name sd +:+ "'. Available: "
                   +:+ repr (PList (map PStr (dict_keys registry)))))),
     st).
Proof. exact (execute_unknown_agent registry sd attempt st pre). Qed.

Lemma unknown_agent_fails_attempt_witness :
  let sd := mkStepDefinition "extract" "mock_extract" [] [] [] (mkRetryPolicy 1) in
  let st := mkStore (Fixtures.test_context Fixtures.default_budgets) ∅ [] in
  _execute_step_attempt Fixtures.registry sd 1 st
  = (inr (StepAttempt.mk "extract" "mock_extract" 1 StepStatus.FAILED
            [] [] [] (data (context st)) ∅ EmptyString
            (Some ("Unknown agent: 'mock_extract'. Available: "
                   +:+ "['mock_intake', 'mock_write', 'mock_failing', 'mock_error']"))),
     st).
Proof.
  intros sd st.
  exact (unknown_agent_fails_attempt Fixtures.registry sd 1 st [] eq_refl eq_refl eq_refl).
Defined.

(** X17.  A pre-spec name the registry does not know fails the
    attempt, it does not stop the run: the record is Failed, it holds
    no result (not even those of the specs before the unknown one),
    its error is the [KeyError] as [str] prints it, that is the message
    of [get_spec] in quotes, and the agent is not invoked. *)
Theorem unknown_pre_spec_fails_attempt
    (registry : list (string * Agent)) (sd : StepDefinition) (attempt : Z) (st : Store)
    (before : list string) (n : string) (after : list string) :
  pre_specs sd = before ++ n :: after ->
  Forall registered before -> ~ registered n -> conventional (context st) = true ->
  _execute_step_attempt registry sd attempt st
  = (inr (StepAttempt.mk (name sd) (agent_name sd) attempt StepStatus.FAILED
            [] [] [] (data (context st)) ∅ EmptyString
            (Some (repr_str
                     ("Unknown spec: '" +:+ n +:+ "'. Available: "
                      +:+ "['intake_pre', 'intake_post', 'extract_pre', 'extract_post', "
                      +:+ "'write_pre', 'write_post', 'global_invariant', "
                      +:+ "'pipeline_progress']")))),
     st).
Proof.
  intros Hspecs Hreg Hn Hc.
  rewrite (execute_pre_raises registry sd attempt st
             (KeyError ("Unknown spec: '" +:+ n +:+ "'. Available: "
                        +:+ "['intake_pre', 'intake_post', 'extract_pre', 'extract_post', "
                        +:+ "'write_pre', 'write_post', 'global_invariant', "
                        +:+ "'pipeline_progress']"))).
  - reflexivity.
  - rewrite Hspecs, (evaluate_specs_unknown before n after (context st) Hreg Hn Hc).
    reflexivity.
Qed.

Lemma unknown_pre_spec_fails_attempt_witness :
  let sd := mkStepDefinition "intake" "mock_intake" ["intake_pre"; "intake_pr"] [] []
              (mkRetryPolicy 1) in
  let st := mkStore (Fixtures.test_context Fixtures.default_budgets) ∅ [] in
  exists a,
    _execute_step_attempt Fixtures.registry sd 1 st = (inr a, st)
    /\ StepAttempt.status a = StepStatus.FAILED
    /\ StepAttempt.pre_results a = []
    /\ StepAttempt.error a
       = Some (String (ascii_of_nat 34)
                 ("Unknown spec: 'intake_pr'. Available: "
                  +:+ "['intake_pre', 'intake_post', 'extract_pre', 'extract_post', "
                  +:+ "'write_pre', 'write_post', 'global_invariant', "
                  +:+ "'pipeline_progress']") +:+ dq).
Proof.
  intros sd st. eexists. split.
  - apply (unknown_pre_spec_fails_attempt Fixtures.registry sd 1 st
             ["intake_pre"] "intake_pr" []).
    + reflexivity.
    + constructor; [|constructor]. eexists. reflexivity.
    + intros [fn H]. discriminate H.
    + reflexivity.
  - repeat split.
Defined.

(** X18.  Whatever the step, the registry and the store, an attempt
    either comes back as a record or raises one of the two fatal
    errors.  The record carries the step, the agent and the number of
    the attempt and the data it started on, and its status tells what
    happened: it is Passed only when every result it holds passed, and
    then it has no error and no fingerprint; otherwise it is Failed and
    has an error.  It is never left Running or Pending. *)
Theorem attempt_says_what_happened
    (registry : list (string * Agent)) (sd : StepDefinition) (attempt : Z) (st : Store) :
  match _execute_step_attempt registry sd attempt st with
  | (inr a, _) =>
      (StepAttempt.step_id a = name sd
       /\ StepAttempt.agent_id a = agent_name sd
       /\ StepAttempt.attempt a = attempt
       /\ StepAttempt.context_before a = data (context st))
      /\ ((StepAttempt.status a = StepStatus.PASSED
           /\ StepAttempt.error a = None
           /\ StepAttempt.fingerprint a = EmptyString
           /\ all_passed (StepAttempt.pre_results a) = true
           /\ all_passed (StepAttempt.post_results a) = true
           /\ all_passed (StepAttempt.invariant_results a) = true)
          \/ (StepAttempt.status a = StepStatus.FAILED
              /\ exists msg, StepAttempt.error a = Some msg))
  | (inl e, _) => is_fatal e = true
  end.
Proof. exact (execute_outcome registry sd attempt st). Qed.

(** ** The attempts of one visit to a step *)

Lemma with_attempts_cons a new r :
  with_attempts (a :: new) r = with_attempts new (RunRecord.append_step a r).
Proof. reflexivity. Qed.

Lemma steps_with_attempts new : forall r,
  RunRecord.steps (with_attempts new r) = RunRecord.steps r ++ new.
Proof.
  induction new as [|a new IH]; intros r; cbn [with_attempts fold_left].
  - rewrite app_nil_r. reflexivity.
  - fold (with_attempts new (RunRecord.append_step a r)). rewrite IH.
    cbn [RunRecord.append_step RunRecord.steps]. rewrite <- app_assoc. reflexivity.
Qed.

Lemma numbered_cons attempt n : numbered attempt (S n) = attempt :: numbered (attempt + 1) n.
Proof.
  unfold numbered. cbn [seq map]. f_equal; [lia|].
  rewrite <- seq_shift, map_map. apply map_ext. intros i. lia.
Qed.

Section Visit.

Variable registry : list (string * Agent).
Variable on_step_update : option (StepAttempt.t -> option pyexn).

(** The callback raises on the attempt it is shown. *)
Lemma attempt_loop_callback_raises n attempt sd cur s a st' callback e :
  on_step_update = Some callback ->
  _execute_step_attempt registry sd attempt (run_store s) = (inr a, st') ->
  callback a = Some e ->
  attempt_loop registry on_step_update (S n) attempt sd cur s
  = (inl e, mkRunState st' (completed_steps s) (RunRecord.append_step a (record s))).
Proof.
  intros Hcb Hex He. cbn [attempt_loop]. unfold bind at 1, on_store. rewrite Hex.
  unfold bind at 1, append_attempt. cbn [run_store completed_steps record].
  unfold bind at 1, notify. rewrite Hcb, He. reflexivity.
Qed.

Lemma attempt_loop_attempts sd cur n : forall attempt s,
  exists new,
    record (snd (attempt_loop registry on_step_update n attempt sd cur s))
    = with_attempts new (record s)
    /\ (length new <= n)%nat
    /\ map StepAttempt.attempt new = numbered attempt (length new)
    /\ Forall (fun a => StepAttempt.step_id a = name sd
                        /\ StepAttempt.agent_id a = agent_name sd) new
    /\ visit_ends n (fst (attempt_loop registry on_step_update n attempt sd cur s)) new.
Proof.
  induction n as [|n IH]; intros attempt s.
  - exists []. split; [reflexivity|]. split; [cbn; lia|]. split; [reflexivity|].
    split; [apply List.Forall_nil|]. split; [reflexivity | apply List.Forall_nil].
  - pose proof (execute_outcome registry sd attempt (run_store s)) as Hout.
    destruct (_execute_step_attempt registry sd attempt (run_store s)) as [[e|a] st1] eqn:Hex.
    { rewrite (attempt_loop_raised registry on_step_update n attempt sd cur s e st1 Hex).
      exists []. split; [reflexivity|]. split; [cbn; lia|]. split; [reflexivity|].
      split; [apply List.Forall_nil | exact I]. }
    destruct Hout as [(Hid & Hag & Hnum & _) Hsound].
    assert (Hone : Forall (fun a0 => StepAttempt.step_id a0 = name sd
                                     /\ StepAttempt.agent_id a0 = agent_name sd) [a]).
    { apply List.Forall_cons; [split; assumption | apply List.Forall_nil]. }
    assert (Hnum1 : map StepAttempt.attempt [a] = numbered attempt 1).
    { cbn. rewrite Hnum. f_equal. lia. }
    assert (Hq : quiet on_step_update a
                 \/ exists callback e, on_step_update = Some callback /\ callback a = Some e).
    { unfold quiet. destruct on_step_update as [callback|]; [|left; exact I].
      destruct (callback a) as [e|] eqn:E; [right; eauto | left; reflexivity]. }
    destruct Hq as [Hq|(callback & e & Hcb & He)].
    2:{ rewrite (attempt_loop_callback_raises n attempt sd cur s a st1 callback e Hcb Hex He).
        exists [a]. split; [reflexivity|]. split; [cbn; lia|]. split; [exact Hnum1|].
        split; [exact Hone | exact I]. }
    destruct Hsound as [(Hp & _)|(Hf & _)].
    { rewrite (attempt_loop_passed registry on_step_update n attempt sd cur s a st1 Hex Hp Hq).
      exists [a]. split; [reflexivity|]. split; [cbn; lia|]. split; [exact Hnum1|].
      split; [exact Hone|]. exists [], a. split; [reflexivity|].
      split; [exact Hp | apply List.Forall_nil]. }
    assert (Hstep : exists st2,
              attempt_loop registry on_step_update (S n) attempt sd cur s
              = attempt_loop registry on_step_update n (attempt + 1) sd cur
                  (mkRunState st2 (completed_steps s) (RunRecord.append_step a (record s)))).
    { destruct (Z.lt_ge_cases attempt (max_attempts (retry sd))) as [Hlt|Hge].
      - eexists.
        exact (attempt_loop_retry registry on_step_update n attempt sd cur s a st1
                 Hex Hf Hq Hlt).
      - eexists.
        exact (attempt_loop_last registry on_step_update n attempt sd cur s a st1
                 Hex Hf Hq Hge). }
    destruct Hstep as [st2 ->].
    destruct (IH (attempt + 1)
                (mkRunState st2 (completed_steps s) (RunRecord.append_step a (record s))))
      as (new & Hrec & Hlen & Hnums & Hids & Hend).
    exists (a :: new). split; [|split; [|split; [|split]]].
    + rewrite Hrec. reflexivity.
    + cbn [length]. lia.
    + cbn [map length]. rewrite numbered_cons, Hnum, Hnums. reflexivity.
    + apply List.Forall_cons; [split; assumption | exact Hids].
    + destruct (fst (attempt_loop registry on_step_update n (attempt + 1) sd cur _))
        as [e|[]]; cbn [visit_ends] in *.
      * exact I.
      * destruct Hend as (init & b & -> & Hb & Hinit).
        exists (a :: init), b. split; [reflexivity|]. split; [exact Hb|].
        apply List.Forall_cons; assumption.
      * destruct Hend as [Hl Hall]. split; [cbn [length]; rewrite Hl; reflexivity|].
        apply List.Forall_cons; assumption.
Qed.

End Visit.

(** X19.  One visit to a step appends its attempts to the record and
    touches nothing else in it: at most [n] attempts when [n]
    iterations are left, numbered consecutively from the first number,
    each carrying the step and its agent.  When the step passes, the
    last attempt appended is Passed and all those before it are
    Failed; when it does not, exactly [n] attempts were appended and
    all are Failed. *)
Theorem visit_appends_numbered_attempts
    (registry : list (string * Agent))
    (on_step_update : option (StepAttempt.t -> option pyexn))
    (sd : StepDefinition) (cur : string) (n : nat) (attempt : Z) (s : RunState) :
  exists new,
    record (snd (attempt_loop registry on_step_update n attempt sd cur s))
    = with_attempts new (record s)
    /\ (length new <= n)%nat
    /\ map StepAttempt.attempt new = numbered attempt (length new)
    /\ Forall (fun a => StepAttempt.step_id a = name sd
                        /\ StepAttempt.agent_id a = agent_name sd) new
    /\ visit_ends n (fst (attempt_loop registry on_step_update n attempt sd cur s)) new.
Proof. exact (attempt_loop_attempts registry on_step_update sd cur n attempt s). Qed.

(** ** Edge cases of the walk *)

(** X20.  A step whose retry policy allows no attempt
    ([max_attempts] zero or negative) is not executed: no attempt is
    recorded, no agent is invoked, the state is left as it was, and
    the walk goes on along the edge of a failed step. *)
Theorem step_without_attempts_is_skipped
    (registry : list (string * Agent))
    (on_step_update : option (StepAttempt.t -> option pyexn))
    (manifest : Manifest.t) (fuel : nat) (cur : string) (sd : StepDefinition)
    (s : RunState) :
  continues cur -> dict_get (Manifest.steps manifest) cur = Some sd ->
  check_budget (completed_steps s) (budgets (context (run_store s))) = inr tt ->
  max_attempts (retry sd) <= 0 ->
  run_loop registry on_step_update manifest (S fuel) (Some cur) s
  = run_loop registry on_step_update manifest fuel
      (next_step (Manifest.edges manifest) cur false) s.
Proof.
  intros Hc Hsd Hb Hmax.
  apply (run_loop_step registry on_step_update manifest fuel cur sd s false s Hc Hsd Hb).
  replace (Z.to_nat (max_attempts (retry sd))) with 0%nat by lia. reflexivity.
Qed.

Lemma step_without_attempts_is_skipped_witness :
  let m := Manifest.mk (PStr "w") (PStr EmptyString) (PStr "1.0") "only"
             [("only", mkStepDefinition "only" "mock_intake" [] [] [] (mkRetryPolicy 0))]
             [mkEdge "only" "__end__" "on_pass"] (PDict []) (PDict []) in
  let s := initial_state m (Fixtures.test_context Fixtures.default_budgets) in
  run_loop Fixtures.registry None m 1 (Some "only") s = Some (inr tt, s).
Proof.
  intros m s.
  rewrite (step_without_attempts_is_skipped Fixtures.registry None m 0 "only"
             (mkStepDefinition "only" "mock_intake" [] [] [] (mkRetryPolicy 0)) s).
  - reflexivity.
  - split; discriminate.
  - reflexivity.
  - reflexivity.
  - cbn. lia.
Defined.

(** X21.  When the [on_step_update] callback raises on an attempt,
    the run ends there as Failed with the text of the exception; the
    attempt has already been appended to the record, and it is not
    counted as a completed step, even when it passed. *)
Theorem callback_exception_fails_run
    (registry : list (string * Agent)) (callback : StepAttempt.t -> option pyexn)
    (manifest : Manifest.t) (fuel : nat) (cur : string) (sd : StepDefinition)
    (s : RunState) (a : StepAttempt.t) (st' : Store) (e : pyexn) :
  continues cur -> dict_get (Manifest.steps manifest) cur = Some sd ->
  check_budget (completed_steps s) (budgets (context (run_store s))) = inr tt ->
  0 < max_attempts (retry sd) ->
  _execute_step_attempt registry sd 1 (run_store s) = (inr a, st') ->
  callback a = Some e ->
  exists final,
    run_from registry (Some callback) manifest (S fuel) (Some cur) s = Some final
    /\ RunRecord.status (record final) = RunStatus.FAILED
    /\ RunRecord.error (record final) = Some (exn_str e)
    /\ RunRecord.steps (record final) = RunRecord.steps (record s) ++ [a]
    /\ completed_steps final = completed_steps s
    /\ run_store final = st'.
Proof.
  intros Hc Hsd Hb Hmax Hex He.
  destruct (Z.to_nat (max_attempts (retry sd))) as [|n] eqn:En; [lia|].
  eexists. split.
  - unfold run_from.
    rewrite (run_loop_raise registry (Some callback) manifest fuel cur sd s e
               (mkRunState st' (completed_steps s) (RunRecord.append_step a (record s)))
               Hc Hsd Hb).
    + reflexivity.
    + rewrite En.
      exact (attempt_loop_callback_raises registry (Some callback) n 1 sd cur s a st'
               callback e eq_refl Hex He).
  - repeat split.
Qed.

Lemma callback_exception_fails_run_witness :
  let m := Fixtures.manifest_of Fixtures.HAPPY_PATH_MANIFEST in
  let c := Fixtures.test_context Fixtures.default_budgets in
  let callback := fun _ : StepAttempt.t => Some (OtherError "display failed") in
  exists final,
    run Fixtures.registry (Some callback) m 1 c = Some (inr final)
    /\ RunRecord.status (record final) = RunStatus.FAILED
    /\ RunRecord.error (record final) = Some "display failed"
    /\ map StepAttempt.status (RunRecord.steps (record final)) = [StepStatus.PASSED]
    /\ completed_steps final = 0.
Proof.
  intros m c callback.
  set (sd := mkStepDefinition "intake" "mock_intake" ["intake_pre"] ["intake_post"]
               ["global_invariant"] (mkRetryPolicy 1)).
  set (out := _execute_step_attempt Fixtures.registry sd 1 (mkStore c ∅ [])).
  set (blank := StepAttempt.mk EmptyString EmptyString 0 StepStatus.PENDING
                  [] [] [] ∅ ∅ EmptyString None).
  set (a := match fst out with inr a => a | inl _ => blank end).
  destruct (callback_exception_fails_run Fixtures.registry callback m 0 "intake" sd
              (initial_state m c) a (snd out) (OtherError "display failed"))
    as (final & Hrun & Hst & Herr & Hsteps & Hcount & _).
  - split; discriminate.
  - reflexivity.
  - reflexivity.
  - reflexivity.
  - vm_compute. reflexivity.
  - reflexivity.
  - exists final. split; [apply run_returns_iff; split; [reflexivity | exact Hrun]|].
    split; [exact Hst|]. split; [exact Herr|].
    split; [|exact Hcount]. rewrite Hsteps. vm_compute. reflexivity.
Defined.

(** X22.  When [context.budgets] has no "max_total_steps", the limit
    is 20; but once 20 steps have passed, the run does not end with
    the budget message: building the [BudgetExhaustedError] looks the
    key up again, and the run is Failed with the [KeyError] for
    'max_total_steps'.  The step that is up is not executed. *)
Theorem missing_budget_key_fails_with_key_error
    (registry : list (string * Agent))
    (on_step_update : option (StepAttempt.t -> option pyexn))
    (manifest : Manifest.t) (fuel : nat) (cur : string) (sd : StepDefinition)
    (s : RunState) :
  continues cur -> dict_get (Manifest.steps manifest) cur = Some sd ->
  budgets (context (run_store s)) !! "max_total_steps" = None ->
  (completed_steps s < 20 ->
   check_budget (completed_steps s) (budgets (context (run_store s))) = inr tt)
  /\ (20 <= completed_steps s ->
      run_from registry on_step_update manifest (S fuel) (Some cur) s
      = Some (fail_run (KeyError "max_total_steps") s)
      /\ RunRecord.error (record (fail_run (KeyError "max_total_steps") s))
         = Some "'max_total_steps'").
Proof.
  intros Hc Hsd Hnone. unfold check_budget. rewrite Hnone. cbn [default from_option id].
  split.
  - intros Hlt. destruct (Z.geb_spec (completed_steps s) 20) as [Hge|_]; [lia|reflexivity].
  - intros Hge. split; [|reflexivity]. unfold run_from.
    rewrite (run_loop_budget registry on_step_update manifest fuel cur sd s
               (KeyError "max_total_steps") Hc Hsd); [reflexivity|].
    unfold check_budget. rewrite Hnone. cbn [default from_option id].
    destruct (Z.geb_spec (completed_steps s) 20) as [_|Hlt]; [reflexivity | lia].
Qed.

Lemma missing_budget_key_fails_with_key_error_witness :
  let m := Fixtures.manifest_of Fixtures.HAPPY_PATH_MANIFEST in
  let s := mkRunState (mkStore (Fixtures.test_context ∅) ∅ []) 20
             (initial_record m (Fixtures.test_context ∅)) in
  exists final,
    run_from Fixtures.registry None m 1 (Some "intake") s = Some final
    /\ RunRecord.status (record final) = RunStatus.FAILED
    /\ RunRecord.error (record final) = Some "'max_total_steps'".
Proof.
  intros m s.
  destruct (missing_budget_key_fails_with_key_error Fixtures.registry None m 0 "intake"
              (mkStepDefinition "intake" "mock_intake" ["intake_pre"] ["intake_post"]
                 ["global_invariant"] (mkRetryPolicy 1)) s) as [_ H].
  - split; discriminate.
  - reflexivity.
  - reflexivity.
  - destruct H as [Hrun Herr]; [cbn; lia|].
    eexists. split; [exact Hrun|]. split; [reflexivity | exact Herr].
Defined.

(** X23.  The items are saved after the record has been marked
    Completed.  When the walk ends normally and [extracted_items]
    holds something that cannot be saved (not a list of mappings), the
    exception turns the record into Failed, with the exception's text,
    although every step of the walk was taken. *)
Theorem unsaved_items_fail_completed_run
    (registry : list (string * Agent))
    (on_step_update : option (StepAttempt.t -> option pyexn))
    (manifest : Manifest.t) (fuel : nat) (cur : option string)
    (s s' : RunState) (items : pyval) (e : pyexn) :
  run_loop registry on_step_update manifest fuel cur s = Some (inr tt, s') ->
  data (context (run_store s')) !! "extracted_items" = Some items ->
  truthy items = true ->
  save_items items = inl e ->
  exists final,
    run_from registry on_step_update manifest fuel cur s = Some final
    /\ RunRecord.status (record final) = RunStatus.FAILED
    /\ RunRecord.error (record final) = Some (exn_str e)
    /\ RunRecord.steps (record final) = RunRecord.steps (record s')
    /\ completed_steps final = completed_steps s'.
Proof.
  intros Hloop Hitems Htruthy Hsave. unfold run_from. rewrite Hloop.
  unfold finish. rewrite Hitems. cbn [default from_option id]. rewrite Htruthy, Hsave.
  eexists. split; [reflexivity|]. repeat split.
Qed.

Lemma unsaved_items_fail_completed_run_witness :
  let m := Manifest.mk (PStr "w") (PStr EmptyString) (PStr "1.0") "only"
             [("only", mkStepDefinition "only" "mock_failing" [] [] [] (mkRetryPolicy 1))]
             [] (PDict []) (PDict []) in
  let c := set_data "extracted_items" (PList [PInt 1])
             (Fixtures.test_context Fixtures.default_budgets) in
  exists final,
    run Fixtures.registry None m 1 c = Some (inr final)
    /\ RunRecord.status (record final) = RunStatus.FAILED
    /\ RunRecord.error (record final) = Some "'int' object has no attribute 'get'"
    /\ map StepAttempt.status (RunRecord.steps (record final)) = [StepStatus.PASSED].
Proof.
  intros m c.
  set (s' := match run_loop Fixtures.registry None m 1 (Some "only") (initial_state m c) with
             | Some (_, s') => s'
             | None => initial_state m c
             end).
  destruct (unsaved_items_fail_completed_run Fixtures.registry None m 1 (Some "only")
              (initial_state m c) s' (PList [PInt 1])
              (AttributeError "'int' object has no attribute 'get'"))
    as (final & Hrun & Hst & Herr & Hsteps & _).
  - vm_compute. reflexivity.
  - vm_compute. reflexivity.
  - reflexivity.
  - reflexivity.
  - exists final. split; [apply run_returns_iff; split; [reflexivity | exact Hrun]|].
    split; [exact Hst|]. split; [exact Herr|].
    rewrite Hsteps. vm_compute. reflexivity.
Defined.

(** ** What a run leaves in its record *)

Lemma with_attempts_head new : forall r,
  RunRecord.run_id (with_attempts new r) = RunRecord.run_id r
  /\ RunRecord.manifest_name (with_attempts new r) = RunRecord.manifest_name r
  /\ RunRecord.input_folder (with_attempts new r) = RunRecord.input_folder r
  /\ RunRecord.output_folder (with_attempts new r) = RunRecord.output_folder r
  /\ RunRecord.model_name (with_attempts new r) = RunRecord.model_name r
  /\ RunRecord.status (with_attempts new r) = RunRecord.status r
  /\ RunRecord.error (with_attempts new r) = RunRecord.error r.
Proof.
  induction new as [|a new IH]; intros r; [repeat split|].
  rewrite with_attempts_cons. destruct (IH (RunRecord.append_step a r)) as (-> & -> & -> & -> & -> & -> & ->).
  repeat split.
Qed.

Lemma with_attempts_app new1 new2 r :
  with_attempts (new1 ++ new2) r = with_attempts new2 (with_attempts new1 r).
Proof. unfold with_attempts. apply fold_left_app. Qed.

Section Record.

Variable registry : list (string * Agent).
Variable on_step_update : option (StepAttempt.t -> option pyexn).
Variable manifest : Manifest.t.

Lemma run_loop_record fuel : forall cur s r s',
  run_loop registry on_step_update manifest fuel cur s = Some (r, s') ->
  exists new, record s' = with_attempts new (record s)
              /\ Forall (from_manifest manifest) new.
Proof.
  induction fuel as [|fuel IH]; intros cur s r s'.
  - destruct cur as [cur|]; cbn [run_loop].
    + destruct (String.eqb cur EmptyString || String.eqb cur "__end__"); [|discriminate].
      intros [= <- <-]. exists []. split; [reflexivity | apply List.Forall_nil].
    + intros [= <- <-]. exists []. split; [reflexivity | apply List.Forall_nil].
  - destruct cur as [cur|]; cbn [run_loop].
    2:{ intros [= <- <-]. exists []. split; [reflexivity | apply List.Forall_nil]. }
    destruct (String.eqb cur EmptyString || String.eqb cur "__end__").
    { intros [= <- <-]. exists []. split; [reflexivity | apply List.Forall_nil]. }
    destruct (dict_get (Manifest.steps manifest) cur) as [sd|] eqn:Esd.
    2:{ intros [= <- <-]. exists []. split; [reflexivity | apply List.Forall_nil]. }
    destruct (check_budget _ _).
    { intros [= <- <-]. exists []. split; [reflexivity | apply List.Forall_nil]. }
    destruct (attempt_loop_attempts registry on_step_update sd cur
                (Z.to_nat (max_attempts (retry sd))) 1 s)
      as (new & Hrec & _ & _ & Hids & _).
    assert (Hnew : Forall (from_manifest manifest) new).
    { eapply List.Forall_impl; [|exact Hids]. intros a [H1 H2]. exists cur, sd. auto. }
    destruct (attempt_loop registry on_step_update _ 1 sd cur s) as [[e|b] s1].
    + intros [= <- <-]. exists new. split; [exact Hrec | exact Hnew].
    + intros H. destruct (IH _ _ _ _ H) as (new' & Hrec' & Hnew').
      exists (new ++ new'). split.
      * rewrite Hrec'. cbn [snd] in Hrec. rewrite Hrec. symmetry. apply with_attempts_app.
      * apply Forall_app. split; assumption.
Qed.

End Record.

(** X24.  The record a run returns is the one it started with, plus
    attempts: its run id, manifest name, folders and model name are
    those taken from the context and the manifest when the run
    started, whatever the agents did to the context since; and every
    attempt in it is an attempt of a step of the manifest, carrying
    that step's name and agent. *)
Theorem run_record_keeps_its_head
    (registry : list (string * Agent))
    (on_step_update : option (StepAttempt.t -> option pyexn))
    (manifest : Manifest.t) (fuel : nat) (c : Context) (final : RunState) :
  run registry on_step_update manifest fuel c = Some (inr final) ->
  RunRecord.run_id (record final) = run_id c
  /\ RunRecord.manifest_name (record final) = Manifest.name manifest
  /\ RunRecord.input_folder (record final)
     = default (PStr EmptyString) (data c !! "input_folder")
  /\ RunRecord.output_folder (record final)
     = default (PStr EmptyString) (data c !! "output_folder")
  /\ RunRecord.model_name (record final) = default (PStr "gpt-4o") (config c !! "model")
  /\ Forall (from_manifest manifest) (RunRecord.steps (record final)).
Proof.
  intros H. apply run_returns_iff in H as [_ H]. unfold run_from in H.
  destruct (run_loop registry on_step_update manifest fuel _ _) as [[r s']|] eqn:Eloop;
    [|discriminate].
  destruct (run_loop_record registry on_step_update manifest fuel _ _ _ _ Eloop)
    as (new & Hrec & Hnew).
  pose proof (with_attempts_head new (record (initial_state manifest c))) as Hhead.
  pose proof (steps_with_attempts new (record (initial_state manifest c))) as Hsteps.
  rewrite <- Hrec in Hhead, Hsteps. cbn in Hhead, Hsteps.
  destruct Hhead as (H1 & H2 & H3 & H4 & H5 & _).
  assert (Hfinal : record final = RunRecord.set_error (RunRecord.error (record final))
                                    (RunRecord.set_status (RunRecord.status (record final))
                                       (record s'))).
  { destruct r as [e|[]].
    - injection H as <-. reflexivity.
    - rewrite finish_eq in H.
      destruct (save_extracted _); injection H as <-;
        destruct (record s'); reflexivity. }
  rewrite Hfinal. cbn. rewrite H1, H2, H3, H4, H5, Hsteps. repeat split. exact Hnew.
Qed.

Lemma run_record_keeps_its_head_witness :
  let m := Fixtures.manifest_of Fixtures.HAPPY_PATH_MANIFEST in
  let c := Fixtures.test_context Fixtures.default_budgets in
  exists final,
    run Fixtures.registry None m 3 c = Some (inr final)
    /\ RunRecord.run_id (record final) = run_id c
    /\ RunRecord.manifest_name (record final) = PStr "test_happy"
    /\ Forall (from_manifest m) (RunRecord.steps (record final)).
Proof.
  intros m c.
  set (final := match run Fixtures.registry None m 3 c with
                | Some (inr final) => final
                | _ => initial_state m c
                end).
  assert (Hrun : run Fixtures.registry None m 3 c = Some (inr final)) by (vm_compute; reflexivity).
  destruct (run_record_keeps_its_head Fixtures.registry None m 3 c final Hrun)
    as (H1 & H2 & _ & _ & _ & H6).
  exists final. split; [exact Hrun|]. split; [exact H1|]. split; [exact H2 | exact H6].
Defined.

(** ** The budget and the passed attempts *)

Lemma passed_attempts_app l1 l2 :
  passed_attempts (l1 ++ l2) = passed_attempts l1 + passed_attempts l2.
Proof. unfold passed_attempts. rewrite List.filter_app, length_app. lia. Qed.

Lemma passed_attempts_one a :
  passed_attempts [a]
  = if StepStatus.eqb (StepAttempt.status a) StepStatus.PASSED then 1 else 0.
Proof.
  unfold passed_attempts. cbn [List.filter].
  destruct (StepStatus.eqb (StepAttempt.status a) StepStatus.PASSED); reflexivity.
Qed.

Section Tally.

Variable registry : list (string * Agent).
Variable on_step_update : option (StepAttempt.t -> option pyexn).

(** Over one visit, the counter and the Passed attempts of the
    record move together; when the visit raises, the counter has not
    moved and at most one Passed attempt has been appended. *)
Lemma attempt_loop_tally sd cur n : forall attempt s,
  match attempt_loop registry on_step_update n attempt sd cur s with
  | (inr _, s') =>
      completed_steps s' - completed_steps s
      = passed_attempts (RunRecord.steps (record s'))
        - passed_attempts (RunRecord.steps (record s))
      /\ completed_steps s <= completed_steps s' <= completed_steps s + 1
  | (inl _, s') =>
      completed_steps s' = completed_steps s
      /\ passed_attempts (RunRecord.steps (record s))
         <= passed_attempts (RunRecord.steps (record s'))
         <= passed_attempts (RunRecord.steps (record s)) + 1
      /\ (on_step_update = None ->
          passed_attempts (RunRecord.steps (record s'))
          = passed_attempts (RunRecord.steps (record s)))
  end.
Proof.
  induction n as [|n IH]; intros attempt s.
  - cbn. lia.
  - pose proof (execute_outcome registry sd attempt (run_store s)) as Hout.
    destruct (_execute_step_attempt registry sd attempt (run_store s)) as [[e|a] st1] eqn:Hex.
    { rewrite (attempt_loop_raised registry on_step_update n attempt sd cur s e st1 Hex).
      cbn. split; [reflexivity|]. split; [lia | reflexivity]. }
    destruct Hout as [_ Hsound].
    assert (Hq : quiet on_step_update a
                 \/ exists callback e, on_step_update = Some callback /\ callback a = Some e).
    { unfold quiet. destruct on_step_update as [callback|]; [|left; exact I].
      destruct (callback a) as [e|] eqn:E; [right; eauto | left; reflexivity]. }
    destruct Hq as [Hq|(callback & e & Hcb & He)].
    2:{ rewrite (attempt_loop_callback_raises registry on_step_update n attempt sd cur s a st1
                   callback e Hcb Hex He).
        cbn [completed_steps record RunRecord.append_step RunRecord.steps].
        rewrite passed_attempts_app, passed_attempts_one.
        split; [reflexivity|]. split; [destruct (StepStatus.eqb _ _); lia|].
        rewrite Hcb. discriminate. }
    destruct Hsound as [(Hp & _)|(Hf & _)].
    { rewrite (attempt_loop_passed registry on_step_update n attempt sd cur s a st1 Hex Hp Hq).
      cbn [completed_steps record RunRecord.append_step RunRecord.steps].
      rewrite passed_attempts_app, passed_attempts_one, Hp. cbn. lia. }
    assert (Hstep : exists st2,
              attempt_loop registry on_step_update (S n) attempt sd cur s
              = attempt_loop registry on_step_update n (attempt + 1) sd cur
                  (mkRunState st2 (completed_steps s) (RunRecord.append_step a (record s)))).
    { destruct (Z.lt_ge_cases attempt (max_attempts (retry sd))) as [Hlt|Hge].
      - eexists.
        exact (attempt_loop_retry registry on_step_update n attempt sd cur s a st1
                 Hex Hf Hq Hlt).
      - eexists.
        exact (attempt_loop_last registry on_step_update n attempt sd cur s a st1
                 Hex Hf Hq Hge). }
    destruct Hstep as [st2 ->].
    specialize (IH (attempt + 1)
                  (mkRunState st2 (completed_steps s) (RunRecord.append_step a (record s)))).
    cbn [completed_steps record RunRecord.append_step RunRecord.steps] in IH.
    rewrite passed_attempts_app, passed_attempts_one, Hf in IH. cbn [StepStatus.eqb] in IH.
    destruct (attempt_loop registry on_step_update n (attempt + 1) sd cur _) as [[e|b] s'].
    + destruct IH as (H1 & H2 & H3). split; [exact H1|]. split; [lia|].
      intros Hnone. rewrite (H3 Hnone). lia.
    + lia.
Qed.

Variable manifest : Manifest.t.
Hypothesis agents_keep : keeps_budgets registry.

Lemma run_loop_tally fuel : forall cur s r s',
  completed_steps s = passed_attempts (RunRecord.steps (record s)) ->
  run_loop registry on_step_update manifest fuel cur s = Some (r, s') ->
  passed_attempts (RunRecord.steps (record s'))
  <= Z.max (completed_steps s) (total_steps_limit (context (run_store s)))
  /\ completed_steps s' <= passed_attempts (RunRecord.steps (record s'))
  /\ (on_step_update = None ->
      completed_steps s' = passed_attempts (RunRecord.steps (record s'))).
Proof.
  induction fuel as [|fuel IH]; intros cur s r s' Hinv.
  - destruct cur as [cur|]; cbn [run_loop].
    + destruct (String.eqb cur EmptyString || String.eqb cur "__end__"); [|discriminate].
      intros [= <- <-]. lia.
    + intros [= <- <-]. lia.
  - destruct cur as [cur|]; cbn [run_loop]; [|intros [= <- <-]; lia].
    destruct (String.eqb cur EmptyString || String.eqb cur "__end__");
      [intros [= <- <-]; lia|].
    destruct (dict_get (Manifest.steps manifest) cur) as [sd|]; [|intros [= <- <-]; lia].
    unfold check_budget. fold (total_steps_limit (context (run_store s))).
    destruct (Z.geb_spec (completed_steps s) (total_steps_limit (context (run_store s))))
      as [Hge|Hlt].
    { destruct (budgets (context (run_store s)) !! "max_total_steps");
        intros [= <- <-]; lia. }
    pose proof (attempt_loop_tally sd cur (Z.to_nat (max_attempts (retry sd))) 1 s) as Htally.
    pose proof (keeps_attempt_loop registry on_step_update agents_keep
                  (Z.to_nat (max_attempts (retry sd))) 1 sd cur s) as Hkeep.
    destruct (attempt_loop registry on_step_update _ 1 sd cur s) as [[e|b] s1];
      cbn [snd] in Hkeep.
    + intros [= <- <-]. destruct Htally as (H1 & H2 & H3).
      split; [lia|]. split; [lia|]. intros Hnone. rewrite (H3 Hnone). lia.
    + intros H.
      assert (Hinv1 : completed_steps s1 = passed_attempts (RunRecord.steps (record s1)))
        by lia.
      destruct (IH _ _ _ _ Hinv1 H) as (Hb & Hle & Heq).
      unfold total_steps_limit, run_budgets in *. rewrite Hkeep in Hb.
      split; [lia|]. split; assumption.
Qed.

End Tally.

(** X25.  When no agent touches [context.budgets], a run never
    records more Passed attempts than [max_total_steps] allows (20
    when the budget is not set, none when it is negative), whatever
    the manifest and the callback; and without a callback the counter
    of completed steps the run ends with is the number of Passed
    attempts in its record. *)
Theorem budget_bounds_passed_attempts
    (registry : list (string * Agent))
    (on_step_update : option (StepAttempt.t -> option pyexn))
    (manifest : Manifest.t) (fuel : nat) (c : Context) (final : RunState) :
  keeps_budgets registry ->
  run registry on_step_update manifest fuel c = Some (inr final) ->
  passed_attempts (RunRecord.steps (record final)) <= Z.max 0 (total_steps_limit c)
  /\ completed_steps final <= passed_attempts (RunRecord.steps (record final))
  /\ (on_step_update = None ->
      completed_steps final = passed_attempts (RunRecord.steps (record final))).
Proof.
  intros Hkeep H. apply run_returns_iff in H as [_ H]. unfold run_from in H.
  destruct (run_loop registry on_step_update manifest fuel _ _) as [[r s']|] eqn:Eloop;
    [|discriminate].
  destruct (run_loop_tally registry on_step_update manifest Hkeep fuel
              (Some (Manifest.entry_step manifest)) (initial_state manifest c) r s'
              eq_refl Eloop)
    as (Hb & Hle & Heq).
  cbn [initial_state completed_steps run_store context] in Hb.
  assert (Hfinal : RunRecord.steps (record final) = RunRecord.steps (record s')
                   /\ completed_steps final = completed_steps s').
  { destruct r as [e|[]].
    - injection H as <-. split; reflexivity.
    - rewrite finish_eq in H.
      destruct (save_extracted _); injection H as <-; split; reflexivity. }
  destruct Hfinal as [-> ->]. split; [exact Hb|]. split; [exact Hle | exact Heq].
Qed.

Lemma budget_bounds_passed_attempts_witness :
  let m := Fixtures.manifest_of Fixtures.HAPPY_PATH_MANIFEST in
  let c := Fixtures.test_context (<["max_total_steps" := 1]> ∅) in
  exists final,
    run Fixtures.registry None m 3 c = Some (inr final)
    /\ passed_attempts (RunRecord.steps (record final)) <= 1
    /\ completed_steps final = passed_attempts (RunRecord.steps (record final)).
Proof.
  intros m c.
  set (final := match run Fixtures.registry None m 3 c with
                | Some (inr final) => final
                | _ => initial_state m c
                end).
  assert (Hrun : run Fixtures.registry None m 3 c = Some (inr final)) by (vm_compute; reflexivity).
  destruct (budget_bounds_passed_attempts Fixtures.registry None m 3 c final
              fixtures_keep_budgets Hrun) as (Hb & _ & Heq).
  exists final. split; [exact Hrun|]. split; [exact Hb | exact (Heq eq_refl)].
Defined.

(** ** The specs read the convention keys only *)

Ltac frame_cases :=
  intros Hk; unfold bind, data_get, config_get, get_run_id, lift, ret, set_data;
  cbn [data config run_id fst];
  rewrite ?lookup_insert_ne by (intros ->; apply Hk; cbn; tauto);
  repeat case_match; reflexivity.

Lemma spec_frame n fn k v c :
  dict_get _SPEC_REGISTRY n = Some fn -> ~ In k spec_keys ->
  fst (fn (set_data k v c)) = fst (fn c).
Proof.
  unfold _SPEC_REGISTRY. cbn [dict_get].
  repeat (match goal with
          | |- context [String.eqb ?x n] => destruct (String.eqb_spec x n) as [<-|_]
          end;
          [intros [= <-]|]).
  - unfold intake_pre. frame_cases.
  - unfold intake_post. frame_cases.
  - unfold extract_pre. frame_cases.
  - unfold extract_post. frame_cases.
  - unfold write_pre. frame_cases.
  - unfold write_post. frame_cases.
  - unfold global_invariant. frame_cases.
  - unfold pipeline_progress. frame_cases.
  - discriminate.
Qed.

Lemma evaluate_specs_cons n names c fn :
  get_spec n = inr fn ->
  fst (evaluate_specs (n :: names) c)
  = match fst (fn c) with
    | inl e => inl e
    | inr r =>
        match fst (evaluate_specs names c) with
        | inl e => inl e
        | inr rs => inr (r :: rs)
        end
    end.
Proof.
  intros Hget. pose proof (get_spec_read_only n fn Hget c) as Hro.
  cbn [evaluate_specs]. unfold bind at 1, lift. rewrite Hget.
  unfold bind at 1. destruct (fn c) as [[e|r] c']; cbn [fst snd] in *; [reflexivity|].
  subst c'. unfold bind at 1. rewrite (evaluate_specs_eq names c).
  destruct (fst (evaluate_specs names c)); reflexivity.
Qed.

Lemma evaluate_specs_frame names k v c :
  Forall registered names -> ~ In k spec_keys ->
  fst (evaluate_specs names (set_data k v c)) = fst (evaluate_specs names c).
Proof.
  intros Hreg Hk. induction Hreg as [|n names [fn Hfn] _ IH]; [reflexivity|].
  assert (Hget : get_spec n = inr fn) by (unfold get_spec; rewrite Hfn; reflexivity).
  rewrite !(evaluate_specs_cons n names _ fn Hget).
  rewrite (spec_frame n fn k v c Hfn Hk), IH. reflexivity.
Qed.

(** X26.  The registered specs read the convention keys of
    [context.data] only: writing any other key, such as the keys a
    retry adds, changes no result of [evaluate_specs], and turns no
    result into an exception. *)
Theorem specs_read_convention_keys_only
    (names : list string) (k : string) (v : pyval) (c : Context) :
  Forall registered names -> ~ In k spec_keys ->
  fst (evaluate_specs names (set_data k v c)) = fst (evaluate_specs names c).
Proof. exact (evaluate_specs_frame names k v c). Qed.

Lemma specs_read_convention_keys_only_witness :
  let c := Fixtures.test_context Fixtures.default_budgets in
  fst (evaluate_specs ["intake_pre"; "extract_post"]
         (set_data "_last_error" (PStr "Post-spec failed") c))
  = fst (evaluate_specs ["intake_pre"; "extract_post"] c).
Proof.
  intros c.
  apply (specs_read_convention_keys_only ["intake_pre"; "extract_post"] "_last_error").
  - repeat (apply List.Forall_cons; [eexists; reflexivity|]). apply List.Forall_nil.
  - cbn. intros [H|[H|[H|[H|[H|[]]]]]]; discriminate H.
Defined.

(** ** An agent that does nothing is stopped *)

Lemma retry_store_frame names error step attempt st :
  Forall registered names ->
  fst (evaluate_specs names (context (retry_store error step attempt st)))
  = fst (evaluate_specs names (context st)).
Proof.
  intros Hreg. unfold retry_store. cbn [context].
  rewrite !(evaluate_specs_frame names) by
    (first [exact Hreg | cbn; intros [H|[H|[H|[H|[H|[]]]]]]; discriminate H]).
  reflexivity.
Qed.

Section Stuck.

Variable registry : list (string * Agent).
Variable sd : StepDefinition.
Variable cur : string.
Variable ag : Agent.
Variable pre : list SpecResult.
Variable rs : list SpecResult.

Hypothesis pre_registered : Forall registered (pre_specs sd).
Hypothesis post_registered : Forall registered (post_specs sd).
Hypothesis agent_found : get_agent registry (agent_name sd) = inr ag.
Hypothesis agent_idle : leaves_context ag.

Lemma stuck_post_fails st :
  stuck_at sd pre rs st -> post_fails registry sd (context st) (context st) rs.
Proof.
  intros (Hpre & Hpass & Hrs & Hfail). split; [split|split; assumption].
  - exists pre. split; assumption.
  - exists ag. split; [exact agent_found|]. split; [apply agent_idle|].
    rewrite drop_all. reflexivity.
Qed.

Lemma stuck_retry st error attempt st' :
  stuck_at sd pre rs st -> context st' = context st ->
  stuck_at sd pre rs (retry_store error cur attempt st').
Proof.
  intros (Hpre & Hpass & Hrs & Hfail) Hc. unfold stuck_at.
  rewrite !retry_store_frame by assumption. rewrite Hc. repeat split; assumption.
Qed.

(** One attempt of the stuck step: it raises when its fingerprint
    has been seen, and otherwise fails, leaves the context alone and
    notes the fingerprint. *)
Lemma stuck_attempt attempt st :
  stuck_at sd pre rs st ->
  let fp := post_fingerprint sd (context st) rs in
  (fp ∈ seen_for (name sd) st /\
   exists st', _execute_step_attempt registry sd attempt st
               = (inl (LoopDetectedError (name sd) fp), st'))
  \/ (exists a st',
        _execute_step_attempt registry sd attempt st = (inr a, st')
        /\ StepAttempt.status a = StepStatus.FAILED
        /\ context st' = context st
        /\ fp ∈ seen_for (name sd) st').
Proof.
  intros Hstuck fp. pose proof (stuck_post_fails st Hstuck) as Hpf.
  pose proof (execute_post_failure registry sd attempt st (context st) rs Hpf) as Hex.
  cbn zeta in Hex. fold fp in Hex.
  destruct (decide (fp ∈ seen_for (name sd) st)) as [Hin|Hnew].
  - left. split; [exact Hin|]. eexists. exact Hex.
  - right. eexists. eexists. split; [exact Hex|]. split; [reflexivity|].
    split; [reflexivity|].
    unfold seen_for at 1. cbn [seen_fingerprints]. rewrite lookup_insert_eq.
    cbn [default from_option id]. set_solver.
Qed.

Lemma stuck_repeats attempt st st1 fp :
  stuck_at sd pre rs st ->
  fp = post_fingerprint sd (context st) rs ->
  fp ∈ seen_for (name sd) st1 -> dom (data (context st1)) = dom (data (context st)) ->
  stuck_at sd pre rs st1 ->
  exists st', _execute_step_attempt registry sd attempt st1
              = (inl (LoopDetectedError (name sd) fp), st').
Proof.
  intros Hstuck -> Hseen Hdom Hstuck1.
  pose proof (stuck_post_fails st1 Hstuck1) as Hpf.
  rewrite (execute_post_failure registry sd attempt st1 (context st1) rs Hpf). cbn zeta.
  assert (Hfp : post_fingerprint sd (context st1) rs = post_fingerprint sd (context st) rs).
  { destruct Hstuck as (_ & _ & Hrs & _), Hstuck1 as (_ & _ & Hrs1 & _).
    apply (same_failure_same_fingerprint sd (context st1) (context st) rs rs Hrs1 Hrs Hdom).
    intros x. reflexivity. }
  rewrite Hfp, decide_True by exact Hseen. eexists. reflexivity.
Qed.

Lemma stuck_loop n attempt s :
  stuck_at sd pre rs (run_store s) -> (3 <= n)%nat -> attempt + 1 < max_attempts (retry sd) ->
  exists fp s' new,
    attempt_loop registry None n attempt sd cur s = (inl (LoopDetectedError (name sd) fp), s')
    /\ record s' = with_attempts new (record s)
    /\ (length new <= 2)%nat
    /\ Forall (fun a => StepAttempt.status a = StepStatus.FAILED) new.
Proof.
  intros Hstuck Hn Hmax.
  destruct n as [|[|[|n]]]; try lia.
  destruct (stuck_attempt attempt (run_store s) Hstuck)
    as [(_ & st' & Hex)|(a1 & st1 & Hex1 & Hf1 & Hc1 & _)].
  { rewrite (attempt_loop_raised registry None _ attempt sd cur s _ st' Hex).
    eexists. eexists. exists []. split; [reflexivity|]. split; [reflexivity|].
    split; [cbn; lia | apply List.Forall_nil]. }
  rewrite (attempt_loop_retry registry None _ attempt sd cur s a1 st1 Hex1 Hf1 I)
    by lia.
  set (s1 := mkRunState (retry_store (StepAttempt.error a1) cur attempt st1)
               (completed_steps s) (RunRecord.append_step a1 (record s))).
  assert (Hstuck1 : stuck_at sd pre rs (run_store s1))
    by exact (stuck_retry (run_store s) _ attempt st1 Hstuck Hc1).
  destruct (stuck_attempt (attempt + 1) (run_store s1) Hstuck1)
    as [(_ & st' & Hex)|(a2 & st2 & Hex2 & Hf2 & Hc2 & Hseen2)].
  { rewrite (attempt_loop_raised registry None _ (attempt + 1) sd cur s1 _ st' Hex).
    eexists. eexists. exists [a1]. split; [reflexivity|]. split; [reflexivity|].
    split; [cbn; lia|]. apply List.Forall_cons; [exact Hf1 | apply List.Forall_nil]. }
  rewrite (attempt_loop_retry registry None _ (attempt + 1) sd cur s1 a2 st2 Hex2 Hf2 I)
    by lia.
  set (s2 := mkRunState (retry_store (StepAttempt.error a2) cur (attempt + 1) st2)
               (completed_steps s1) (RunRecord.append_step a2 (record s1))).
  assert (Hstuck2 : stuck_at sd pre rs (run_store s2))
    by exact (stuck_retry (run_store s1) _ (attempt + 1) st2 Hstuck1 Hc2).
  destruct (stuck_repeats (attempt + 1 + 1) (run_store s1) (run_store s2)
              (post_fingerprint sd (context (run_store s1)) rs) Hstuck1 eq_refl)
    as [st' Hex3].
  - exact Hseen2.
  - exact (retry_keeps_keys (StepAttempt.error a1) (StepAttempt.error a2) cur attempt
             (attempt + 1) st1 st2 Hc2).
  - exact Hstuck2.
  - rewrite (attempt_loop_raised registry None _ (attempt + 1 + 1) sd cur s2 _ st' Hex3).
    eexists. eexists. exists [a1; a2]. split; [reflexivity|]. split; [reflexivity|].
    split; [cbn; lia|].
    apply List.Forall_cons; [exact Hf1|].
    apply List.Forall_cons; [exact Hf2 | apply List.Forall_nil].
Qed.

End Stuck.

(** X27.  An agent that leaves the context as it is cannot keep a
    step failing for long.  When the step fails its post-specs and is
    allowed three attempts or more, the loop detector raises at the
    third attempt at the latest, however many attempts are allowed:
    the first retry adds the retry keys to the data, the second retry
    adds nothing new, so the third attempt repeats the fingerprint of
    the second.  The run ends Failed with the loop message, with at
    most two Failed attempts of the step in its record. *)
Theorem idle_agent_is_stopped_by_third_attempt
    (registry : list (string * Agent)) (manifest : Manifest.t) (fuel : nat)
    (cur : string) (sd : StepDefinition) (ag : Agent) (pre rs : list SpecResult)
    (s : RunState) :
  continues cur -> dict_get (Manifest.steps manifest) cur = Some sd ->
  check_budget (completed_steps s) (budgets (context (run_store s))) = inr tt ->
  3 <= max_attempts (retry sd) ->
  Forall registered (pre_specs sd) -> Forall registered (post_specs sd) ->
  get_agent registry (agent_name sd) = inr ag -> leaves_context ag ->
  fst (evaluate_specs (pre_specs sd) (context (run_store s))) = inr pre ->
  all_passed pre = true ->
  fst (evaluate_specs (post_specs sd) (context (run_store s))) = inr rs ->
  all_passed rs = false ->
  exists final fp new,
    run_from registry None manifest (S fuel) (Some cur) s = Some final
    /\ RunRecord.status (record final) = RunStatus.FAILED
    /\ RunRecord.error (record final)
       = Some ("Loop detected: step '" +:+ name sd +:+ "' repeated with fingerprint " +:+ fp)
    /\ RunRecord.steps (record final) = RunRecord.steps (record s) ++ new
    /\ (length new <= 2)%nat
    /\ Forall (fun a => StepAttempt.status a = StepStatus.FAILED) new.
Proof.
  intros Hc Hsd Hb Hmax Hpre Hpost Hag Hidle Epre Hppass Ers Hfail.
  destruct (stuck_loop registry sd cur ag pre rs Hpre Hpost Hag Hidle
              (Z.to_nat (max_attempts (retry sd))) 1 s)
    as (fp & s' & new & Hloop & Hrec & Hlen & Hall).
  - repeat split; assumption.
  - lia.
  - lia.
  - exists (fail_run (LoopDetectedError (name sd) fp) s'), fp, new.
    split.
    + unfold run_from.
      rewrite (run_loop_raise registry None manifest fuel cur sd s _ s' Hc Hsd Hb Hloop).
      reflexivity.
    + split; [reflexivity|]. split; [reflexivity|].
      split; [|split; assumption].
      cbn. rewrite Hrec. apply steps_with_attempts.
Qed.

Lemma idle_agent_is_stopped_by_third_attempt_witness :
  let m := Fixtures.manifest_of Scenarios.stuck in
  let c := Fixtures.test_context Fixtures.default_budgets in
  exists final fp new,
    run_from Fixtures.registry None m 1 (Some "extract") (initial_state m c) = Some final
    /\ RunRecord.status (record final) = RunStatus.FAILED
    /\ RunRecord.error (record final)
       = Some ("Loop detected: step '" +:+ "extract" +:+ "' repeated with fingerprint " +:+ fp)
    /\ RunRecord.steps (record final) = [] ++ new
    /\ (length new <= 2)%nat
    /\ Forall (fun a => StepAttempt.status a = StepStatus.FAILED) new.
Proof.
  intros m c.
  apply (idle_agent_is_stopped_by_third_attempt Fixtures.registry m 0 "extract"
           (mkStepDefinition "extract" "mock_failing" [] ["extract_post"] []
              (mkRetryPolicy 3))
           Fixtures.mock_failing []
           [mkSpecResult "extract_post" false "No items were extracted"
              "Check LLM response format or input file content" ["post"; "extract"]]
           (initial_state m c)).
  - split; discriminate.
  - reflexivity.
  - reflexivity.
  - cbn. lia.
  - apply List.Forall_nil.
  - apply List.Forall_cons; [eexists; reflexivity | apply List.Forall_nil].
  - reflexivity.
  - intros c0. reflexivity.
  - reflexivity.
  - reflexivity.
  - vm_compute. reflexivity.
  - reflexivity.
Defined.

(** ** When the run returns *)

(** X29.  When the edges failed steps take form no cycle (from every
    step, failures lead out of the walk within as many steps as there
    are edges), no agent changes [context.budgets] and the two calls
    before the [try] return, [run] returns a record, within a number
    of iterations of its loop that the total-steps limit and the
    number of edges bound: the record is Completed or Failed, a Failed
    record carries an error string, and an exception that ends the
    loop is what fails it: the record is Failed with the text of that
    exception and holds the attempts made until then. *)
Theorem run_returns_when_failures_settle
    (registry : list (string * Agent))
    (on_step_update : option (StepAttempt.t -> option pyexn))
    (manifest : Manifest.t) (c : Context) :
  failures_settle (Manifest.edges manifest) = true ->
  keeps_budgets registry ->
  before_try manifest c = inr tt ->
  exists final,
    run registry on_step_update manifest
      (enough_fuel (Manifest.edges manifest) (total_steps_limit c)) c = Some (inr final)
    /\ (RunRecord.status (record final) = RunStatus.COMPLETED
        \/ RunRecord.status (record final) = RunStatus.FAILED)
    /\ (RunRecord.status (record final) = RunStatus.FAILED ->
        exists msg, RunRecord.error (record final) = Some msg)
    /\ (forall e s',
          run_loop registry on_step_update manifest
            (enough_fuel (Manifest.edges manifest) (total_steps_limit c))
            (Some (Manifest.entry_step manifest)) (initial_state manifest c)
          = Some (inl e, s') ->
          RunRecord.status (record final) = RunStatus.FAILED
          /\ RunRecord.error (record final) = Some (exn_str e)
          /\ RunRecord.steps (record final) = RunRecord.steps (record s')).
Proof.
  intros Hsettle Hkeep Hopen.
  assert (Hfuel :
    (Z.to_nat (total_steps_limit (context (run_store (initial_state manifest c)))
               - completed_steps (initial_state manifest c))
     * (length (Manifest.edges manifest) + 2) + S (length (Manifest.edges manifest)) + 1
     <= enough_fuel (Manifest.edges manifest) (total_steps_limit c))%nat).
  { cbn [initial_state run_store context completed_steps]. unfold enough_fuel.
    rewrite Z.sub_0_r. nia. }
  destruct (run_loop_terminates registry on_step_update Hkeep manifest Hsettle
              (enough_fuel (Manifest.edges manifest) (total_steps_limit c))
              (S (length (Manifest.edges manifest)))
              (Some (Manifest.entry_step manifest)) (initial_state manifest c)
              (failures_settle_next manifest Hsettle _) Hfuel)
    as [[r s'] Hr].
  assert (Hfrom : exists final,
    run_from registry on_step_update manifest
      (enough_fuel (Manifest.edges manifest) (total_steps_limit c))
      (Some (Manifest.entry_step manifest)) (initial_state manifest c) = Some final).
  { unfold run_from. rewrite Hr. destruct r as [e|u]; [eauto|].
    destruct (finish s') as [[e|u'] s'']; eauto. }
  destruct Hfrom as [final Hfinal]. exists final.
  split; [apply run_returns_iff; split; assumption|].
  destruct (run_from_terminal _ _ _ _ _ _ _ Hfinal) as [Hterm Herr].
  split; [exact Hterm|]. split; [exact Herr|].
  intros e s0 Hloop. rewrite Hr in Hloop. injection Hloop as -> ->.
  unfold run_from in Hfinal. rewrite Hr in Hfinal. injection Hfinal as <-.
  repeat split.
Qed.

Lemma run_returns_when_failures_settle_witness :
  let m := Fixtures.manifest_of Fixtures.HAPPY_PATH_MANIFEST in
  let c := Fixtures.test_context Fixtures.default_budgets in
  exists final,
    run Fixtures.registry None m 84 c = Some (inr final)
    /\ (RunRecord.status (record final) = RunStatus.COMPLETED
        \/ RunRecord.status (record final) = RunStatus.FAILED).
Proof.
  intros m c.
  destruct (run_returns_when_failures_settle Fixtures.registry None m c)
    as (final & Hrun & Hst & _).
  - reflexivity.
  - exact fixtures_keep_budgets.
  - reflexivity.
  - exists final. split; [exact Hrun | exact Hst].
Defined.

(** ** When the run raises *)



